(** * Demikernel / Zeus queue back ends: framing codecs and pending-request engine

    A shallow embedding of the two queue back ends of the library:

    - [MTCP]: the stream back end ([libos/libmtcp/mtcp-queue.cc]), the
      magic-tagged scatter/gather envelope over a non-blocking byte stream,
      its progressive decoder, the work queue and the pending map;
    - [LWIP]: the packet back end ([dmtr::lwip_queue]), one
      Ethernet/IPv4/UDP datagram per scatter/gather array.

    Conventions.  Machine integers are [Z] with the wrap-around written
    out.  The host is little-endian (the code targets x86-64): [size_t]
    and [uint32_t] cells are laid out with [le_split], and [htons]/[htonl]
    are byte swaps.  Memory that the code reaches through a pointer is a
    [list byte]; a [NULL] pointer is [None]. *)

From Stdlib Require Import ZArith List Lia Bool.
From coqutil Require Import Byte Word.LittleEndianList Z.bitblast.
From stdpp Require Import gmap list.

Local Open Scope Z_scope.

(** ** Machine integers and byte order *)

Definition wrap16 (z : Z) : Z := z mod 2 ^ 16.
Definition wrap32 (z : Z) : Z := z mod 2 ^ 32.
Definition wrap64 (z : Z) : Z := z mod 2 ^ 64.

(** Conversion of a 64-bit pattern to [ssize_t]. *)
Definition to_ssize (z : Z) : Z :=
  let u := wrap64 z in if u <? 2 ^ 63 then u else u - 2 ^ 64.

(** Conversion of a 64-bit pattern to [int]. *)
Definition to_int (z : Z) : Z :=
  let u := wrap32 z in if u <? 2 ^ 31 then u else u - 2 ^ 32.

(** [htons]/[ntohs] and [htonl]/[ntohl] on a little-endian host. *)
Definition bswap16 (x : Z) : Z :=
  Z.lor (Z.shiftl (Z.land x 255) 8) (Z.land (Z.shiftr x 8) 255).

Definition bswap32 (x : Z) : Z :=
  Z.lor (Z.lor (Z.shiftl (Z.land x 255) 24)
               (Z.shiftl (Z.land (Z.shiftr x 8) 255) 16))
        (Z.lor (Z.shiftl (Z.land (Z.shiftr x 16) 255) 8)
               (Z.land (Z.shiftr x 24) 255)).

Definition htons := bswap16.
Definition ntohs := bswap16.
Definition htonl := bswap32.
Definition ntohl := bswap32.

(** [memcpy(dst + off, src, |src|)] on a buffer held as a list. *)
Definition memwrite (dst : list byte) (off : nat) (src : list byte) : list byte :=
  take off dst ++ src ++ drop (off + length src) dst.

(** A zero-filled block of [n] bytes. *)
Definition zeros (n : nat) : list byte := replicate n Byte.x00.

(** What a function can do besides returning: trip an [assert], or leave
    the behaviour the language defines (a read outside a buffer, a
    dereference of [NULL] or of [end()]). *)
Inductive outcome (A : Type) : Type :=
| Ok (a : A)
| AssertFail
| Undefined.
Arguments Ok {A} a.
Arguments AssertFail {A}.
Arguments Undefined {A}.

Definition obind {A B} (m : outcome A) (k : A -> outcome B) : outcome B :=
  match m with
  | Ok a => k a
  | AssertFail => AssertFail
  | Undefined => Undefined
  end.

Notation "'let!' x ':=' m 'in' k" := (obind m (fun x => k))
  (at level 10, x pattern, m at level 100, k at level 200).

(** [struct sockaddr_in], fields as stored. *)
Record sockaddr_in := mk_sockaddr_in {
  sin_family : Z;
  sin_port : Z;
  sin_addr : Z
}.

Definition AF_INET : Z := 2.
Definition sizeof_sockaddr_in : Z := 16.

(** ** The stream back end *)

Module MTCP.

(** *** Data *)

(** Modelled from the spec: the segment type of the library header, which
    is not among the sources; a (length, byte-buffer) pair, used by the code
    as [bufs[i].buf] and [bufs[i].len].  The pointer is held as the bytes it
    points to. *)
Record sgelem := mk_sgelem {
  buf : list byte;
  len : Z
}.

(** Modelled from the spec: the scatter-gather array of the library
    header, an ordered sequence of up to [MAX_SGARRAY_SIZE] segments with
    its count [num_bufs].  The array is held as a list, of which the first
    [num_bufs] cells are live. *)
Record sgarray := mk_sgarray {
  num_bufs : Z;
  bufs : list sgelem
}.

(** The live cells of the array. *)
Definition segments (sga : sgarray) : list sgelem :=
  take (Z.to_nat (num_bufs sga)) (bufs sga).

Definition sizeof_header : Z := 24.
Definition sizeof_len : Z := 8.

(** Modelled from the spec: the pending-request record of [mtcp-queue.h],
    which is not among the sources, with the fields the code uses.
    [header] is the 24 bytes of the three 64-bit words, [rbuf] the lazily
    allocated payload buffer [buf], [num_bytes] the byte cursor; the
    record holds a reference to the caller's array, here its value. *)
Record PendingRequest := mk_req {
  isDone : bool;
  res : Z;
  header : list byte;
  rbuf : option (list byte);
  num_bytes : Z;
  sga : sgarray
}.

(** [PendingRequest req(sga)]: a request on which nothing has happened. *)
Definition new_request (s : sgarray) : PendingRequest :=
  {| isDone := false; res := 0; header := zeros 24; rbuf := None;
     num_bytes := 0; sga := s |}.

(** [req.header[i]]. *)
Definition header_word (req : PendingRequest) (i : nat) : Z :=
  le_combine (take 8 (drop (8 * i) (header req))).

(** *** The byte-stream transport

    The userspace TCP stack is outside the library.  A socket is held as
    the script of what its next calls will find: each [mtcp_read] finds
    one arrival (a chunk of bytes, of which it takes at most what it asked
    for and leaves the rest), would-block, or a hard error; likewise for
    [mtcp_writev] and [mtcp_accept].  An exhausted script is
    would-block. *)

Inductive rx_event := RxData (chunk : list byte) | RxAgain | RxErr.
Inductive tx_event := TxRoom (room : nat) | TxAgain | TxErr.
Inductive acc_event := AccConn (fd : Z) (peer : sockaddr_in) | AccAgain | AccErr.

Record transport := mk_transport {
  rx : list rx_event;
  tx : list tx_event;
  acc : list acc_event;
  sent : list byte
}.

(** Result of a transport call: a byte count with its data, [-1] with
    [errno] in [{EAGAIN, EWOULDBLOCK}], or [-1] with another [errno]. *)
Inductive io_result (A : Type) :=
| Count (a : A)
| WouldBlock
| Failed.
Arguments Count {A} a.
Arguments WouldBlock {A}.
Arguments Failed {A}.

Definition set_rx (t : transport) (r : list rx_event) : transport :=
  {| rx := r; tx := tx t; acc := acc t; sent := sent t |}.

Definition mtcp_read (n : nat) (t : transport) : io_result (list byte) * transport :=
  match rx t with
  | [] => (WouldBlock, t)
  | RxAgain :: r => (WouldBlock, set_rx t r)
  | RxErr :: r => (Failed, set_rx t r)
  | RxData c :: r =>
      (Count (take n c),
       set_rx t (match drop n c with [] => r | c' => RxData c' :: r end))
  end.

Definition mtcp_writev (iov : list byte) (t : transport) : io_result nat * transport :=
  match tx t with
  | [] => (WouldBlock, t)
  | TxAgain :: r => (WouldBlock, {| rx := rx t; tx := r; acc := acc t; sent := sent t |})
  | TxErr :: r => (Failed, {| rx := rx t; tx := r; acc := acc t; sent := sent t |})
  | TxRoom k :: r =>
      (Count (length (take k iov)),
       {| rx := rx t; tx := r; acc := acc t; sent := sent t ++ take k iov |})
  end.

Definition mtcp_accept (t : transport) : io_result (Z * sockaddr_in) * transport :=
  match acc t with
  | [] => (WouldBlock, t)
  | AccAgain :: r => (WouldBlock, {| rx := rx t; tx := tx t; acc := r; sent := sent t |})
  | AccErr :: r => (Failed, {| rx := rx t; tx := tx t; acc := r; sent := sent t |})
  | AccConn fd a :: r =>
      (Count (fd, a), {| rx := rx t; tx := tx t; acc := r; sent := sent t |})
  end.

(** The bytes a socket still has to deliver. *)
Fixpoint rx_bytes (l : list rx_event) : list byte :=
  match l with
  | [] => []
  | RxData c :: r => c ++ rx_bytes r
  | _ :: r => rx_bytes r
  end.

(** *** The queue object *)

(** Modelled from the spec: the members of [class MTCPQueue] that the code
    uses ([mtcp-queue.h] is not among the sources): [qd] is the library's
    descriptor, [mtcp_qd] the stack's socket, [accepts] the accept backlog,
    [workQ] the work queue and [pending] the pending map. *)
Record MTCPQueue := mk_queue {
  qd : Z;
  mtcp_qd : Z;
  listening : bool;
  mtcp_evts : Z;
  accepts : list (Z * sockaddr_in);
  workQ : list Z;
  pending : gmap Z PendingRequest
}.

Definition set_accepts (q : MTCPQueue) (a : list (Z * sockaddr_in)) : MTCPQueue :=
  {| qd := qd q; mtcp_qd := mtcp_qd q; listening := listening q;
     mtcp_evts := mtcp_evts q; accepts := a; workQ := workQ q;
     pending := pending q |}.

Definition set_work (q : MTCPQueue) (w : list Z) (p : gmap Z PendingRequest) : MTCPQueue :=
  {| qd := qd q; mtcp_qd := mtcp_qd q; listening := listening q;
     mtcp_evts := mtcp_evts q; accepts := accepts q; workQ := w;
     pending := p |}.

Definition set_evts (q : MTCPQueue) (e : Z) : MTCPQueue :=
  {| qd := qd q; mtcp_qd := mtcp_qd q; listening := listening q;
     mtcp_evts := e; accepts := accepts q; workQ := workQ q;
     pending := pending q |}.

(** Modelled from the spec: the [IS_PUSH] macro of the library header, which
    is not among the sources; the low bit of a token is the operation bit,
    1 for push and 0 for pop. *)
Definition IS_PUSH (qt : Z) : bool := Z.testbit qt 0.

(** Interest bits of the stack's readiness notifier ([mtcp_epoll.h]). *)
Definition MTCP_EPOLLIN : Z := 1.
Definition MTCP_EPOLLOUT : Z := 4.

(** What the build and the absent headers fix, taken as parameters:
    whether [assert] is compiled out, the frame sentinel [MAGIC] and the
    capacity [MAX_SGARRAY_SIZE] of a scatter/gather array. *)
Record config := mk_config {
  NDEBUG : bool;
  MAGIC : Z;
  MAX_SGARRAY_SIZE : Z
}.

(** A stage of [ProcessIncoming] either returns from the function or falls
    through to the next stage. *)
Inductive flow (A : Type) :=
| Return (a : A)
| Continue (a : A).
Arguments Return {A} a.
Arguments Continue {A} a.

(** The state a stage leaves, whichever way it ends. *)
Definition flow_val {A} (f : flow A) : A :=
  match f with Return a | Continue a => a end.

Section Engine.

Context (cfg : config).

(** [assert(c); k]. *)
Definition assert {A} (c : bool) (k : outcome A) : outcome A :=
  if NDEBUG cfg || c then k else AssertFail.

Definition set_done (req : PendingRequest) (r : Z) : PendingRequest :=
  {| isDone := true; res := r; header := header req; rbuf := rbuf req;
     num_bytes := num_bytes req; sga := sga req |}.

Definition set_header (req : PendingRequest) (h : list byte) : PendingRequest :=
  {| isDone := isDone req; res := res req; header := h; rbuf := rbuf req;
     num_bytes := num_bytes req; sga := sga req |}.

Definition set_rbuf (req : PendingRequest) (b : list byte) : PendingRequest :=
  {| isDone := isDone req; res := res req; header := header req;
     rbuf := Some b; num_bytes := num_bytes req; sga := sga req |}.

Definition set_num_bytes (req : PendingRequest) (n : Z) : PendingRequest :=
  {| isDone := isDone req; res := res req; header := header req;
     rbuf := rbuf req; num_bytes := n; sga := sga req |}.

Definition set_sga (req : PendingRequest) (s : sgarray) : PendingRequest :=
  {| isDone := isDone req; res := res req; header := header req;
     rbuf := rbuf req; num_bytes := num_bytes req; sga := s |}.

(** *** [ProcessIncoming], lines 290-306: the accept pipeline. *)
Definition incoming_accept (q : MTCPQueue) (req : PendingRequest) (t : transport)
  : flow (MTCPQueue * PendingRequest * transport) :=
  if listening q then
    match mtcp_accept t with
    | (WouldBlock, t') => Return (q, req, t')
    | (Failed, t') => Continue (q, set_done req (-1), t')
    | (Count (newfd, saddr), t') =>
        Continue (set_accepts q (accepts q ++ [(newfd, saddr)]),
                  set_done req newfd, t')
    end
  else Continue (q, req, t).

(** Lines 310-329: complete the 24-byte header. *)
Definition incoming_header (req : PendingRequest) (t : transport)
  : flow (PendingRequest * transport) :=
  if num_bytes req <? sizeof_header then
    match mtcp_read (Z.to_nat (wrap64 (sizeof_header - num_bytes req))) t with
    | (WouldBlock, t') => Return (req, t')
    | (Failed, t') => Return (set_done req (-1), t')
    | (Count d, t') =>
        let req' :=
          set_num_bytes
            (set_header req (memwrite (header req) (Z.to_nat (num_bytes req)) d))
            (wrap64 (num_bytes req + Z.of_nat (length d))) in
        if num_bytes req' <? sizeof_header then Return (req', t')
        else Continue (req', t')
    end
  else Continue (req, t).

(** Lines 331-365: check the sentinel, allocate the payload buffer ([malloc]
    is taken to succeed) and read into it. *)
Definition incoming_payload (req : PendingRequest) (t : transport)
  : flow (PendingRequest * transport) :=
  if negb (header_word req 0 =? MAGIC cfg) then Return (set_done req (-1), t)
  else
    let dataLen := header_word req 1 in
    let b := match rbuf req with
             | None => zeros (Z.to_nat dataLen)
             | Some b => b
             end in
    let req1 := set_rbuf req b in
    let offset := wrap64 (num_bytes req - sizeof_header) in
    if num_bytes req <? wrap64 (sizeof_header + dataLen) then
      match mtcp_read (Z.to_nat (wrap64 (dataLen - offset))) t with
      | (WouldBlock, t') => Return (req1, t')
      | (Failed, t') => Return (set_done req1 (-1), t')
      | (Count d, t') =>
          let req2 :=
            set_num_bytes (set_rbuf req1 (memwrite b (Z.to_nat offset) d))
                          (wrap64 (num_bytes req + Z.of_nat (length d))) in
          if num_bytes req2 <? wrap64 (sizeof_header + dataLen)
          then Return (req2, t')
          else Continue (req2, t')
      end
    else Continue (req1, t).

(** Lines 372-378: slice [n] segment records off [ptr], adding the lengths
    to [len].  Reading a length cell past the end of the buffer is
    undefined. *)
Fixpoint fill_sga (n : nat) (ptr : list byte) (len : Z) : option (list sgelem * Z) :=
  match n with
  | O => Some ([], len)
  | S n' =>
      if (length ptr <? 8)%nat then None
      else
        let l := le_combine (take 8 ptr) in
        let p1 := drop 8 ptr in
        match fill_sga n' (drop (Z.to_nat l) p1) (wrap64 (len + l)) with
        | Some (es, tot) => Some ({| buf := take (Z.to_nat l) p1; len := l |} :: es, tot)
        | None => None
        end
  end.

(** [req.sga.bufs[0].len]. *)
Definition first_len (s : sgarray) : Z :=
  match bufs s with
  | e :: _ => len e
  | [] => 0
  end.

(** Lines 367-386: fill the scatter/gather array and complete. *)
Definition incoming_fill (req : PendingRequest) : outcome PendingRequest :=
  let dataLen := header_word req 1 in
  let nb := to_int (header_word req 2) in
  if MAX_SGARRAY_SIZE cfg <? nb then Undefined
  else
    match fill_sga (Z.to_nat nb) (default [] (rbuf req)) 0 with
    | None => Undefined
    | Some (es, len) =>
        let s := {| num_bufs := nb;
                    bufs := es ++ drop (length es) (bufs (sga req)) |} in
        let req1 := set_sga req s in
        assert (first_len s =? wrap64 (dataLen - sizeof_len))
          (assert (nb =? 1)
            (assert (0 <? nb)
              (assert (len =? wrap64 (dataLen - wrap64 (nb * sizeof_len)))
                (Ok (set_done req1 (to_ssize len))))))
    end.

Definition ProcessIncoming (q : MTCPQueue) (req : PendingRequest) (t : transport)
  : outcome (MTCPQueue * PendingRequest * transport) :=
  match incoming_accept q req t with
  | Return s => Ok s
  | Continue (q1, req1, t1) =>
      match incoming_header req1 t1 with
      | Return (req2, t2) => Ok (q1, req2, t2)
      | Continue (req2, t2) =>
          match incoming_payload req2 t2 with
          | Return (req3, t3) => Ok (q1, req3, t3)
          | Continue (req3, t3) =>
              let! req4 := incoming_fill req3 in Ok (q1, req4, t3)
          end
      end
  end.

(** *** [ProcessOutgoing] *)

(** The I/O vector after the header: a length cell and the body of each
    segment. *)
Definition iov_of (es : list sgelem) : list byte :=
  flat_map (fun e => le_split 8 (len e) ++ take (Z.to_nat (len e)) (buf e)) es.

Definition dataSize_of (es : list sgelem) : Z :=
  fold_left (fun a e => wrap64 (a + len e)) es 0.

Definition totalLen_of (es : list sgelem) : Z :=
  fold_left (fun a e => wrap64 (wrap64 (a + len e) + sizeof_len)) es 0.

Definition ProcessOutgoing (req : PendingRequest) (t : transport)
  : outcome (PendingRequest * transport) :=
  let es := segments (sga req) in
  let dataSize := dataSize_of es in
  let totalLen := totalLen_of es in
  let hdr := le_split 8 (MAGIC cfg) ++ le_split 8 totalLen
             ++ le_split 8 (num_bufs (sga req)) in
  let req1 := set_header req hdr in
  let totalLen' := wrap64 (totalLen + sizeof_header) in
  match mtcp_writev (hdr ++ iov_of es) t with
  | (WouldBlock, t') => Ok (req1, t')
  | (Failed, t') => Ok (set_done req1 (-1), t')
  | (Count c, t') =>
      let req2 := set_num_bytes req1 (wrap64 (num_bytes req1 + Z.of_nat c)) in
      if num_bytes req2 <? totalLen'
      then assert (num_bytes req2 =? 0) (Ok (req2, t'))
      else Ok (set_done req2 (to_ssize dataSize), t')
  end.

(** The dispatch on the operation bit of the token, as [ProcessQ] and
    [Enqueue] write it. *)
Definition attempt (qt : Z) (q : MTCPQueue) (req : PendingRequest) (t : transport)
  : outcome (MTCPQueue * PendingRequest * transport) :=
  if IS_PUSH qt
  then let! (r, t') := ProcessOutgoing req t in Ok (q, r, t')
  else ProcessIncoming q req t.

(** *** [ProcessQ]: at most [maxRequests] progress steps. *)
Fixpoint ProcessQ (maxRequests : nat) (q : MTCPQueue) (t : transport)
  : outcome (MTCPQueue * transport) :=
  match maxRequests with
  | O => Ok (q, t)
  | S n =>
      match workQ q with
      | [] => Ok (q, t)
      | qt :: rest =>
          match pending q !! qt with
          | None => ProcessQ n (set_work q rest (pending q)) t
          | Some req =>
              let! (q1, req1, t1) := attempt qt q req t in
              let p1 := <[qt := req1]> (pending q1) in
              ProcessQ n
                (set_work q1 (if isDone req1 then rest else workQ q1) p1) t1
          end
      end
  end.

(** *** [Enqueue]: the immediate attempt, parking the request when it does
    not complete.  [std::map::insert] keeps an entry that is already
    there. *)
Definition Enqueue (q : MTCPQueue) (qt : Z) (s : sgarray) (t : transport)
  : outcome (Z * PendingRequest * MTCPQueue * transport) :=
  let req := new_request s in
  let! (q1, req1, t1) := attempt qt q req t in
  if isDone req1 then Ok (res req1, req1, q1, t1)
  else
    assert (bool_decide (pending q1 !! qt = None))
      (Ok (0, req1,
           set_work q1 (workQ q1 ++ [qt])
             (match pending q1 !! qt with
              | None => <[qt := req1]> (pending q1)
              | Some _ => pending q1
              end),
           t1)).

Definition push (q : MTCPQueue) (qt : Z) (s : sgarray) (t : transport)
  : outcome (Z * MTCPQueue * transport) :=
  let q0 := set_evts q (Z.lor MTCP_EPOLLOUT (mtcp_evts q)) in
  let! (ret, _, q1, t1) := Enqueue q0 qt s t in
  Ok (ret, q1, t1).

(** [pop]: the request holds a reference to the caller's array, so the
    caller sees what the decoder stored; the copy-back after a synchronous
    completion looks the token up in the pending map. *)
Definition pop (q : MTCPQueue) (qt : Z) (s : sgarray) (t : transport)
  : outcome (Z * sgarray * MTCPQueue * transport) :=
  let q0 := set_evts q (Z.lor MTCP_EPOLLIN (mtcp_evts q)) in
  let! (ret, req1, q1, t1) := Enqueue q0 qt s t in
  if ret =? 0 then Ok (ret, sga req1, q1, t1)
  else
    match pending q1 !! qt with
    | None => if NDEBUG cfg then Undefined else AssertFail
    | Some r =>
        Ok (ret,
            {| num_bufs := num_bufs (sga r);
               bufs := take (Z.to_nat (num_bufs (sga r))) (bufs (sga r))
                       ++ drop (Z.to_nat (num_bufs (sga r))) (bufs (sga req1)) |},
            q1, t1)
    end.

(** [peek]: a decode attempt on a request that lives for the call only. *)
Definition peek (q : MTCPQueue) (s : sgarray) (t : transport)
  : outcome (Z * sgarray * MTCPQueue * transport) :=
  let! (q1, req1, t1) := ProcessIncoming q (new_request s) t in
  Ok (if isDone req1 then res req1 else 0, sga req1, q1, t1).

(** A parked pop as the engine drives it: the request is attempted again,
    once per round, until it is done or [rounds] runs out. *)
Fixpoint retry_incoming (rounds : nat) (q : MTCPQueue) (req : PendingRequest)
  (t : transport) : outcome (MTCPQueue * PendingRequest * transport) :=
  if isDone req then Ok (q, req, t)
  else
    match rounds with
    | O => Ok (q, req, t)
    | S n =>
        let! (q1, req1, t1) := ProcessIncoming q req t in
        retry_incoming n q1 req1 t1
    end.

(** [wait]: the loop [while (!it->second.isDone) ProcessQ(1)], cut off
    after [fuel] rounds ([None]: still not done). *)
Fixpoint wait_loop (fuel : nat) (qt : Z) (q : MTCPQueue) (t : transport)
  : outcome (option (Z * MTCPQueue * transport)) :=
  match pending q !! qt with
  | None => Undefined
  | Some r =>
      if isDone r then Ok (Some (res r, q, t))
      else
        match fuel with
        | O => Ok None
        | S f => let! (q1, t1) := ProcessQ 1 q t in wait_loop f qt q1 t1
        end
  end.

Definition wait (fuel : nat) (q : MTCPQueue) (qt : Z) (t : transport)
  : outcome (option (Z * MTCPQueue * transport)) :=
  match pending q !! qt with
  | None => if NDEBUG cfg then Undefined else AssertFail
  | Some _ => wait_loop fuel qt q t
  end.

(** [poll]: the result and the request's array when done, 0 otherwise;
    [s] is the caller's array. *)
Definition poll (q : MTCPQueue) (qt : Z) (s : sgarray)
  : outcome (Z * sgarray * MTCPQueue) :=
  match pending q !! qt with
  | None => if NDEBUG cfg then Undefined else AssertFail
  | Some r => if isDone r then Ok (res r, sga r, q) else Ok (0, s, q)
  end.

End Engine.

(** *** Vocabulary of the statements *)

(** The payload byte count of an array: the sum of the lengths of its live
    segments. *)
Definition sum_len (es : list sgelem) : Z := foldr (λ e a, len e + a) 0 es.
Definition payload_bytes (s : sgarray) : Z := sum_len (segments s).

(** A request that is not done, or failed with -1. *)
Definition unfinished (r : PendingRequest) : Prop :=
  isDone r = false ∨ res r = -1.

(** An arrival that brings at least one byte. *)
Definition nonempty (c : list byte) : Prop := c ≠ [].

(** The pending pop of the caller's array [s0] after the first [k] bytes
    of the frame [hdr ++ body] have gone in. *)
Definition fed (s0 : sgarray) (hdr body : list byte) (k : nat) : PendingRequest :=
  {| isDone := false; res := 0;
     header := take k hdr ++ zeros (24 - k);
     rbuf := if (k <=? 24)%nat then None
             else Some (take (k - 24) body ++ zeros (length body - (k - 24)));
     num_bytes := Z.of_nat k;
     sga := s0 |}.

(** A segment whose length field is the length of its buffer, and an
    array whose live cells are in the array, each such a segment. *)
Definition sgelem_wf (e : sgelem) : Prop := len e = Z.of_nat (length (buf e)).

Definition sgarray_wf (s : sgarray) : Prop :=
  0 ≤ num_bufs s ≤ Z.of_nat (length (bufs s)) ∧ Forall sgelem_wf (segments s).

(** The frame [ProcessOutgoing] writes for [s]: the header and what
    follows it. *)
Definition frame_header (cfg : config) (s : sgarray) : list byte :=
  le_split 8 (MAGIC cfg) ++ le_split 8 (totalLen_of (segments s))
  ++ le_split 8 (num_bufs s).

Definition frame_body (s : sgarray) : list byte := iov_of (segments s).

(** The request a successful decode of the frame of [s] leaves, starting
    from the caller's array [s0]. *)
Definition decoded (cfg : config) (s s0 : sgarray) : PendingRequest :=
  {| isDone := true;
     res := to_ssize (sum_len (segments s));
     header := frame_header cfg s;
     rbuf := Some (frame_body s);
     num_bytes := Z.of_nat (24 + length (frame_body s));
     sga := {| num_bufs := num_bufs s;
               bufs := segments s ++ drop (length (segments s)) (bufs s0) |} |}.

(** *** [socket] *)

(** What the stack answers to [mtcp_init], [mtcp_epoll_create] and
    [mtcp_socket]. *)
Record mtcp_stack := mk_stack {
  init_ret : Z;
  epoll_ret : Z;
  socket_ret : Z
}.

(** The file-level state: [mtcp_env_initialized] and [mtcp_ep]. *)
Record mtcp_env := mk_env {
  mtcp_env_initialized : bool;
  mtcp_ep : Z
}.

Definition mtcp_env_init (cfg : config) (stk : mtcp_stack) (env : mtcp_env)
  : outcome (Z * mtcp_env) :=
  assert cfg (negb (mtcp_env_initialized env))
    (if epoll_ret stk <? 0
     then Ok (-1, {| mtcp_env_initialized := mtcp_env_initialized env;
                     mtcp_ep := epoll_ret stk |})
     else Ok (init_ret stk, {| mtcp_env_initialized := true;
                               mtcp_ep := epoll_ret stk |})).

Definition set_mtcp_qd (q : MTCPQueue) (fd : Z) : MTCPQueue :=
  {| qd := qd q; mtcp_qd := fd; listening := listening q;
     mtcp_evts := mtcp_evts q; accepts := accepts q; workQ := workQ q;
     pending := pending q |}.

Definition socket (cfg : config) (stk : mtcp_stack) (env : mtcp_env)
  (q : MTCPQueue) (domain type protocol : Z)
  : outcome (Z * mtcp_env * MTCPQueue) :=
  let! env1 :=
    (if mtcp_env_initialized env then Ok env
     else let! (_, e) := mtcp_env_init cfg stk env in Ok e) in
  let q1 := set_mtcp_qd q (socket_ret stk) in
  Ok (qd q1, env1, q1).

(** *** The rest of the control plane

    [listen], [connect] and [close] hand the call to the stack and turn
    its answer into the library's return convention; [res] (or [ret]) and
    [errno] are what the stack's call leaves. *)

Definition set_listening (q : MTCPQueue) (b : bool) : MTCPQueue :=
  {| qd := qd q; mtcp_qd := mtcp_qd q; listening := b;
     mtcp_evts := mtcp_evts q; accepts := accepts q; workQ := workQ q;
     pending := pending q |}.

Definition listen (q : MTCPQueue) (res errno : Z) : Z * MTCPQueue :=
  if res =? 0 then (res, set_listening q true) else (- errno, q).

Definition connect (q : MTCPQueue) (res errno : Z) : Z * MTCPQueue :=
  if res =? 0
  then (res, set_evts q (Z.lor (mtcp_evts q) MTCP_EPOLLOUT))
  else (- errno, q).

Definition close (q : MTCPQueue) (ret : Z) : Z * MTCPQueue :=
  (ret, set_evts q 0).

(** [accept]: one decode attempt on a request that lives for the call
    only, whose array is the uninitialised local [junk]; then the oldest
    entry of the backlog, if there is one.  The second component is what
    is stored through [saddr]. *)
Definition accept (cfg : config) (junk : sgarray) (q : MTCPQueue) (t : transport)
  : outcome (Z * option sockaddr_in * MTCPQueue * transport) :=
  assert cfg (listening q)
    (let! (q1, _, t1) := ProcessIncoming cfg q (new_request junk) t in
     match accepts q1 with
     | [] => Ok (0, None, q1, t1)
     | (newqd, addr) :: rest => Ok (newqd, Some addr, set_accepts q1 rest, t1)
     end).

(** *** The interface as a step relation *)

(** The socket after a write that took [out] and left [r] of its script. *)
Definition tx_next (t : transport) (r : list tx_event) (out : list byte) : transport :=
  {| rx := rx t; tx := r; acc := acc t; sent := sent t ++ out |}.

(** One call of the queue's interface that returns, as a step on the
    queue and its socket. *)
Inductive api_step (cfg : config)
  : MTCPQueue * transport → MTCPQueue * transport → Prop :=
| step_socket stk env q t domain type protocol ret env' q' :
    socket cfg stk env q domain type protocol = Ok (ret, env', q') →
    api_step cfg (q, t) (q', t)
| step_listen q t res errno :
    api_step cfg (q, t) ((listen q res errno).2, t)
| step_connect q t res errno :
    api_step cfg (q, t) ((connect q res errno).2, t)
| step_close q t ret :
    api_step cfg (q, t) ((close q ret).2, t)
| step_accept junk q t ret a q' t' :
    accept cfg junk q t = Ok (ret, a, q', t') →
    api_step cfg (q, t) (q', t')
| step_push q qt s t ret q' t' :
    push cfg q qt s t = Ok (ret, q', t') →
    api_step cfg (q, t) (q', t')
| step_pop q qt s t ret s' q' t' :
    pop cfg q qt s t = Ok (ret, s', q', t') →
    api_step cfg (q, t) (q', t')
| step_peek q s t ret s' q' t' :
    peek cfg q s t = Ok (ret, s', q', t') →
    api_step cfg (q, t) (q', t')
| step_wait fuel q qt t ret q' t' :
    wait cfg fuel q qt t = Ok (Some (ret, q', t')) →
    api_step cfg (q, t) (q', t')
| step_poll q qt s t ret s' q' :
    poll cfg q qt s = Ok (ret, s', q') →
    api_step cfg (q, t) (q', t)
| step_ProcessQ n q t q' t' :
    ProcessQ cfg n q t = Ok (q', t') →
    api_step cfg (q, t) (q', t').

(** Every token of the work queue has an entry in the pending map. *)
Definition work_tracked (q : MTCPQueue) : Prop :=
  Forall (λ qt, is_Some (pending q !! qt)) (workQ q).

(** The interest mask holds no bit besides [MTCP_EPOLLIN] and
    [MTCP_EPOLLOUT]. *)
Definition interest_ok (q : MTCPQueue) : Prop :=
  Z.lor (mtcp_evts q) (Z.lor MTCP_EPOLLIN MTCP_EPOLLOUT)
  = Z.lor MTCP_EPOLLIN MTCP_EPOLLOUT.

(** What no call changes, or changes one way only: the descriptor stays,
    a listening queue stays listening, no pending entry goes away, the
    interest mask stays within its two bits and the work queue stays
    within the pending map. *)
Definition kept (q q' : MTCPQueue) : Prop :=
  qd q' = qd q
  ∧ (listening q = true → listening q' = true)
  ∧ dom (pending q) ⊆ dom (pending q')
  ∧ (interest_ok q → interest_ok q')
  ∧ (work_tracked q → work_tracked q').

End MTCP.

(** ** The packet back end *)

Module LWIP.

(** *** Constants of the system and DPDK headers *)

Definition EPERM : Z := 1.
Definition EAGAIN : Z := 11.
Definition ENOMEM : Z := 12.
Definition EINVAL : Z := 22.
Definition ERANGE : Z := 34.
Definition ENOTSUP : Z := 95.
Definition INADDR_ANY : Z := 0.
Definition SOCK_DGRAM : Z := 2.
Definition IPPROTO_UDP : Z := 17.
Definition ETHER_TYPE_IPv4 : Z := 0x0800.
Definition ETHER_MAX_LEN : Z := 1518.
Definition IP_DEFTTL : Z := 64.
Definition IP_VERSION : Z := 0x40.
Definition IP_HDRLEN : Z := 0x05.
Definition IP_VHL_DEF : Z := Z.lor IP_VERSION IP_HDRLEN.
Definition sizeof_ether_hdr : Z := 14.
Definition sizeof_ipv4_hdr : Z := 20.
Definition sizeof_udp_hdr : Z := 8.
Definition sizeof_u32 : Z := 4.

(** *** Addresses *)

(** [struct ether_addr]: the six [addr_bytes]. *)
Definition ether_addr : Type := list Z.

Definition is_same_ether_addr (a b : ether_addr) : bool := bool_decide (a = b).

Record mac2ip := mk_mac2ip {
  mac : ether_addr;
  ip : Z
}.

Definition ip_config : list mac2ip :=
  [ {| mac := [0x00; 0x0d; 0x3a; 0x70; 0x25; 0x75];
       ip := Z.lor (Z.lor (Z.lor (Z.shiftl 10 24) (Z.shiftl 0 16)) (Z.shiftl 0 8)) 5 |};
    {| mac := [0x00; 0x0d; 0x3a; 0x5e; 0x4f; 0x6e];
       ip := Z.lor (Z.lor (Z.lor (Z.shiftl 10 24) (Z.shiftl 0 16)) (Z.shiftl 0 8)) 7 |} ].

Definition ether_broadcast : ether_addr := [0xff; 0xff; 0xff; 0xff; 0xff; 0xff].

Definition ether_zero : ether_addr := [0; 0; 0; 0; 0; 0].

Fixpoint ip_to_mac_in (tbl : list mac2ip) (a : Z) : ether_addr :=
  match tbl with
  | [] => ether_broadcast
  | e :: r => if a =? ip e then mac e else ip_to_mac_in r a
  end.

Definition ip_to_mac (a : Z) : ether_addr := ip_to_mac_in ip_config a.

Fixpoint mac_to_ip_in (tbl : list mac2ip) (m : ether_addr) : Z :=
  match tbl with
  | [] => 0
  | e :: r => if is_same_ether_addr m (mac e) then ip e else mac_to_ip_in r m
  end.

Definition mac_to_ip (m : ether_addr) : Z := mac_to_ip_in ip_config m.

(** *** Packets: the three headers as the structs overlaid on the buffer,
    fields as stored, and the bytes that follow them. *)

Record ether_hdr := mk_ether_hdr {
  d_addr : ether_addr;
  s_addr : ether_addr;
  ether_type : Z
}.

Record ipv4_hdr := mk_ipv4_hdr {
  version_ihl : Z;
  type_of_service : Z;
  total_length : Z;
  packet_id : Z;
  fragment_offset : Z;
  time_to_live : Z;
  next_proto_id : Z;
  hdr_checksum : Z;
  src_addr : Z;
  dst_addr : Z
}.

Record udp_hdr := mk_udp_hdr {
  src_port : Z;
  dst_port : Z;
  dgram_len : Z;
  dgram_cksum : Z
}.

Record rte_mbuf := mk_mbuf {
  eth : ether_hdr;
  iph : ipv4_hdr;
  udp : udp_hdr;
  payload : list byte;
  data_len : Z;
  pkt_len : Z;
  nb_segs : Z
}.

(** The IPv4 header as the [uint16_t] cells [ip_sum] walks over. *)
Definition ipv4_words (h : ipv4_hdr) : list Z :=
  [ Z.lor (version_ihl h) (Z.shiftl (type_of_service h) 8);
    total_length h; packet_id h; fragment_offset h;
    Z.lor (time_to_live h) (Z.shiftl (next_proto_id h) 8);
    hdr_checksum h;
    Z.land (src_addr h) 0xFFFF; Z.shiftr (src_addr h) 16;
    Z.land (dst_addr h) 0xFFFF; Z.shiftr (dst_addr h) 16 ].

Definition ip_sum_step (sum w : Z) : Z :=
  let s := wrap32 (sum + w) in
  if Z.land s 0x80000000 =? 0 then s
  else wrap32 (Z.land s 0xFFFF + Z.shiftr s 16).

(** The loop [while (sum >> 16) sum = (sum & 0xFFFF) + (sum >> 16)]. *)
Fixpoint ip_sum_fold (fuel : nat) (sum : Z) : Z :=
  match fuel with
  | O => sum
  | S f => if Z.shiftr sum 16 =? 0 then sum
           else ip_sum_fold f (wrap32 (Z.land sum 0xFFFF + Z.shiftr sum 16))
  end.

Definition ip_sum (hdr : list Z) : Z :=
  wrap16 (Z.lnot (ip_sum_fold 32 (fold_left ip_sum_step hdr 0))).

(** *** Scatter/gather arrays and tasks *)

(** Modelled from the spec: the segment and array types of the [dmtr]
    headers, which are not among the sources, with the fields the code
    uses. *)
Record sgaseg := mk_sgaseg {
  sgaseg_buf : list byte;
  sgaseg_len : Z
}.

(** [dmtr_sgarray_t]: [sga_addr] is the address slot ([None] for [NULL]). *)
Record dmtr_sgarray := mk_dmtr_sgarray {
  sga_numsegs : Z;
  sga_segs : list sgaseg;
  sga_addr : option sockaddr_in;
  sga_addrlen : Z
}.

Definition live_segs (s : dmtr_sgarray) : list sgaseg :=
  take (Z.to_nat (sga_numsegs s)) (sga_segs s).

(** Modelled from the spec: the task record of the queue base class, which
    is not among the sources: the operation, its array, and the result
    fields [done] and [error]. *)
Record task := mk_task {
  opcode : Z;
  sga : dmtr_sgarray;
  done : bool;
  error : Z
}.

(** *** Queue, process state and device *)

Record lwip_queue := mk_lwip_queue {
  my_bound_addr : option sockaddr_in;
  my_default_peer : option sockaddr_in
}.

Definition is_bound (q : lwip_queue) : bool :=
  match my_bound_addr q with Some _ => true | None => false end.

(** The static members of the class, and what the poll-mode driver
    answers: the NIC's MAC address, which port identifiers are valid,
    whether [rte_pktmbuf_alloc] finds a buffer and how many packets
    [rte_eth_tx_burst] takes.  [DMTR_SGARRAY_MAXSIZE], the capacity of the
    segment array, is a constant of the absent [dmtr] headers and is taken
    as a parameter here.  So is [dmtr_malloc], a function of the same
    absent headers (the spec's [malloc] for payload copies): the code uses
    its return value only, 0 when it found the memory, and [dmtr_malloc d
    i n] is what the call made for segment [i] of a receive returns when
    asked for [n] bytes. *)
Record dpdk := mk_dpdk {
  our_dpdk_init_flag : bool;
  our_dpdk_port_id : option Z;
  our_mbuf_pool : bool;
  nic_mac : ether_addr;
  valid_port : Z -> bool;
  alloc_ok : bool;
  tx_count : Z;
  DMTR_SGARRAY_MAXSIZE : Z;
  dmtr_malloc : nat -> Z -> Z
}.

(** Modelled from the spec: [dmtr_u32tou16] of [dmtr/cast.h], which is not
    among the sources; a frame is a single datagram, so a UDP length that
    does not fit the 16-bit field is refused with [ERANGE]. *)
Definition dmtr_u32tou16 (v : Z) : Z + Z :=
  if v <=? 0xFFFF then inr v else inl ERANGE.

(** *** [socket] and [bind]

    The macros of [dmtr/annot.h] are not among the sources; they are
    modelled from the spec's error handling: [DMTR_TRUE(e, c)],
    [DMTR_NOTNULL(e, p)], [DMTR_NULL(e, p)] and [DMTR_NONZERO(e, v)] return
    the errno-like [e] from the enclosing function when the condition
    fails, and [DMTR_OK(r)] returns [r] when it is not 0.  Each is written
    below as the test it stands for. *)

Definition socket (d : dpdk) (domain type protocol : Z) : Z :=
  if negb (our_dpdk_init_flag d) then EPERM
  else if negb (type =? SOCK_DGRAM) then ENOTSUP
  else 0.

Definition bind (d : dpdk) (q : lwip_queue) (saddr : option sockaddr_in) (size : Z)
  : Z * lwip_queue :=
  if negb (our_dpdk_init_flag d) then (EPERM, q)
  else if is_bound q then (EINVAL, q)
  else
    match saddr with
    | None => (EINVAL, q)
    | Some a =>
        if negb (sizeof_sockaddr_in =? size) then (EINVAL, q)
        else
          match our_dpdk_port_id d with
          | None => (EPERM, q)
          | Some port =>
              if sin_port a =? 0 then (EINVAL, q)
              else if INADDR_ANY =? sin_addr a then
                if negb (valid_port d port) then (ERANGE, q)
                else (0, {| my_bound_addr :=
                              Some {| sin_family := sin_family a;
                                      sin_port := sin_port a;
                                      sin_addr := mac_to_ip (nic_mac d) |};
                            my_default_peer := my_default_peer q |})
              else (0, {| my_bound_addr := Some a;
                          my_default_peer := my_default_peer q |})
          end
    end.

(** *** [complete_send] *)

(** Lines 508-525: the segment count, then a length cell and the body of
    each segment; the second component is [payload_len]. *)
Definition encode_sga (s : dmtr_sgarray) : list byte * Z :=
  fold_left
    (fun '(bs, n) g =>
       (bs ++ le_split 4 (sgaseg_len g)
           ++ take (Z.to_nat (sgaseg_len g)) (sgaseg_buf g),
        wrap32 (wrap32 (n + sizeof_u32) + sgaseg_len g)))
    (live_segs s) (le_split 4 (sga_numsegs s), sizeof_u32).

Definition set_done (t : task) : task :=
  {| opcode := opcode t; sga := sga t; done := true; error := 0 |}.

(** Lines 438-444: the destination, the default peer or else the address
    that comes with the array. *)
Definition send_peer (q : lwip_queue) (t : task) : option sockaddr_in :=
  match my_default_peer q with
  | None => sga_addr (sga t)
  | Some p => Some p
  end.

(** The result is the return value, the task, and the packet handed to
    the device when the burst took it. *)
Definition complete_send (d : dpdk) (q : lwip_queue) (t : task)
  : outcome (Z * task * option rte_mbuf) :=
  if negb (our_dpdk_init_flag d) then Ok (EPERM, t, None)
  else
    match our_dpdk_port_id d with
    | None => Ok (EPERM, t, None)
    | Some port =>
        if bool_decide (my_default_peer q = None)
           && negb (sizeof_sockaddr_in =? sga_addrlen (sga t))
        then Ok (EINVAL, t, None)
        else
          let saddr := send_peer q t in
          if negb (our_mbuf_pool d) then Ok (EINVAL, t, None)
          else if negb (alloc_ok d) then Ok (ENOMEM, t, None)
          else
            match saddr with
            | None => Undefined
            | Some sa =>
                let smac := if valid_port d port then nic_mac d else ether_zero in
                let eh := {| d_addr := ip_to_mac (htonl (sin_addr sa));
                             s_addr := smac;
                             ether_type := htons ETHER_TYPE_IPv4 |} in
                let ih0 :=
                  {| version_ihl := IP_VHL_DEF; type_of_service := 0;
                     total_length := htons (sizeof_udp_hdr + sizeof_ipv4_hdr);
                     packet_id := 0; fragment_offset := 0;
                     time_to_live := IP_DEFTTL; next_proto_id := IPPROTO_UDP;
                     hdr_checksum := 0;
                     src_addr := match my_bound_addr q with
                                 | Some b => htonl (sin_addr b)
                                 | None => htonl (mac_to_ip smac)
                                 end;
                     dst_addr := sin_addr sa |} in
                let ih :=
                  {| version_ihl := version_ihl ih0;
                     type_of_service := type_of_service ih0;
                     total_length := total_length ih0;
                     packet_id := packet_id ih0;
                     fragment_offset := fragment_offset ih0;
                     time_to_live := time_to_live ih0;
                     next_proto_id := next_proto_id ih0;
                     hdr_checksum := htons (ip_sum (ipv4_words ih0));
                     src_addr := src_addr ih0; dst_addr := dst_addr ih0 |} in
                let dport := htons (sin_port sa) in
                let sport := match my_bound_addr q with
                             | Some b => htons (sin_port b)
                             | None => dport
                             end in
                let '(body, payload_len) := encode_sga (sga t) in
                match dmtr_u32tou16 (wrap32 (sizeof_udp_hdr + payload_len)) with
                | inl e => Ok (e, t, None)
                | inr udp_len =>
                    let total_len :=
                      wrap32 (sizeof_ether_hdr + sizeof_ipv4_hdr
                              + sizeof_udp_hdr + payload_len) in
                    let pkt :=
                      {| eth := eh; iph := ih;
                         udp := {| src_port := sport; dst_port := dport;
                                   dgram_len := htons udp_len;
                                   dgram_cksum := 0 |};
                         payload := body;
                         data_len := wrap16 total_len;
                         pkt_len := total_len;
                         nb_segs := 1 |} in
                    if negb (valid_port d port) then Ok (ERANGE, t, None)
                    else if tx_count d =? 0 then Ok (EAGAIN, t, None)
                    else Ok (0, set_done t, Some pkt)
                end
            end
    end.

(** *** [complete_recv] *)

(** Lines 679-702, the loop over the segments.  [n] rounds are left, [i]
    is the index of the round, [p] the bytes of the packet from the cursor
    on and [cells] the cells of the task's array from [i] on.  A round
    reads a length cell, stores it in cell [i], asks [dmtr_malloc] for a
    buffer and copies the body into it.  The result is the value the loop
    returns with, 0 when it ran to its end, and the cells it wrote: after
    a failed [dmtr_malloc] the last of them has its new length and still
    its old buffer.  A cell beyond the array's capacity, and a length cell
    or a body that is not within the packet's bytes, leave the behaviour
    that is defined. *)
Fixpoint decode_segs (d : dpdk) (n i : nat) (p : list byte) (cells : list sgaseg)
  : outcome (Z * list sgaseg) :=
  match n with
  | O => Ok (0, [])
  | S n' =>
      if DMTR_SGARRAY_MAXSIZE d <=? Z.of_nat i then Undefined
      else if (length p <? 4)%nat then Undefined
      else
        let seg_len := le_combine (take 4 p) in
        let p1 := drop 4 p in
        let e := dmtr_malloc d i seg_len in
        if negb (e =? 0) then
          Ok (e, [ {| sgaseg_buf := match cells with
                                    | g :: _ => sgaseg_buf g
                                    | [] => []
                                    end;
                      sgaseg_len := seg_len |} ])
        else if (length p1 <? Z.to_nat seg_len)%nat then Undefined
        else
          match decode_segs d n' (S i) (drop (Z.to_nat seg_len) p1) (tail cells) with
          | Ok (r, written) =>
              Ok (r, {| sgaseg_buf := take (Z.to_nat seg_len) p1;
                        sgaseg_len := seg_len |} :: written)
          | AssertFail => AssertFail
          | Undefined => Undefined
          end
  end.

Definition set_sga (t : task) (s : dmtr_sgarray) : task :=
  {| opcode := opcode t; sga := s; done := done t; error := error t |}.

(** The count is read off the first four bytes of the payload (line 675)
    and stored before the loop runs; an error return of the loop, like
    the two of the address slot, comes after the array was written. *)
Definition complete_recv (d : dpdk) (q : lwip_queue) (t : task) (pkt : option rte_mbuf)
  : outcome (Z * task) :=
  if negb (our_dpdk_init_flag d) then Ok (EPERM, t)
  else
    match pkt with
    | None => Ok (EINVAL, t)
    | Some pkt =>
        match our_dpdk_port_id d with
        | None => Ok (EPERM, t)
        | Some port =>
            let eth_type := ntohs (ether_type (eth pkt)) in
            if negb (valid_port d port) then Ok (ERANGE, t)
            else if negb (is_same_ether_addr (nic_mac d) (d_addr (eth pkt)))
            then Ok (0, t)
            else if negb (ETHER_TYPE_IPv4 =? eth_type) then Ok (0, t)
            else if match my_bound_addr q with
                    | Some b => negb (dst_addr (iph pkt) =? sin_addr b)
                    | None => false
                    end
            then Ok (0, t)
            else if negb (IPPROTO_UDP =? next_proto_id (iph pkt)) then Ok (0, t)
            else
              let udp_src_port := ntohs (src_port (udp pkt)) in
              let udp_dst_port := ntohs (dst_port (udp pkt)) in
              if match my_bound_addr q with
                 | Some b => negb (udp_dst_port =? sin_port b)
                 | None => false
                 end
              then Ok (0, t)
              else
                if (length (payload pkt) <? 4)%nat then Undefined
                else
                  let numsegs := le_combine (take 4 (payload pkt)) in
                  match decode_segs d (Z.to_nat numsegs) 0 (drop 4 (payload pkt))
                          (sga_segs (sga t)) with
                  | AssertFail => AssertFail
                  | Undefined => Undefined
                  | Ok (e, segs) =>
                      let s1 := {| sga_numsegs := numsegs;
                                   sga_segs := segs ++ drop (length segs) (sga_segs (sga t));
                                   sga_addr := sga_addr (sga t);
                                   sga_addrlen := sga_addrlen (sga t) |} in
                      if negb (e =? 0) then Ok (e, set_sga t s1)
                      else if sizeof_sockaddr_in =? sga_addrlen (sga t) then
                        match sga_addr (sga t) with
                        | None => Ok (EPERM, set_sga t s1)
                        | Some _ =>
                            let s2 := {| sga_numsegs := sga_numsegs s1;
                                         sga_segs := sga_segs s1;
                                         sga_addr :=
                                           Some {| sin_family := AF_INET;
                                                   sin_port := udp_src_port;
                                                   sin_addr := src_addr (iph pkt) |};
                                         sga_addrlen := sga_addrlen s1 |} in
                            Ok (0, set_done (set_sga t s2))
                        end
                      else
                        match sga_addr (sga t) with
                        | Some _ => Ok (ENOTSUP, set_sga t s1)
                        | None => Ok (0, set_done (set_sga t s1))
                        end
                  end
        end
    end.

(** *** [connect] and [close] *)

Definition connect (d : dpdk) (q : lwip_queue) (saddr : option sockaddr_in) (size : Z)
  : outcome (Z * lwip_queue) :=
  if negb (our_dpdk_init_flag d) then Ok (EPERM, q)
  else if negb (sizeof_sockaddr_in =? size) then Ok (EINVAL, q)
  else if is_bound q then Ok (EPERM, q)
  else
    match my_default_peer q with
    | Some _ => Ok (EPERM, q)
    | None =>
        match saddr with
        | None => Undefined
        | Some a => Ok (0, {| my_bound_addr := my_bound_addr q;
                              my_default_peer := Some a |})
        end
    end.

Definition close (d : dpdk) (q : lwip_queue) : Z * lwip_queue :=
  if negb (our_dpdk_init_flag d) then (EPERM, q)
  else (0, {| my_bound_addr := None; my_default_peer := None |}).

(** *** [service_recv_queue]

    [rq] is the member [my_recv_queue], oldest packet first, and [burst]
    the packets the device has for the next [rte_eth_rx_burst], which
    takes at most [our_max_queue_depth] of them.  The result is the
    return value, the packet stored through [pkt_out], and the queue. *)

Definition our_max_queue_depth : Z := 64.

Definition service_recv_queue (d : dpdk) (burst rq : list rte_mbuf)
  : Z * option rte_mbuf * list rte_mbuf :=
  if negb (our_dpdk_init_flag d) then (EPERM, None, rq)
  else
    match our_dpdk_port_id d with
    | None => (EPERM, None, rq)
    | Some port =>
        let refill : Z + list rte_mbuf :=
          match rq with
          | [] =>
              if negb (valid_port d port) then inl ERANGE
              else
                match take (Z.to_nat our_max_queue_depth) burst with
                | [] => inl EAGAIN
                | pkts => inr (rq ++ pkts)
                end
          | _ => inr rq
          end in
        match refill with
        | inl e => (e, None, rq)
        | inr (p :: rest) => (0, Some p, rest)
        | inr [] => (0, None, [])
        end
    end.

(** The packets a caller gets from [n] calls in a row, the device handing
    over [bursts] one burst per refill; the calls stop at the first one
    that does not return 0. *)
Fixpoint drain (d : dpdk) (n : nat) (bursts : list (list rte_mbuf))
  (rq : list rte_mbuf) : list rte_mbuf * list rte_mbuf :=
  match n with
  | O => ([], rq)
  | S n' =>
      let burst := match rq, bursts with
                   | [], b :: _ => b
                   | _, _ => []
                   end in
      let bursts' := match rq, bursts with
                     | [], _ :: bs => bs
                     | _, _ => bursts
                     end in
      match service_recv_queue d burst rq with
      | (0, Some p, rq') =>
          let '(ps, rq'') := drain d n' bursts' rq' in (p :: ps, rq'')
      | (_, _, rq') => ([], rq')
      end
  end.

(** *** Vocabulary of the statements *)

(** A datagram that the receive-side validation refuses, for a queue [q]
    on a device [d]. *)
Definition refused (d : dpdk) (q : lwip_queue) (pkt : rte_mbuf) : Prop :=
  d_addr (eth pkt) ≠ nic_mac d
  ∨ ntohs (ether_type (eth pkt)) ≠ ETHER_TYPE_IPv4
  ∨ (∃ b, my_bound_addr q = Some b ∧ dst_addr (iph pkt) ≠ sin_addr b)
  ∨ next_proto_id (iph pkt) ≠ IPPROTO_UDP
  ∨ (∃ b, my_bound_addr q = Some b ∧ ntohs (dst_port (udp pkt)) ≠ sin_port b).

(** A segment whose length field is the length of its buffer. *)
Definition seg_wf (g : sgaseg) : Prop :=
  sgaseg_len g = Z.of_nat (length (sgaseg_buf g)).

(** What a segment puts on the wire. *)
Definition seg_bytes (g : sgaseg) : list byte :=
  le_split 4 (sgaseg_len g) ++ take (Z.to_nat (sgaseg_len g)) (sgaseg_buf g).

(** The bytes of the segment records: a length cell and a body each. *)
Definition total_bytes (segs : list sgaseg) : Z :=
  foldr (λ g a, 4 + sgaseg_len g + a) 0 segs.

(** An array whose live cells are in the array, each with its length. *)
Definition sga_wf (s : dmtr_sgarray) : Prop :=
  0 ≤ sga_numsegs s ≤ Z.of_nat (length (sga_segs s))
  ∧ Forall seg_wf (live_segs s).

(** The length of the datagram that carries the array. *)
Definition frame_len (s : dmtr_sgarray) : Z :=
  sizeof_ether_hdr + sizeof_ipv4_hdr + sizeof_udp_hdr + sizeof_u32
  + total_bytes (live_segs s).

(** The address [complete_recv] stores for a sender with queue [q] on
    device [d] that sent to [dest]. *)
Definition peer_seen (d : dpdk) (q : lwip_queue) (dest : sockaddr_in) : sockaddr_in :=
  {| sin_family := AF_INET;
     sin_port := match my_bound_addr q with
                 | Some b => sin_port b
                 | None => sin_port dest
                 end;
     sin_addr := match my_bound_addr q with
                 | Some b => htonl (sin_addr b)
                 | None => htonl (mac_to_ip (nic_mac d))
                 end |}.

(** The payload holds the count of [segs], their records, and whatever
    follows them. *)
Definition carries (p : list byte) (segs : list sgaseg) : Prop :=
  Z.of_nat (length segs) < 2 ^ 32
  ∧ Forall seg_wf segs
  ∧ Forall (λ g, sgaseg_len g < 2 ^ 32) segs
  ∧ ∃ rest, p = le_split 4 (Z.of_nat (length segs))
                ++ flat_map seg_bytes segs ++ rest.

(** [dmtr_malloc] finds the memory for each of [segs]. *)
Definition heap_serves (d : dpdk) (segs : list sgaseg) : Prop :=
  ∀ i g, segs !! i = Some g → dmtr_malloc d i (sgaseg_len g) = 0.

(** A port is a 16-bit value. *)
Definition port_ok (a : sockaddr_in) : Prop := 0 ≤ sin_port a < 2 ^ 16.

(** The device is set up: [init_dpdk] has run and left a valid port. *)
Definition device_up (d : dpdk) : Prop :=
  our_dpdk_init_flag d = true
  ∧ ∃ port, our_dpdk_port_id d = Some port ∧ valid_port d port = true.

(** A [uint16_t] cell, and the sum of a run of cells as a number. *)
Definition word16 (w : Z) : Prop := 0 ≤ w < 2 ^ 16.

Definition wsum (ws : list Z) : Z := foldr Z.add 0 ws.

(** The running sum [s] of [ip_sum] against the true sum [T]: equal up to
    multiples of [0xFFFF], and 0 only when the true sum is. *)
Definition folded (s T : Z) : Prop :=
  0 ≤ s ∧ (∃ k, 0 ≤ k ∧ T = s + 65535 * k) ∧ (s = 0 → T = 0).

(** The header [h] with [c] in its checksum field. *)
Definition with_checksum (h : ipv4_hdr) (c : Z) : ipv4_hdr :=
  {| version_ihl := version_ihl h; type_of_service := type_of_service h;
     total_length := total_length h; packet_id := packet_id h;
     fragment_offset := fragment_offset h; time_to_live := time_to_live h;
     next_proto_id := next_proto_id h; hdr_checksum := c;
     src_addr := src_addr h; dst_addr := dst_addr h |}.

(** The IPv4 header [complete_send] builds (lines 470-488), before the
    checksum goes in. *)
Definition blank_header (src dst : Z) : ipv4_hdr :=
  {| version_ihl := IP_VHL_DEF; type_of_service := 0;
     total_length := htons (sizeof_udp_hdr + sizeof_ipv4_hdr);
     packet_id := 0; fragment_offset := 0;
     time_to_live := IP_DEFTTL; next_proto_id := IPPROTO_UDP;
     hdr_checksum := 0; src_addr := src; dst_addr := dst |}.

End LWIP.

(** ** The end-to-end scenarios, as concrete values *)

Module Scenario.

Definition hello : list byte := [Byte.x68; Byte.x65; Byte.x6c; Byte.x6c; Byte.x6f].
Definition world : list byte := [Byte.x77; Byte.x6f; Byte.x72; Byte.x6c; Byte.x64].
Definition ping : list byte := [Byte.x70; Byte.x69; Byte.x6e; Byte.x67].

(** Stream back end: a build with assertions and one without. *)
Definition debug_build : MTCP.config :=
  {| MTCP.NDEBUG := false; MTCP.MAGIC := 0x10102010; MTCP.MAX_SGARRAY_SIZE := 10 |}.
Definition release_build : MTCP.config :=
  {| MTCP.NDEBUG := true; MTCP.MAGIC := 0x10102010; MTCP.MAX_SGARRAY_SIZE := 10 |}.

Definition hello_world : MTCP.sgarray :=
  {| MTCP.num_bufs := 2;
     MTCP.bufs := [ {| MTCP.buf := hello; MTCP.len := 5 |};
                    {| MTCP.buf := world; MTCP.len := 5 |} ] |}.

Definition hello_world_joined : MTCP.sgarray :=
  {| MTCP.num_bufs := 1;
     MTCP.bufs := [ {| MTCP.buf := hello ++ world; MTCP.len := 10 |} ] |}.

Definition just_hello : MTCP.sgarray :=
  {| MTCP.num_bufs := 1;
     MTCP.bufs := [ {| MTCP.buf := hello; MTCP.len := 5 |} ] |}.

Definition empty_sga : MTCP.sgarray := {| MTCP.num_bufs := 0; MTCP.bufs := [] |}.

(** A connected queue with nothing parked. *)
Definition conn : MTCP.MTCPQueue :=
  {| MTCP.qd := 3; MTCP.mtcp_qd := 7; MTCP.listening := false;
     MTCP.mtcp_evts := 0; MTCP.accepts := []; MTCP.workQ := [];
     MTCP.pending := ∅ |}.

(** A socket on which [arrivals] come in and which takes any write. *)
Definition link (arrivals : list (list byte)) : MTCP.transport :=
  {| MTCP.rx := map MTCP.RxData arrivals; MTCP.tx := [MTCP.TxRoom 4096];
     MTCP.acc := []; MTCP.sent := [] |}.

(** The frame [ProcessOutgoing] puts on the wire for [s]. *)
Definition frame_of (cfg : MTCP.config) (s : MTCP.sgarray) : list byte :=
  match MTCP.ProcessOutgoing cfg (MTCP.new_request s) (link []) with
  | Ok (_, t) => MTCP.sent t
  | _ => []
  end.

(** S3: a stream that begins with [0xDEADBEEF] where the sentinel should
    be, followed by more bytes. *)
Definition deadbeef_header : list byte :=
  le_split 8 0xDEADBEEF ++ le_split 8 13 ++ le_split 8 1.
Definition deadbeef_stream : list byte :=
  deadbeef_header ++ le_split 8 5 ++ hello.

(** A queue with one pop parked under token 2, nothing received yet. *)
Definition parked_pop : MTCP.MTCPQueue :=
  {| MTCP.qd := 3; MTCP.mtcp_qd := 7; MTCP.listening := false;
     MTCP.mtcp_evts := MTCP.MTCP_EPOLLIN; MTCP.accepts := [];
     MTCP.workQ := [2];
     MTCP.pending := {[ 2 := MTCP.new_request empty_sga ]} |}.

(** The parked pop after one progress step that finds the whole frame of
    [just_hello]. *)
Definition served_pop : MTCP.MTCPQueue * MTCP.transport :=
  match MTCP.ProcessQ debug_build 1 parked_pop
          (link [frame_of debug_build just_hello]) with
  | Ok s => s
  | _ => (parked_pop, link [])
  end.

(** One byte per arrival. *)
Definition bytewise (l : list byte) : list (list byte) := map (λ b, [b]) l.

(** Packet back end: the two hosts of [ip_config], 10.0.0.5 (the server)
    and 10.0.0.7 (the client); addresses in a [sockaddr_in] are in network
    byte order. *)
Definition nic (m : LWIP.ether_addr) : LWIP.dpdk :=
  {| LWIP.our_dpdk_init_flag := true; LWIP.our_dpdk_port_id := Some 0;
     LWIP.our_mbuf_pool := true; LWIP.nic_mac := m;
     LWIP.valid_port := λ p, p =? 0; LWIP.alloc_ok := true;
     LWIP.tx_count := 1; LWIP.DMTR_SGARRAY_MAXSIZE := 10;
     LWIP.dmtr_malloc := λ _ _, 0 |}.

Definition server_nic : LWIP.dpdk := nic [0x00; 0x0d; 0x3a; 0x70; 0x25; 0x75].
Definition client_nic : LWIP.dpdk := nic [0x00; 0x0d; 0x3a; 0x5e; 0x4f; 0x6e].

Definition server_addr : sockaddr_in :=
  {| sin_family := AF_INET; sin_port := 9000; sin_addr := 0x0500000A |}.
Definition client_addr : sockaddr_in :=
  {| sin_family := AF_INET; sin_port := 8000; sin_addr := 0x0700000A |}.

Definition server_q : LWIP.lwip_queue :=
  {| LWIP.my_bound_addr := Some server_addr; LWIP.my_default_peer := None |}.
Definition client_bound_q : LWIP.lwip_queue :=
  {| LWIP.my_bound_addr := Some client_addr; LWIP.my_default_peer := None |}.
Definition client_unbound_q : LWIP.lwip_queue :=
  {| LWIP.my_bound_addr := None; LWIP.my_default_peer := None |}.

(** The push of ["ping"] to [dest], and a pop with an address slot. *)
Definition ping_to (dest : sockaddr_in) : LWIP.task :=
  {| LWIP.opcode := 0;
     LWIP.sga := {| LWIP.sga_numsegs := 1;
                    LWIP.sga_segs := [ {| LWIP.sgaseg_buf := ping; LWIP.sgaseg_len := 4 |} ];
                    LWIP.sga_addr := Some dest;
                    LWIP.sga_addrlen := sizeof_sockaddr_in |};
     LWIP.done := false; LWIP.error := 0 |}.

Definition pop_task : LWIP.task :=
  {| LWIP.opcode := 1;
     LWIP.sga := {| LWIP.sga_numsegs := 0; LWIP.sga_segs := [];
                    LWIP.sga_addr := Some {| sin_family := 0; sin_port := 0; sin_addr := 0 |};
                    LWIP.sga_addrlen := sizeof_sockaddr_in |};
     LWIP.done := false; LWIP.error := 0 |}.

(** The datagram a send leaves on the wire, if any. *)
Definition datagram (d : LWIP.dpdk) (q : LWIP.lwip_queue) (t : LWIP.task)
  : option LWIP.rte_mbuf :=
  match LWIP.complete_send d q t with
  | Ok (_, _, p) => p
  | _ => None
  end.

(** A socket that has nothing for the first read and then delivers
    [arrivals]. *)
Definition late_link (arrivals : list (list byte)) : MTCP.transport :=
  {| MTCP.rx := MTCP.RxAgain :: map MTCP.RxData arrivals;
     MTCP.tx := [MTCP.TxRoom 4096]; MTCP.acc := []; MTCP.sent := [] |}.

(** A socket whose writes find [script]. *)
Definition tx_link (script : list MTCP.tx_event) : MTCP.transport :=
  {| MTCP.rx := []; MTCP.tx := script; MTCP.acc := []; MTCP.sent := [] |}.

(** A listening queue with one connection in its backlog, and its socket
    with one more waiting. *)
Definition listener : MTCP.MTCPQueue :=
  {| MTCP.qd := 4; MTCP.mtcp_qd := 8; MTCP.listening := true;
     MTCP.mtcp_evts := 0; MTCP.accepts := [(11, client_addr)];
     MTCP.workQ := []; MTCP.pending := ∅ |}.

Definition knock : MTCP.transport :=
  {| MTCP.rx := []; MTCP.tx := [];
     MTCP.acc := [MTCP.AccConn 12 server_addr]; MTCP.sent := [] |}.

(** A stack that starts, and the state of the file before the first
    [socket]. *)
Definition stack_ok : MTCP.mtcp_stack :=
  {| MTCP.init_ret := 0; MTCP.epoll_ret := 5; MTCP.socket_ret := 7 |}.

Definition cold : MTCP.mtcp_env :=
  {| MTCP.mtcp_env_initialized := false; MTCP.mtcp_ep := 0 |}.

(** A pop that asks for the peer's address and gives no place for it. *)
Definition pop_task_no_slot : LWIP.task :=
  {| LWIP.opcode := 1;
     LWIP.sga := {| LWIP.sga_numsegs := 0; LWIP.sga_segs := [];
                    LWIP.sga_addr := None;
                    LWIP.sga_addrlen := sizeof_sockaddr_in |};
     LWIP.done := false; LWIP.error := 0 |}.

(** A queue with a pop parked under token 2 and, behind it, a push parked
    under token 1. *)
Definition pop_then_push : MTCP.MTCPQueue :=
  {| MTCP.qd := 3; MTCP.mtcp_qd := 7; MTCP.listening := false;
     MTCP.mtcp_evts := Z.lor MTCP.MTCP_EPOLLIN MTCP.MTCP_EPOLLOUT;
     MTCP.accepts := []; MTCP.workQ := [2; 1];
     MTCP.pending := {[ 2 := MTCP.new_request empty_sga;
                        1 := MTCP.new_request just_hello ]} |}.

(** The server on a host where [dmtr_malloc] finds no memory. *)
Definition starved_nic : LWIP.dpdk :=
  {| LWIP.our_dpdk_init_flag := true; LWIP.our_dpdk_port_id := Some 0;
     LWIP.our_mbuf_pool := true; LWIP.nic_mac := LWIP.nic_mac server_nic;
     LWIP.valid_port := λ p, p =? 0; LWIP.alloc_ok := true;
     LWIP.tx_count := 1; LWIP.DMTR_SGARRAY_MAXSIZE := 10;
     LWIP.dmtr_malloc := λ _ _, LWIP.ENOMEM |}.

(** The client's ping to the server, as it is on the wire. *)
Definition ping_pkt : option LWIP.rte_mbuf :=
  datagram client_nic client_bound_q (ping_to server_addr).

End Scenario.

(** * Properties of the stream back end *)

Module StreamProps.
Import MTCP.

(** C9. [socket] returns the queue's own descriptor whatever the stack
    answered: the value of [mtcp_socket], an error included, goes to
    [mtcp_qd] and is not returned. *)
Theorem socket_returns_qd (cfg : config) (stk : mtcp_stack) (env : mtcp_env)
    (q : MTCPQueue) (domain type protocol : Z) :
  ∃ env' q',
    socket cfg stk env q domain type protocol = Ok (qd q, env', q')
    ∧ qd q' = qd q
    ∧ mtcp_qd q' = socket_ret stk.
Proof.
  unfold socket, mtcp_env_init, assert.
  destruct (mtcp_env_initialized env) eqn:Hi; cbn.
  - eauto.
  - rewrite orb_true_r. destruct (epoll_ret stk <? 0); cbn; eauto.
Qed.

(** *** Frame conditions of the two codec paths *)

Lemma ProcessIncoming_queue (cfg : config) q req t q' req' t' :
  ProcessIncoming cfg q req t = Ok (q', req', t') →
  workQ q' = workQ q ∧ pending q' = pending q ∧ qd q' = qd q
  ∧ listening q' = listening q ∧ mtcp_evts q' = mtcp_evts q
  ∧ (listening q = false → q' = q).
Proof.
  unfold ProcessIncoming, incoming_accept.
  destruct (listening q) eqn:Hl.
  - destruct (mtcp_accept t) as [[[fd a] | |] t0].
    + destruct (incoming_header _ _) as [[r1 t1] | [r1 t1]].
      * intros [= <- <- <-]. cbn. rewrite Hl. repeat split; done.
      * destruct (incoming_payload _ _ _) as [[r2 t2] | [r2 t2]].
        -- intros [= <- <- <-]. cbn. rewrite Hl. repeat split; done.
        -- destruct (incoming_fill _ _); cbn; [| done | done].
           intros [= <- <- <-]. cbn. rewrite Hl. repeat split; done.
    + intros [= <- <- <-]. repeat split; done.
    + destruct (incoming_header _ _) as [[r1 t1] | [r1 t1]].
      * intros [= <- <- <-]. repeat split; done.
      * destruct (incoming_payload _ _ _) as [[r2 t2] | [r2 t2]].
        -- intros [= <- <- <-]. repeat split; done.
        -- destruct (incoming_fill _ _); cbn; [| done | done].
           intros [= <- <- <-]. repeat split; done.
  - destruct (incoming_header _ _) as [[r1 t1] | [r1 t1]].
    + intros [= <- <- <-]. repeat split; done.
    + destruct (incoming_payload _ _ _) as [[r2 t2] | [r2 t2]].
      * intros [= <- <- <-]. repeat split; done.
      * destruct (incoming_fill _ _); cbn; [| done | done].
        intros [= <- <- <-]. repeat split; done.
Qed.

Lemma attempt_queue (cfg : config) qt q req t q' req' t' :
  attempt cfg qt q req t = Ok (q', req', t') →
  workQ q' = workQ q ∧ pending q' = pending q.
Proof.
  unfold attempt. destruct (IS_PUSH qt).
  - destruct (ProcessOutgoing cfg req t) as [[r t0] | |]; cbn; [| done | done].
    intros [= <- <- <-]. done.
  - intros H. apply ProcessIncoming_queue in H. tauto.
Qed.

(** C6. One progress step, [ProcessQ(1)], on a work queue with head [qt]:
    a token with no pending request is discarded without any attempt;
    otherwise the request is attempted on the push path when the
    operation bit of [qt] is set and on the pop path when it is not, the
    pending map then holds the attempted request, and the token leaves
    the work queue exactly when the request is done. *)
Theorem ProcessQ_step (cfg : config) (q : MTCPQueue) (t : transport)
    (qt : Z) (rest : list Z) :
  workQ q = qt :: rest →
  match pending q !! qt with
  | None => ProcessQ cfg 1 q t = Ok (set_work q rest (pending q), t)
  | Some req =>
      match (if IS_PUSH qt
             then let! (r, t') := ProcessOutgoing cfg req t in Ok (q, r, t')
             else ProcessIncoming cfg q req t) with
      | Ok (q1, req1, t1) =>
          ∃ q', ProcessQ cfg 1 q t = Ok (q', t1)
                ∧ pending q' = <[qt := req1]> (pending q)
                ∧ (workQ q' = rest ↔ isDone req1 = true)
                ∧ (isDone req1 = false → workQ q' = qt :: rest)
      | AssertFail => ProcessQ cfg 1 q t = AssertFail
      | Undefined => ProcessQ cfg 1 q t = Undefined
      end
  end.
Proof.
  intros Hw. cbn [ProcessQ]. rewrite Hw.
  destruct (pending q !! qt) as [req |] eqn:Hp; [| reflexivity].
  change (if IS_PUSH qt then _ else _) with (attempt cfg qt q req t).
  destruct (attempt cfg qt q req t) as [[[q1 req1] t1] | |] eqn:Ha;
    cbn; [| reflexivity | reflexivity].
  destruct (attempt_queue _ _ _ _ _ _ _ _ Ha) as [Hw1 Hp1].
  eexists. split; [reflexivity |]. cbn. rewrite Hp1, Hw1, Hw.
  split; [reflexivity |].
  destruct (isDone req1); split; try done.
  split; [| done]. intros Heq.
  apply (f_equal length) in Heq. cbn in Heq. lia.
Qed.

(** The parked pop of token 2 is attempted on the pop path; the whole
    frame is there, so the token leaves the work queue. *)
Lemma ProcessQ_step_witness :
  ∃ q' t',
    ProcessQ Scenario.debug_build 1 Scenario.parked_pop
      (Scenario.link [Scenario.frame_of Scenario.debug_build Scenario.just_hello])
    = Ok (q', t')
    ∧ workQ q' = [].
Proof.
  pose proof (ProcessQ_step Scenario.debug_build Scenario.parked_pop
                (Scenario.link [Scenario.frame_of Scenario.debug_build Scenario.just_hello])
                2 [] eq_refl) as H.
  vm_compute in H. destruct H as (q' & Hq & _ & Hw & _).
  exists q'. eexists. split; [exact Hq |]. apply Hw. reflexivity.
Defined.

(** *** What a read takes off the stream *)

Lemma mtcp_read_count (n : nat) (t t' : transport) (d : list byte) :
  mtcp_read n t = (Count d, t') →
  rx_bytes (rx t) = d ++ rx_bytes (rx t')
  ∧ (length d ≤ n)%nat
  ∧ tx t' = tx t ∧ acc t' = acc t ∧ sent t' = sent t.
Proof.
  unfold mtcp_read. destruct (rx t) as [| [c | |] r] eqn:Hrx; try done.
  intros [= <- <-]. cbn [rx set_rx tx acc sent].
  split; [| split; [rewrite length_take; lia | done]].
  cbn [rx_bytes]. rewrite <- (take_drop n c) at 1.
  destruct (drop n c) eqn:Hd; cbn [rx_bytes]; by rewrite <- app_assoc.
Qed.

Lemma incoming_header_continue (req req1 : PendingRequest) (t t1 : transport) :
  0 ≤ num_bytes req →
  incoming_header req t = Continue (req1, t1) →
  rbuf req1 = rbuf req ∧ isDone req1 = isDone req ∧ sga req1 = sga req
  ∧ num_bytes req1 = Z.max sizeof_header (num_bytes req)
  ∧ ∃ d, rx_bytes (rx t) = d ++ rx_bytes (rx t1)
         ∧ Z.of_nat (length d) = num_bytes req1 - num_bytes req.
Proof.
  intros Hn. unfold incoming_header, sizeof_header.
  destruct (num_bytes req <? 24) eqn:Hlt.
  - apply Z.ltb_lt in Hlt.
    destruct (mtcp_read _ t) as [[d | |] t0] eqn:Hrd; try done.
    apply mtcp_read_count in Hrd as (Hb & Hlen & _).
    cbn [num_bytes set_num_bytes].
    assert (Hw : wrap64 (24 - num_bytes req) = 24 - num_bytes req)
      by (unfold wrap64; apply Z.mod_small; lia).
    rewrite Hw in Hlen.
    assert (Hw2 : wrap64 (num_bytes req + Z.of_nat (length d))
                  = num_bytes req + Z.of_nat (length d))
      by (unfold wrap64; apply Z.mod_small; lia).
    rewrite Hw2.
    destruct (_ <? 24) eqn:Hlt2; [done |]. apply Z.ltb_ge in Hlt2.
    intros [= <- <-]. cbn.
    repeat split; try done; [lia |].
    exists d. split; [done | lia].
  - apply Z.ltb_ge in Hlt. intros [= <- <-].
    repeat split; try done; [lia |].
    exists []. split; [done | cbn; lia].
Qed.

Lemma retry_incoming_done (cfg : config) (n : nat) q req t :
  isDone req = true → retry_incoming cfg n q req t = Ok (q, req, t).
Proof. intros H. destruct n; cbn; by rewrite H. Qed.

(** C3. Magic gating: when the accept stage falls through and the header
    stage leaves the 24 header bytes in place ([Continue]), a first word
    other than [MAGIC] makes [ProcessIncoming] return the request done
    with result -1 and the socket as the header read left it.  No payload
    buffer is allocated, the bytes taken off the stream are the missing
    header bytes and nothing else, and the request is not attempted
    again. *)
Theorem magic_gating (cfg : config) (q q1 : MTCPQueue)
    (req req0 req1 : PendingRequest) (t t0 t1 : transport) :
  0 ≤ num_bytes req →
  incoming_accept q req t = Continue (q1, req0, t0) →
  incoming_header req0 t0 = Continue (req1, t1) →
  header_word req1 0 ≠ MAGIC cfg →
  ProcessIncoming cfg q req t = Ok (q1, set_done req1 (-1), t1)
  ∧ rbuf (set_done req1 (-1)) = rbuf req
  ∧ num_bytes req1 = Z.max sizeof_header (num_bytes req)
  ∧ (∃ d, rx_bytes (rx t0) = d ++ rx_bytes (rx t1)
          ∧ Z.of_nat (length d) = Z.max sizeof_header (num_bytes req) - num_bytes req)
  ∧ ∀ n, retry_incoming cfg n q1 (set_done req1 (-1)) t1
         = Ok (q1, set_done req1 (-1), t1).
Proof.
  intros Hn Hacc Hhdr Hmagic.
  assert (Hreq0 : num_bytes req0 = num_bytes req ∧ rbuf req0 = rbuf req).
  { revert Hacc. unfold incoming_accept.
    destruct (listening q); [| by intros [= <- <- <-]].
    destruct (mtcp_accept t) as [[[fd a] | |] t']; try done;
      by intros [= <- <- <-]. }
  destruct Hreq0 as [Hnb0 Hrb0].
  apply incoming_header_continue in Hhdr as Hfacts; [| lia].
  destruct Hfacts as (Hrb & _ & _ & Hnb & d & Hd & Hlen).
  split; [| split; [| split; [| split]]].
  - unfold ProcessIncoming. rewrite Hacc, Hhdr. unfold incoming_payload.
    apply Z.eqb_neq in Hmagic. by rewrite Hmagic.
  - cbn. congruence.
  - congruence.
  - exists d. split; [done | ]. rewrite Hlen, Hnb, Hnb0. done.
  - intros n. by apply retry_incoming_done.
Qed.

(** S3: the request that finds [0xDEADBEEF] fails with -1 and leaves the 13
    bytes after the header on the stream. *)
Lemma magic_gating_witness :
  ∃ r t',
    ProcessIncoming Scenario.debug_build Scenario.conn
      (new_request Scenario.empty_sga) (Scenario.link [Scenario.deadbeef_stream])
    = Ok (Scenario.conn, r, t')
    ∧ isDone r = true ∧ res r = -1 ∧ rbuf r = None
    ∧ rx_bytes (rx t') = le_split 8 5 ++ Scenario.hello.
Proof.
  edestruct (magic_gating Scenario.debug_build Scenario.conn Scenario.conn
               (new_request Scenario.empty_sga) (new_request Scenario.empty_sga))
    with (t := Scenario.link [Scenario.deadbeef_stream])
         (t0 := Scenario.link [Scenario.deadbeef_stream])
    as (H & Hb & _).
  - cbn. lia.
  - reflexivity.
  - reflexivity.
  - vm_compute. discriminate.
  - eexists. eexists. split; [exact H |].
    repeat split; vm_compute; reflexivity.
Defined.

(** *** The done flag and the pending map under progress *)

Lemma assert_ok (cfg : config) {A} (c : bool) (k : outcome A) (a : A) :
  assert cfg c k = Ok a → k = Ok a.
Proof. unfold assert. destruct (NDEBUG cfg || c); done. Qed.

Lemma ProcessOutgoing_done_mono (cfg : config) req t req' t' :
  ProcessOutgoing cfg req t = Ok (req', t') →
  isDone req = true → isDone req' = true.
Proof.
  unfold ProcessOutgoing.
  destruct (mtcp_writev _ t) as [[c | |] t0].
  - destruct (_ <? _).
    + intros H%assert_ok. by injection H as <- <-.
    + by intros [= <- <-].
  - by intros [= <- <-].
  - by intros [= <- <-].
Qed.

Lemma incoming_fill_done (cfg : config) req req' :
  incoming_fill cfg req = Ok req' → isDone req' = true.
Proof.
  unfold incoming_fill. destruct (_ <? _); [done |].
  destruct (fill_sga _ _ _) as [[es l] |]; [| done].
  intros H. do 4 apply assert_ok in H. by injection H as <-.
Qed.

Lemma incoming_accept_done q req t :
  isDone req = true → isDone (flow_val (incoming_accept q req t)).1.2 = true.
Proof.
  intros Hd. unfold incoming_accept. destruct (listening q); [| done].
  destruct (mtcp_accept t) as [[[fd a] | |] t0]; done.
Qed.

Lemma incoming_header_done req t :
  isDone req = true → isDone (flow_val (incoming_header req t)).1 = true.
Proof.
  intros Hd. unfold incoming_header. destruct (_ <? _); [| done].
  destruct (mtcp_read _ t) as [[d | |] t0]; try done.
  cbn [num_bytes set_num_bytes]. by destruct (_ <? _).
Qed.

Lemma incoming_payload_done cfg req t :
  isDone req = true → isDone (flow_val (incoming_payload cfg req t)).1 = true.
Proof.
  intros Hd. unfold incoming_payload. destruct (negb _); [done |].
  destruct (_ <? _); [| done].
  destruct (mtcp_read _ t) as [[d | |] t0]; try done.
  cbn [num_bytes set_num_bytes]. by destruct (_ <? _).
Qed.

Lemma ProcessIncoming_done_mono (cfg : config) q req t q' req' t' :
  ProcessIncoming cfg q req t = Ok (q', req', t') →
  isDone req = true → isDone req' = true.
Proof.
  unfold ProcessIncoming. intros H Hd.
  pose proof (incoming_accept_done q req t Hd) as H1.
  destruct (incoming_accept q req t) as [[[q1 r1] t1] | [[q1 r1] t1]];
    cbn in H1; [by injection H as <- <- <- |].
  pose proof (incoming_header_done r1 t1 H1) as H2.
  destruct (incoming_header r1 t1) as [[r2 t2] | [r2 t2]];
    cbn in H2; [by injection H as <- <- <- |].
  pose proof (incoming_payload_done cfg r2 t2 H2) as H3.
  destruct (incoming_payload cfg r2 t2) as [[r3 t3] | [r3 t3]];
    cbn in H3; [by injection H as <- <- <- |].
  destruct (incoming_fill cfg r3) eqn:Hf; cbn in H; [| done | done].
  injection H as <- <- <-. by eapply incoming_fill_done.
Qed.

Lemma attempt_done_mono (cfg : config) qt q req t q' req' t' :
  attempt cfg qt q req t = Ok (q', req', t') →
  isDone req = true → isDone req' = true.
Proof.
  unfold attempt. destruct (IS_PUSH qt).
  - destruct (ProcessOutgoing cfg req t) as [[r t0] | |] eqn:Ho; cbn; [| done | done].
    intros [= <- <- <-]. by eapply ProcessOutgoing_done_mono.
  - apply ProcessIncoming_done_mono.
Qed.

Lemma ProcessQ_keeps (cfg : config) (n : nat) : ∀ q t q' t' qt r,
  ProcessQ cfg n q t = Ok (q', t') →
  pending q !! qt = Some r →
  ∃ r', pending q' !! qt = Some r' ∧ (isDone r = true → isDone r' = true).
Proof.
  induction n as [| n IH]; intros q t q' t' qt r; cbn [ProcessQ].
  - intros [= <- <-] Hp. eauto.
  - destruct (workQ q) as [| hd rest] eqn:Hw.
    + intros [= <- <-] Hp. eauto.
    + destruct (pending q !! hd) as [rq |] eqn:Hhd.
      * destruct (attempt cfg hd q rq t) as [[[q1 r1] t1] | |] eqn:Ha;
          cbn [obind]; [| done | done].
        intros HQ Hp.
        destruct (attempt_queue _ _ _ _ _ _ _ _ Ha) as [_ Hp1].
        destruct (decide (hd = qt)) as [-> | Hne].
        -- assert (rq = r) as -> by congruence.
           edestruct (IH _ _ _ _ qt r1 HQ) as (r' & Hr' & Hmono).
           { cbn. apply lookup_insert_eq. }
           exists r'. split; [done |]. intros Hd. apply Hmono.
           by eapply attempt_done_mono.
        -- eapply IH; [exact HQ |]. cbn. rewrite lookup_insert_ne by done.
           by rewrite Hp1.
      * intros HQ Hp. eapply IH; [exact HQ |]. done.
Qed.
Lemma wait_loop_done (cfg : config) (fuel : nat) : ∀ q qt t ret q' t',
  wait_loop cfg fuel qt q t = Ok (Some (ret, q', t')) →
  ∃ r', pending q' !! qt = Some r' ∧ isDone r' = true ∧ ret = res r'.
Proof.
  induction fuel as [| f IH]; intros q qt t ret q' t'; cbn [wait_loop];
    destruct (pending q !! qt) as [r |] eqn:Hp; try done;
    destruct (isDone r) eqn:Hd; try done.
  - intros [= <- <- <-]. eauto.
  - intros [= <- <- <-]. eauto.
  - destruct (ProcessQ cfg 1 q t) as [[q1 t1] | |]; cbn [obind]; [| done | done].
    apply IH.
Qed.

(** C4, as the code has it.  After any number of progress steps a pending
    request is still in the pending map and a done flag that was set is
    still set, so the flag goes from false to true at most once.  [poll]
    and [wait] hand out the result of a done request and leave the queue,
    its pending map included, as it is: the stream back end never erases a
    pending entry. *)
Theorem pending_lifecycle (cfg : config) (n : nat) (q q' : MTCPQueue)
    (t t' : transport) (qt : Z) (r : PendingRequest) :
  ProcessQ cfg n q t = Ok (q', t') →
  pending q !! qt = Some r →
  ∃ r', pending q' !! qt = Some r'
        ∧ (isDone r = true → isDone r' = true)
        ∧ (∀ s ret s' q2, poll cfg q' qt s = Ok (ret, s', q2) →
             q2 = q' ∧ ret = (if isDone r' then res r' else 0))
        ∧ (∀ fuel ret q2 t2, wait cfg fuel q' qt t' = Ok (Some (ret, q2, t2)) →
             ∃ r2, pending q2 !! qt = Some r2 ∧ isDone r2 = true ∧ ret = res r2)
        ∧ (isDone r' = true → ∀ fuel,
             wait cfg fuel q' qt t' = Ok (Some (res r', q', t'))).
Proof.
  intros HQ Hp.
  destruct (ProcessQ_keeps cfg n q t q' t' qt r HQ Hp) as (r' & Hr' & Hmono).
  exists r'. split; [exact Hr' |]. split; [exact Hmono |].
  split; [| split].
  - intros s ret s' q2. unfold poll. rewrite Hr'.
    destruct (isDone r'); by intros [= <- <- <-].
  - intros fuel ret q2 t2. unfold wait. rewrite Hr'. apply wait_loop_done.
  - intros Hd fuel. unfold wait. rewrite Hr'.
    destruct fuel; cbn [wait_loop]; by rewrite Hr', Hd.
Qed.

Lemma pending_lifecycle_witness :
  ∃ r', pending Scenario.served_pop.1 !! 2 = Some r'
        ∧ isDone r' = true
        ∧ ∀ fuel, wait Scenario.debug_build fuel Scenario.served_pop.1 2
                    Scenario.served_pop.2
                  = Ok (Some (res r', Scenario.served_pop.1, Scenario.served_pop.2)).
Proof.
  destruct (pending_lifecycle Scenario.debug_build 1 Scenario.parked_pop
              Scenario.served_pop.1
              (Scenario.link [Scenario.frame_of Scenario.debug_build Scenario.just_hello])
              Scenario.served_pop.2 2 (new_request Scenario.empty_sga))
    as (r' & Hr' & _ & _ & _ & Hw).
  - vm_compute. reflexivity.
  - vm_compute. reflexivity.
  - exists r'. assert (Hd : isDone r' = true).
    { vm_compute in Hr'. injection Hr' as <-. reflexivity. }
    split; [exact Hr' |]. split; [exact Hd |]. exact (Hw Hd).
Defined.

(** C4, as stated, fails.  The pop parked under token 2 completes in one
    progress step with result 5; [poll] and [wait] naming token 2 then
    return 5, and the pending map of the queue they leave still holds
    token 2. *)
Lemma pending_entry_outlives_poll_and_wait :
  ∃ r, pending Scenario.served_pop.1 !! 2 = Some r
       ∧ isDone r = true ∧ res r = 5
       ∧ (∃ s q2, poll Scenario.debug_build Scenario.served_pop.1 2 Scenario.empty_sga
                  = Ok (5, s, q2)
                  ∧ is_Some (pending q2 !! 2))
       ∧ (∃ q3 t3, wait Scenario.debug_build 0 Scenario.served_pop.1 2
                     Scenario.served_pop.2
                   = Ok (Some (5, q3, t3))
                   ∧ is_Some (pending q3 !! 2)).
Proof.
  eexists. split; [vm_compute; reflexivity |].
  split; [reflexivity |]. split; [reflexivity |]. split.
  - eexists. eexists. split; [vm_compute; reflexivity |].
    eexists. vm_compute. reflexivity.
  - eexists. eexists. split; [vm_compute; reflexivity |].
    eexists. vm_compute. reflexivity.
Qed.

(** What does hold of [peek]: it parks nothing, and on a connected queue
    whose socket has nothing to deliver it returns 0 and changes nothing. *)
Lemma peek_parks_nothing (cfg : config) q s t r s' q' t' :
  peek cfg q s t = Ok (r, s', q', t') →
  workQ q' = workQ q ∧ pending q' = pending q.
Proof.
  unfold peek.
  destruct (ProcessIncoming cfg q (new_request s) t) as [[[q1 r1] t1] | |] eqn:Hi;
    cbn [obind]; [| done | done].
  intros [= _ _ <- _]. apply ProcessIncoming_queue in Hi. tauto.
Qed.

Lemma peek_would_block (cfg : config) q s t :
  listening q = false → rx t = [] →
  peek cfg q s t = Ok (0, s, q, t).
Proof.
  intros Hl Hrx. unfold peek, ProcessIncoming, incoming_accept, incoming_header.
  rewrite Hl. cbn [num_bytes new_request]. unfold mtcp_read. by rewrite Hrx.
Qed.

(** C5 fails on the code.  Ten bytes of a frame are on the stream when
    [peek] is called: it returns 0 and parks nothing, but the ten bytes
    went into a request that lived for the call only and the stream no
    longer has them.  When the rest of the frame arrives, the next decode
    attempt reads a header that starts at byte 10 and fails on the
    sentinel. *)
Theorem peek_discards_partial_frame :
  let frame := Scenario.frame_of Scenario.debug_build Scenario.just_hello in
  ∃ t1,
    peek Scenario.debug_build Scenario.conn Scenario.empty_sga
      (Scenario.link [take 10 frame])
    = Ok (0, Scenario.empty_sga, Scenario.conn, t1)
    ∧ rx_bytes (rx (Scenario.link [take 10 frame])) = take 10 frame
    ∧ rx_bytes (rx t1) = []
    ∧ ∃ r t2,
        ProcessIncoming Scenario.debug_build Scenario.conn
          (new_request Scenario.empty_sga) (Scenario.link [drop 10 frame])
        = Ok (Scenario.conn, r, t2)
        ∧ isDone r = true ∧ res r = -1.
Proof.
  cbv zeta. eexists. split; [vm_compute; reflexivity |].
  split; [vm_compute; reflexivity |]. split; [reflexivity |].
  eexists. eexists. split; [vm_compute; reflexivity |]. split; reflexivity.
Qed.

(** *** The result of a completed request *)

Lemma wrap64_idem z : wrap64 (wrap64 z) = wrap64 z.
Proof. unfold wrap64. apply Z.mod_mod. lia. Qed.

Lemma wrap64_add_l a b : wrap64 (wrap64 a + b) = wrap64 (a + b).
Proof. unfold wrap64. apply Zplus_mod_idemp_l. Qed.

Lemma to_ssize_wrap a b : wrap64 a = wrap64 b → to_ssize a = to_ssize b.
Proof. unfold to_ssize. by intros ->. Qed.

Lemma to_ssize_small z : 0 ≤ z < 2 ^ 63 → to_ssize z = z.
Proof.
  intros H. unfold to_ssize, wrap64. rewrite Z.mod_small by lia.
  destruct (z <? 2 ^ 63) eqn:E; [done |]. apply Z.ltb_ge in E. lia.
Qed.

Lemma dataSize_of_sum (es : list sgelem) :
  wrap64 (dataSize_of es) = wrap64 (sum_len es).
Proof.
  unfold dataSize_of.
  enough (∀ a, wrap64 (fold_left (λ a e, wrap64 (a + len e)) es a)
               = wrap64 (a + sum_len es)) as H by (rewrite H; f_equal; lia).
  induction es as [| e es IH]; intros a; cbn [fold_left sum_len foldr].
  - f_equal. lia.
  - rewrite IH, wrap64_add_l. fold (sum_len es). f_equal. lia.
Qed.

Lemma fill_sga_sum (n : nat) : ∀ p a es tot,
  fill_sga n p a = Some (es, tot) →
  length es = n ∧ wrap64 tot = wrap64 (a + sum_len es).
Proof.
  induction n as [| n IH]; intros p a es tot; cbn [fill_sga].
  - intros [= <- <-]. split; [done |]. cbn [sum_len foldr]. f_equal. lia.
  - destruct (_ <? _)%nat; [done |].
    destruct (fill_sga n _ _) as [[es' tot'] |] eqn:Hf; [| done].
    intros [= <- <-]. apply IH in Hf as [Hl Hs]. split; [cbn; lia |].
    rewrite Hs, wrap64_add_l. cbn [sum_len foldr len]. fold (sum_len es').
    f_equal. lia.
Qed.

Lemma ProcessOutgoing_result (cfg : config) req t req' t' :
  ProcessOutgoing cfg req t = Ok (req', t') →
  isDone req = false → isDone req' = true → 0 ≤ res req' →
  res req' = to_ssize (payload_bytes (sga req)) ∧ sga req' = sga req.
Proof.
  unfold ProcessOutgoing.
  destruct (mtcp_writev _ t) as [[c | |] t0].
  - destruct (_ <? _).
    + intros H%assert_ok. injection H as <- <-. cbn. congruence.
    + intros [= <- <-] _ _ _. cbn. split; [| done].
      apply to_ssize_wrap, dataSize_of_sum.
  - intros [= <- <-]. cbn. congruence.
  - intros [= <- <-]. cbn. lia.
Qed.

Lemma incoming_fill_result (cfg : config) req req' :
  incoming_fill cfg req = Ok req' →
  res req' = to_ssize (payload_bytes (sga req')).
Proof.
  unfold incoming_fill. destruct (_ <? _); [done |].
  destruct (fill_sga _ _ _) as [[es l] |] eqn:Hf; [| done].
  intros H. do 4 apply assert_ok in H. injection H as <-. cbn.
  apply fill_sga_sum in Hf as [Hl Hs].
  unfold payload_bytes, segments. cbn [num_bufs bufs].
  rewrite <- Hl, take_app_length. apply to_ssize_wrap. rewrite Hs. f_equal; lia.
Qed.

Lemma incoming_header_unfinished req t :
  unfinished req → unfinished (flow_val (incoming_header req t)).1.
Proof.
  intros Hu. unfold incoming_header. destruct (_ <? _); [| done].
  destruct (mtcp_read _ t) as [[d | |] t0]; try done.
  - cbn [num_bytes set_num_bytes]. by destruct (_ <? _).
  - by right.
Qed.

Lemma incoming_payload_unfinished cfg req t :
  unfinished req → unfinished (flow_val (incoming_payload cfg req t)).1.
Proof.
  intros Hu. unfold incoming_payload. destruct (negb _); [by right |].
  destruct (_ <? _); [| done].
  destruct (mtcp_read _ t) as [[d | |] t0]; try done.
  - cbn [num_bytes set_num_bytes]. by destruct (_ <? _).
  - by right.
Qed.

Lemma ProcessIncoming_result (cfg : config) q req t q' req' t' :
  ProcessIncoming cfg q req t = Ok (q', req', t') →
  listening q = false →
  isDone req = false → isDone req' = true → 0 ≤ res req' →
  res req' = to_ssize (payload_bytes (sga req')).
Proof.
  unfold ProcessIncoming, incoming_accept. intros H Hl Hd. rewrite Hl in H.
  assert (Hu : unfinished req) by by left.
  pose proof (incoming_header_unfinished req t Hu) as H1.
  destruct (incoming_header req t) as [[r1 t1] | [r1 t1]]; cbn in H1.
  { injection H as <- <- <-. destruct H1; [congruence | lia]. }
  pose proof (incoming_payload_unfinished cfg r1 t1 H1) as H2.
  destruct (incoming_payload cfg r1 t1) as [[r2 t2] | [r2 t2]]; cbn in H2.
  { injection H as <- <- <-. destruct H2; [congruence | lia]. }
  destruct (incoming_fill cfg r2) eqn:Hf; cbn in H; [| done | done].
  injection H as <- <- <-. intros _ _. by eapply incoming_fill_result.
Qed.

(** C7, as the code has it.  An attempt, push or pop, on a connected queue
    that takes a request from not done to done with a non-negative result
    leaves as result the sum of the segment lengths of the array, as an
    [ssize_t]: payload bytes only, neither the 24-byte header nor the
    8-byte length cells.  Pushing segments of 5 and 5 bytes completes with
    10 in either build; the pop of that frame completes with 10 when
    assertions are compiled out; a frame with one segment of 10 bytes is
    pushed and popped with result 10 with assertions on. *)
Theorem completion_result :
  (∀ cfg qt q req t q' req' t',
     attempt cfg qt q req t = Ok (q', req', t') →
     listening q = false →
     isDone req = false → isDone req' = true → 0 ≤ res req' →
     res req' = to_ssize (payload_bytes (sga req'))
     ∧ (IS_PUSH qt = true → sga req' = sga req)
     ∧ (0 ≤ payload_bytes (sga req') < 2 ^ 63 →
        res req' = payload_bytes (sga req')))
  ∧ (∀ cfg, cfg = Scenario.debug_build ∨ cfg = Scenario.release_build →
       ∃ r t', ProcessOutgoing cfg (new_request Scenario.hello_world)
                 (Scenario.link []) = Ok (r, t')
               ∧ isDone r = true ∧ res r = 10)
  ∧ (∃ r t', ProcessIncoming Scenario.release_build Scenario.conn
               (new_request Scenario.empty_sga)
               (Scenario.link [Scenario.frame_of Scenario.release_build
                                 Scenario.hello_world])
             = Ok (Scenario.conn, r, t')
             ∧ isDone r = true ∧ res r = 10)
  ∧ (∃ r t', ProcessOutgoing Scenario.debug_build
               (new_request Scenario.hello_world_joined) (Scenario.link [])
             = Ok (r, t')
             ∧ isDone r = true ∧ res r = 10)
  ∧ (∃ r t', ProcessIncoming Scenario.debug_build Scenario.conn
               (new_request Scenario.empty_sga)
               (Scenario.link [Scenario.frame_of Scenario.debug_build
                                 Scenario.hello_world_joined])
             = Ok (Scenario.conn, r, t')
             ∧ isDone r = true ∧ res r = 10).
Proof.
  split; [| split; [| split; [| split]]].
  - intros cfg qt q req t q' req' t' Ha Hl Hd Hd' Hr.
    assert (Hres : res req' = to_ssize (payload_bytes (sga req'))
                   ∧ (IS_PUSH qt = true → sga req' = sga req)).
    { revert Ha. unfold attempt. destruct (IS_PUSH qt).
      - destruct (ProcessOutgoing cfg req t) as [[r0 t0] | |] eqn:Ho;
          cbn [obind]; [| done | done].
        intros [= <- <- <-].
        destruct (ProcessOutgoing_result _ _ _ _ _ Ho Hd Hd' Hr) as [H1 H2].
        rewrite H2. done.
      - intros Hi. split; [| done].
        by eapply ProcessIncoming_result. }
    destruct Hres as [H1 H2]. repeat split; try done.
    intros Hb. rewrite H1. by apply to_ssize_small.
  - intros cfg [-> | ->]; eexists; eexists;
      (split; [vm_compute; reflexivity | split; reflexivity]).
  - eexists. eexists. split; [vm_compute; reflexivity | split; reflexivity].
  - eexists. eexists. split; [vm_compute; reflexivity | split; reflexivity].
  - eexists. eexists. split; [vm_compute; reflexivity | split; reflexivity].
Qed.

(** The push of ["hello", "world"] completes, and its result is 10. *)
Lemma completion_result_witness :
  ∃ r t',
    attempt Scenario.debug_build 1 Scenario.conn
      (new_request Scenario.hello_world) (Scenario.link [])
    = Ok (Scenario.conn, r, t')
    ∧ res r = to_ssize 10.
Proof.
  destruct completion_result as [H _].
  eexists. eexists. split; [vm_compute; reflexivity |].
  edestruct (H Scenario.debug_build 1 Scenario.conn
               (new_request Scenario.hello_world) (Scenario.link []))
    as (Hres & _ & _).
  - vm_compute. reflexivity.
  - reflexivity.
  - reflexivity.
  - reflexivity.
  - vm_compute. discriminate.
  - exact Hres.
Defined.

(** C7, as stated, fails on its own example.  The frame that the push of
    segments of 5 and 5 bytes puts on the wire is all there, and the pop
    does not complete with 10: the decoder stops on its assertions. *)
Lemma pop_of_two_segments_asserts :
  (∃ r t', ProcessOutgoing Scenario.debug_build
             (new_request Scenario.hello_world) (Scenario.link [])
           = Ok (r, t')
           ∧ isDone r = true ∧ res r = 10
           ∧ sent t' = Scenario.frame_of Scenario.debug_build Scenario.hello_world)
  ∧ ProcessIncoming Scenario.debug_build Scenario.conn
      (new_request Scenario.empty_sga)
      (Scenario.link [Scenario.frame_of Scenario.debug_build Scenario.hello_world])
    = AssertFail.
Proof.
  split.
  - eexists. eexists. split; [vm_compute; reflexivity |].
    repeat split; vm_compute; reflexivity.
  - vm_compute. reflexivity.
Qed.

(** A remark on the public [pop]: when the attempt completes at once with
    a non-zero result, the request was never parked, and the copy-back
    looks its token up in the pending map under an assertion.  The
    results above are those of the request, as [ProcessQ] leaves them for
    a parked pop. *)
Remark pop_completing_at_once_asserts :
  pop Scenario.debug_build Scenario.conn 2 Scenario.empty_sga
    (Scenario.link [Scenario.frame_of Scenario.debug_build Scenario.just_hello])
  = AssertFail.
Proof. vm_compute. reflexivity. Qed.

(** *** The frame codec, fed in pieces *)

Lemma memwrite_fill (F : list byte) (N k : nat) (d : list byte) :
  (k + length d ≤ N)%nat →
  d = take (length d) (drop k F) →
  (N ≤ length F)%nat →
  memwrite (take k F ++ zeros (N - k)) k d
  = take (k + length d) F ++ zeros (N - (k + length d)).
Proof.
  intros Hle Hd HN. unfold memwrite, zeros.
  assert (Hk : length (take k F) = k) by (rewrite length_take; lia).
  rewrite take_app_length' by done.
  rewrite drop_app_ge by lia. rewrite Hk, drop_replicate.
  rewrite app_assoc. f_equal; [| f_equal; lia].
  rewrite <- (take_take_drop F k (length d)). f_equal. exact Hd.
Qed.

Lemma read_chunks (n : nat) (cs : list (list byte)) (t : transport) :
  (1 ≤ n)%nat → cs ≠ [] → Forall nonempty cs → rx t = map RxData cs →
  ∃ d cs',
    mtcp_read n t = (Count d, set_rx t (map RxData cs'))
    ∧ (1 ≤ length d ≤ n)%nat
    ∧ concat cs = d ++ concat cs'
    ∧ Forall nonempty cs'.
Proof.
  intros Hn Hne Hall Hrx. destruct cs as [| c cs]; [done |].
  inversion Hall as [| ? ? Hc Hcs]; subst.
  unfold mtcp_read. rewrite Hrx. cbn [map].
  exists (take n c).
  exists (match drop n c with [] => cs | c' => c' :: cs end).
  split; [| split; [| split]].
  - f_equal. f_equal. by destruct (drop n c).
  - rewrite length_take. destruct c; [done |]. cbn [length]. lia.
  - cbn [concat]. rewrite <- (take_drop n c) at 1. rewrite <- app_assoc. f_equal.
    destruct (drop n c) eqn:E; [done |]. done.
  - destruct (drop n c) eqn:E; [done |]. constructor; [done | done].
Qed.

Section Feeding.

Context (cfg : config) (q : MTCPQueue) (s0 : sgarray) (hdr body : list byte).
Hypothesis Hlisten : listening q = false.
Hypothesis Hhdr : length hdr = 24%nat.
Hypothesis Hmagic : le_combine (take 8 hdr) = MAGIC cfg.
Hypothesis HdataLen : le_combine (take 8 (drop 8 hdr)) = Z.of_nat (length body).
Hypothesis Hbody : (0 < length body)%nat.
Hypothesis Hsmall : Z.of_nat (length body) < 2 ^ 32.

Local Abbreviation F := (hdr ++ body).
Local Abbreviation N := (24 + length body)%nat.
Local Abbreviation fed := (fed s0 hdr body).

Lemma wrap64_small (z : Z) : 0 ≤ z < 2 ^ 64 → wrap64 z = z.
Proof. intros H. unfold wrap64. by apply Z.mod_small. Qed.

Lemma fed_header_full (k : nat) : (24 ≤ k)%nat → header (fed k) = hdr.
Proof.
  intros Hk. cbn [header MTCP.fed].
  rewrite take_ge by lia. replace (24 - k)%nat with 0%nat by lia.
  apply app_nil_r.
Qed.

Lemma concat_nonempty (cs : list (list byte)) :
  concat cs ≠ [] → cs ≠ [].
Proof. by destruct cs. Qed.

Lemma feed_header (k : nat) (cs : list (list byte)) (t : transport) :
  (k < 24)%nat →
  Forall nonempty cs → concat cs = drop k F → rx t = map RxData cs →
  ∃ k' cs',
    (k < k' ≤ 24)%nat ∧ Forall nonempty cs' ∧ concat cs' = drop k' F
    ∧ incoming_header (fed k) t
      = (if (k' <? 24)%nat then Return else Continue)
          (fed k', set_rx t (map RxData cs')).
Proof.
  intros Hk Hall Hcat Hrx. unfold incoming_header, sizeof_header.
  cbn [num_bytes MTCP.fed].
  destruct (Z.of_nat k <? 24) eqn:Hlt; [| apply Z.ltb_ge in Hlt; lia].
  rewrite wrap64_small by lia.
  destruct (read_chunks (Z.to_nat (24 - Z.of_nat k)) cs t)
    as (d & cs' & Hrd & Hlen & Hsplit & Hall'); try done; [lia | |].
  { apply concat_nonempty. rewrite Hcat. intros E.
    apply (f_equal length) in E. rewrite length_drop, length_app in E.
    cbn in E. lia. }
  rewrite Hrd.
  assert (Hd : d = take (length d) (drop k F)).
  { rewrite <- Hcat, Hsplit. by rewrite take_app_length. }
  assert (Hcat' : concat cs' = drop (k + length d) F).
  { rewrite <- drop_drop, <- Hcat, Hsplit. by rewrite drop_app_length. }
  exists (k + length d)%nat, cs'.
  split; [lia |]. split; [done |]. split; [done |].
  cbn [num_bytes set_num_bytes set_header header MTCP.fed isDone res rbuf sga].
  rewrite wrap64_small by lia.
  assert (Hreq : set_num_bytes
                   (set_header (fed k)
                      (memwrite (take k hdr ++ zeros (24 - k)) (Z.to_nat (Z.of_nat k)) d))
                   (Z.of_nat k + Z.of_nat (length d))
                 = fed (k + length d)).
  { unfold MTCP.fed, set_num_bytes, set_header.
    cbn [isDone res header rbuf num_bytes sga].
    rewrite Nat2Z.id.
    rewrite (memwrite_fill hdr 24 k d); [| lia | | lia].
    - destruct (k <=? 24)%nat eqn:E1; [| apply Nat.leb_gt in E1; lia].
      destruct (k + length d <=? 24)%nat eqn:E2; [| apply Nat.leb_gt in E2; lia].
      f_equal. lia.
    - rewrite Hd at 1. rewrite drop_app_le by lia.
      rewrite take_app_le; [done |]. rewrite length_drop. lia. }
  rewrite Hreq.
  destruct (Z.of_nat k + Z.of_nat (length d) <? 24) eqn:E;
    [apply Z.ltb_lt in E | apply Z.ltb_ge in E].
  - destruct (k + length d <? 24)%nat eqn:E'; [done |].
    apply Nat.ltb_ge in E'. lia.
  - destruct (k + length d <? 24)%nat eqn:E'; [| done].
    apply Nat.ltb_lt in E'. lia.
Qed.

Lemma feed_payload (k : nat) (cs : list (list byte)) (t : transport) :
  (24 ≤ k < N)%nat →
  Forall nonempty cs → concat cs = drop k F → rx t = map RxData cs →
  ∃ k' cs',
    (k < k' ≤ N)%nat ∧ Forall nonempty cs' ∧ concat cs' = drop k' F
    ∧ incoming_payload cfg (fed k) t
      = (if (k' <? N)%nat then Return else Continue)
          (fed k', set_rx t (map RxData cs')).
Proof.
  intros Hk Hall Hcat Hrx. unfold incoming_payload, sizeof_header, header_word.
  rewrite (fed_header_full k) by lia.
  change (8 * 0)%nat with 0%nat. change (8 * 1)%nat with 8%nat.
  rewrite drop_0, Hmagic, HdataLen, Z.eqb_refl. cbn [negb num_bytes MTCP.fed].
  set (L := length body) in *.
  rewrite (wrap64_small (Z.of_nat k - 24)) by lia.
  rewrite (wrap64_small (24 + Z.of_nat L)) by lia.
  rewrite (wrap64_small (Z.of_nat L - (Z.of_nat k - 24))) by lia.
  destruct (Z.of_nat k <? 24 + Z.of_nat L) eqn:Hlt; [| apply Z.ltb_ge in Hlt; lia].
  destruct (read_chunks (Z.to_nat (Z.of_nat L - (Z.of_nat k - 24))) cs t)
    as (d & cs' & Hrd & Hlen & Hsplit & Hall'); try done; [lia | |].
  { apply concat_nonempty. rewrite Hcat. intros E.
    apply (f_equal length) in E. rewrite length_drop, length_app in E.
    cbn in E. fold L in E. lia. }
  rewrite Hrd.
  assert (Hd : d = take (length d) (drop k F)).
  { rewrite <- Hcat, Hsplit. by rewrite take_app_length. }
  assert (Hcat' : concat cs' = drop (k + length d) F).
  { rewrite <- drop_drop, <- Hcat, Hsplit. by rewrite drop_app_length. }
  exists (k + length d)%nat, cs'.
  split; [lia |]. split; [done |]. split; [done |].
  cbn [num_bytes set_num_bytes set_rbuf].
  rewrite (wrap64_small (Z.of_nat k + Z.of_nat (length d))) by lia.
  set (b := match rbuf (fed k) with Some b => b | None => zeros (Z.to_nat (Z.of_nat L)) end).
  assert (Hb : b = take (k - 24) body ++ zeros (L - (k - 24))).
  { subst b. cbn [rbuf MTCP.fed]. destruct (k <=? 24)%nat eqn:E.
    - apply Nat.leb_le in E. replace (k - 24)%nat with 0%nat by lia.
      rewrite take_0, Nat2Z.id. cbn [app]. f_equal. lia.
    - done. }
  assert (Hreq : set_num_bytes
                   (set_rbuf (set_rbuf (fed k) b)
                      (memwrite b (Z.to_nat (Z.of_nat k - 24)) d))
                   (Z.of_nat k + Z.of_nat (length d))
                 = fed (k + length d)).
  { unfold MTCP.fed, set_num_bytes, set_rbuf.
    cbn [isDone res header rbuf num_bytes sga MTCP.fed].
    rewrite Hb. replace (Z.to_nat (Z.of_nat k - 24)) with (k - 24)%nat by lia.
    rewrite (memwrite_fill body L (k - 24) d); [| lia | | lia].
    - destruct (k + length d <=? 24)%nat eqn:E2; [apply Nat.leb_le in E2; lia |].
      f_equal.
      + rewrite !take_ge by lia. by replace (24 - k)%nat with (24 - (k + length d))%nat by lia.
      + f_equal. f_equal; [f_equal; lia | f_equal; lia].
      + lia.
    - rewrite Hd at 1. rewrite drop_app_ge by lia. by rewrite Hhdr. }
  rewrite Hreq.
  destruct (Z.of_nat k + Z.of_nat (length d) <? 24 + Z.of_nat L) eqn:E;
    [apply Z.ltb_lt in E | apply Z.ltb_ge in E].
  - destruct (k + length d <? 24 + L)%nat eqn:E'; [done |].
    apply Nat.ltb_ge in E'. lia.
  - destruct (k + length d <? 24 + L)%nat eqn:E'; [| done].
    apply Nat.ltb_lt in E'. lia.
Qed.

Lemma feed_step (k : nat) (cs : list (list byte)) (t : transport) :
  (k < N)%nat →
  Forall nonempty cs → concat cs = drop k F → rx t = map RxData cs →
  ∃ k' cs',
    (k < k' ≤ N)%nat ∧ Forall nonempty cs' ∧ concat cs' = drop k' F
    ∧ ProcessIncoming cfg q (fed k) t
      = if (k' <? N)%nat then Ok (q, fed k', set_rx t (map RxData cs'))
        else let! r := incoming_fill cfg (fed N) in
             Ok (q, r, set_rx t (map RxData cs')).
Proof.
  intros Hk Hall Hcat Hrx.
  assert (Hpay : ∀ k0 cs0 t0,
            (24 ≤ k0 < N)%nat → Forall nonempty cs0 → concat cs0 = drop k0 F →
            t0 = set_rx t (map RxData cs0) ∨ (t0 = t ∧ cs0 = cs) →
            ∃ k' cs',
              (k0 < k' ≤ N)%nat ∧ Forall nonempty cs' ∧ concat cs' = drop k' F
              ∧ match incoming_payload cfg (fed k0) t0 with
                | Return (r, t') => Ok (q, r, t')
                | Continue (r, t') =>
                    let! r4 := incoming_fill cfg r in Ok (q, r4, t')
                end
                = if (k' <? N)%nat then Ok (q, fed k', set_rx t (map RxData cs'))
                  else let! r := incoming_fill cfg (fed N) in
                       Ok (q, r, set_rx t (map RxData cs'))).
  { intros k0 cs0 t0 Hk0 Hall0 Hcat0 Ht0.
    assert (Hrx0 : rx t0 = map RxData cs0) by (destruct Ht0 as [-> | [-> ->]]; done).
    destruct (feed_payload k0 cs0 t0 Hk0 Hall0 Hcat0 Hrx0)
      as (k' & cs' & Hk' & Hall' & Hcat' & Hp).
    exists k', cs'. split; [done |]. split; [done |]. split; [done |].
    rewrite Hp.
    assert (Ht : set_rx t0 (map RxData cs') = set_rx t (map RxData cs'))
      by (destruct Ht0 as [-> | [-> ->]]; done).
    rewrite Ht.
    destruct (k' <? N)%nat eqn:E; [done |].
    apply Nat.ltb_ge in E. by replace k' with N by lia. }
  unfold ProcessIncoming, incoming_accept. rewrite Hlisten.
  destruct (Nat.lt_ge_cases k 24) as [Hlt | Hge].
  - destruct (feed_header k cs t Hlt Hall Hcat Hrx)
      as (k1 & cs1 & Hk1 & Hall1 & Hcat1 & Hh).
    rewrite Hh. destruct (k1 <? 24)%nat eqn:E.
    + apply Nat.ltb_lt in E. exists k1, cs1.
      split; [lia |]. split; [done |]. split; [done |].
      destruct (k1 <? N)%nat eqn:E'; [done |]. apply Nat.ltb_ge in E'. lia.
    + apply Nat.ltb_ge in E. assert (k1 = 24%nat) as -> by lia.
      assert (H24 : (24 ≤ 24 < N)%nat) by lia.
      destruct (Hpay 24%nat cs1 (set_rx t (map RxData cs1)) H24 Hall1 Hcat1
                  (or_introl eq_refl))
        as (k' & cs' & Hk' & Hall' & Hcat' & Hp).
      exists k', cs'. split; [lia |]. done.
  - assert (Hh : incoming_header (fed k) t = Continue (fed k, t)).
    { unfold incoming_header, sizeof_header. cbn [num_bytes MTCP.fed].
      destruct (Z.of_nat k <? 24) eqn:E; [apply Z.ltb_lt in E; lia | done]. }
    rewrite Hh.
    destruct (Hpay k cs t (conj Hge Hk) Hall Hcat (or_intror (conj eq_refl eq_refl)))
      as (k' & cs' & Hk' & Hall' & Hcat' & Hp).
    exists k', cs'. done.
Qed.

Lemma feed_all (final : PendingRequest) :
  incoming_fill cfg (fed N) = Ok final →
  ∀ (fuel k : nat) (cs : list (list byte)) (t : transport),
    (N - k ≤ fuel)%nat → (k < N)%nat →
    Forall nonempty cs → concat cs = drop k F → rx t = map RxData cs →
    retry_incoming cfg fuel q (fed k) t = Ok (q, final, set_rx t []).
Proof.
  intros Hfill. induction fuel as [| fuel IH]; intros k cs t Hf Hk Hall Hcat Hrx.
  - lia.
  - cbn [retry_incoming isDone MTCP.fed].
    destruct (feed_step k cs t Hk Hall Hcat Hrx)
      as (k' & cs' & Hk' & Hall' & Hcat' & Hstep).
    rewrite Hstep. destruct (k' <? N)%nat eqn:E.
    + apply Nat.ltb_lt in E. cbn [obind].
      rewrite (IH k' cs' (set_rx t (map RxData cs'))); try done. lia.
    + apply Nat.ltb_ge in E. rewrite Hfill. cbn [obind].
      assert (cs' = []) as ->.
      { assert (Hnil : concat cs' = []).
        { rewrite Hcat'. apply drop_ge. rewrite length_app, Hhdr. lia. }
        destruct Hall' as [| c cs'' Hc _]; [done |].
        cbn in Hnil. apply app_eq_nil in Hnil as [-> _]. done. }
      cbn [map]. apply retry_incoming_done. by eapply incoming_fill_done.
Qed.

End Feeding.



Lemma segments_length (s : sgarray) :
  sgarray_wf s → length (segments s) = Z.to_nat (num_bufs s).
Proof. intros [Hn _]. unfold segments. rewrite length_take. lia. Qed.

Lemma sum_len_nonneg (es : list sgelem) : Forall sgelem_wf es → 0 ≤ sum_len es.
Proof.
  induction 1 as [| e l He _ IH]; cbn [sum_len foldr]; [lia |].
  fold (sum_len l). unfold sgelem_wf in He. lia.
Qed.

Lemma iov_of_length (es : list sgelem) :
  Forall sgelem_wf es →
  Z.of_nat (length (iov_of es)) = 8 * Z.of_nat (length es) + sum_len es.
Proof.
  induction 1 as [| e l He _ IH]; cbn [iov_of flat_map length sum_len foldr]; [done |].
  fold (iov_of l). fold (sum_len l).
  rewrite !length_app, length_le_split, length_take.
  unfold sgelem_wf in He. lia.
Qed.

Lemma totalLen_of_length (es : list sgelem) :
  Forall sgelem_wf es →
  Z.of_nat (length (iov_of es)) < 2 ^ 64 →
  totalLen_of es = Z.of_nat (length (iov_of es)).
Proof.
  intros Hwf Hb. rewrite (iov_of_length es Hwf) in *. unfold totalLen_of.
  enough (∀ a, 0 ≤ a → a + (8 * Z.of_nat (length es) + sum_len es) < 2 ^ 64 →
               fold_left (λ a e, wrap64 (wrap64 (a + len e) + sizeof_len)) es a
               = a + (8 * Z.of_nat (length es) + sum_len es)) as H
    by (rewrite H; lia).
  clear Hb. induction Hwf as [| e l He Hl IH]; intros a Ha Hb;
    cbn [fold_left length sum_len foldr] in *.
  - lia.
  - fold (sum_len l) in *. pose proof (sum_len_nonneg l Hl).
    unfold sgelem_wf in He. unfold sizeof_len.
    rewrite (wrap64_small (a + len e)) by lia.
    rewrite (wrap64_small (a + len e + 8)) by lia.
    rewrite IH by lia. lia.
Qed.

Lemma fill_sga_iov (es : list sgelem) : ∀ (rest : list byte) (a : Z),
  Forall sgelem_wf es →
  0 ≤ a → a + sum_len es < 2 ^ 64 →
  fill_sga (length es) (iov_of es ++ rest) a = Some (es, a + sum_len es).
Proof.
  induction es as [| e es IH]; intros rest a Hwf Ha Hb;
    cbn [length fill_sga iov_of flat_map sum_len foldr] in *.
  - do 2 f_equal. lia.
  - fold (iov_of es). fold (sum_len es) in *.
    inversion Hwf as [| ? ? He Hes]; subst.
    pose proof (sum_len_nonneg es Hes). unfold sgelem_wf in He.
    rewrite <- !app_assoc.
    destruct (_ <? 8)%nat eqn:E.
    { apply Nat.ltb_lt in E. rewrite length_app, length_le_split in E. lia. }
    cbv zeta.
    rewrite (take_app_length' _ _ 8) by (symmetry; apply length_le_split).
    rewrite (drop_app_length' _ _ 8) by (symmetry; apply length_le_split).
    rewrite le_combine_split. change (Z.of_nat 8 * 8) with 64.
    rewrite (Z.mod_small (len e)) by lia.
    assert (Hn : Z.to_nat (len e) = length (buf e)) by lia.
    rewrite Hn, firstn_all, take_app_length, drop_app_length.
    rewrite wrap64_small by lia. rewrite IH by (done || lia).
    destruct e as [b l]; cbn in *. subst l. do 2 f_equal. lia.
Qed.

Section Frame.

Context (cfg : config) (s : sgarray).
Hypothesis Hmagic : 0 ≤ MAGIC cfg < 2 ^ 64.
Hypothesis Hwf : sgarray_wf s.
Hypothesis Hnb : 1 ≤ num_bufs s ≤ 8.
Hypothesis Hsize : payload_bytes s ≤ 65536.

Lemma frame_body_length :
  Z.of_nat (length (frame_body s)) = 8 * num_bufs s + payload_bytes s
  ∧ 0 ≤ payload_bytes s.
Proof.
  unfold frame_body, payload_bytes. rewrite iov_of_length by apply Hwf.
  rewrite (segments_length s Hwf). split; [lia |].
  apply sum_len_nonneg, Hwf.
Qed.

Lemma frame_totalLen :
  totalLen_of (segments s) = Z.of_nat (length (frame_body s)).
Proof.
  apply totalLen_of_length; [apply Hwf |].
  destruct frame_body_length as [H1 H2]. unfold frame_body in H1. lia.
Qed.

Lemma frame_header_length : length (frame_header cfg s) = 24%nat.
Proof. unfold frame_header. by rewrite !length_app, !length_le_split. Qed.

Lemma frame_header_words :
  le_combine (take 8 (frame_header cfg s)) = MAGIC cfg
  ∧ le_combine (take 8 (drop 8 (frame_header cfg s)))
    = Z.of_nat (length (frame_body s))
  ∧ le_combine (take 8 (drop 16 (frame_header cfg s))) = num_bufs s.
Proof.
  unfold frame_header. destruct frame_body_length as [H1 H2].
  split; [| split].
  - rewrite (take_app_length' _ _ 8) by (symmetry; apply length_le_split).
    rewrite le_combine_split. apply Z.mod_small. cbn. lia.
  - rewrite (drop_app_length' _ _ 8) by (symmetry; apply length_le_split).
    rewrite (take_app_length' _ _ 8) by (symmetry; apply length_le_split).
    rewrite le_combine_split, frame_totalLen. apply Z.mod_small. cbn. lia.
  - rewrite app_assoc.
    rewrite (drop_app_length' _ _ 16)
      by (rewrite length_app, !length_le_split; done).
    rewrite take_ge by (rewrite length_le_split; lia).
    rewrite le_combine_split. apply Z.mod_small. cbn. lia.
Qed.

Lemma fill_decoded (s0 : sgarray) :
  NDEBUG cfg = true ∨ num_bufs s = 1 →
  num_bufs s ≤ MAX_SGARRAY_SIZE cfg →
  incoming_fill cfg (fed s0 (frame_header cfg s) (frame_body s)
                       (24 + length (frame_body s)))
  = Ok (decoded cfg s s0).
Proof.
  intros Hbuild Hmax. destruct frame_header_words as (_ & HL & Hn).
  destruct frame_body_length as [Hlen Hpos].
  unfold incoming_fill, header_word.
  rewrite (fed_header_full _ _ _ frame_header_length) by lia.
  change (8 * 1)%nat with 8%nat. change (8 * 2)%nat with 16%nat.
  rewrite HL, Hn.
  assert (Hint : to_int (num_bufs s) = num_bufs s).
  { unfold to_int, wrap32. rewrite Z.mod_small by lia.
    destruct (_ <? _) eqn:E; [done | apply Z.ltb_ge in E; lia]. }
  rewrite Hint.
  destruct (MAX_SGARRAY_SIZE cfg <? num_bufs s) eqn:E; [apply Z.ltb_lt in E; lia |].
  assert (Hrb : rbuf (fed s0 (frame_header cfg s) (frame_body s)
                        (24 + length (frame_body s)))
                = Some (frame_body s)).
  { cbn [rbuf fed]. destruct (_ <=? 24)%nat eqn:E'.
    - apply Nat.leb_le in E'. lia.
    - f_equal. rewrite take_ge by lia.
      replace (length (frame_body s) - (24 + length (frame_body s) - 24))%nat
        with 0%nat by lia.
      apply app_nil_r. }
  rewrite Hrb. cbn [default from_option id].
  rewrite <- (segments_length s Hwf).
  rewrite <- (app_nil_r (frame_body s)) at 1. unfold frame_body at 1.
  rewrite fill_sga_iov; [| apply Hwf | lia | unfold payload_bytes in *; lia].
  rewrite Z.add_0_l.
  assert (Hasserts : ∀ A (k : outcome A),
    assert cfg (first_len {| num_bufs := num_bufs s;
                             bufs := segments s ++ drop (length (segments s)) (bufs s0) |}
                =? wrap64 (Z.of_nat (length (frame_body s)) - sizeof_len))
      (assert cfg (num_bufs s =? 1)
        (assert cfg (0 <? num_bufs s)
          (assert cfg (sum_len (segments s)
                       =? wrap64 (Z.of_nat (length (frame_body s))
                                  - wrap64 (num_bufs s * sizeof_len))) k))) = k).
  { intros A k. unfold assert. destruct Hbuild as [-> | H1]; [done |].
    pose proof (segments_length s Hwf) as Hsl. rewrite H1 in Hsl.
    destruct (segments s) as [| e [| e' l]] eqn:Hseg; try done.
    unfold payload_bytes in *. rewrite Hseg in *.
    cbn [sum_len foldr first_len bufs app] in *. rewrite H1 in *.
    unfold sizeof_len. rewrite (wrap64_small (1 * 8)) by lia.
    rewrite !wrap64_small by lia.
    replace (Z.of_nat (length (frame_body s)) - 8) with (len e) by lia.
    replace (Z.of_nat (length (frame_body s)) - 1 * 8) with (len e + 0) by lia.
    by rewrite !Z.eqb_refl, !orb_true_r. }
  rewrite Hasserts. unfold decoded, set_done, set_sga.
  cbn [isDone res header rbuf num_bytes sga fed].
  rewrite (take_ge (frame_header cfg s)) by (rewrite frame_header_length; lia).
  replace (24 - (24 + length (frame_body s)))%nat with 0%nat by lia.
  destruct (_ <=? 24)%nat eqn:E'; [apply Nat.leb_le in E'; lia |].
  rewrite (take_ge (frame_body s)) by lia.
  replace (length (frame_body s) - (24 + length (frame_body s) - 24))%nat
    with 0%nat by lia.
  cbn [zeros replicate]. by rewrite !app_nil_r.
Qed.

Lemma ProcessOutgoing_sent (t t' : transport) (r : PendingRequest) :
  ProcessOutgoing cfg (new_request s) t = Ok (r, t') →
  isDone r = true → 0 ≤ res r →
  sent t' = sent t ++ frame_header cfg s ++ frame_body s
  ∧ res r = payload_bytes s.
Proof.
  destruct frame_body_length as [Hlen Hpos].
  unfold ProcessOutgoing. cbv zeta.
  change (sga (new_request s)) with s.
  fold (frame_header cfg s). fold (frame_body s).
  rewrite frame_totalLen.
  unfold mtcp_writev. destruct (tx t) as [| [k | |] rest].
  - intros [= <- <-]. cbn. done.
  - cbn [num_bytes set_num_bytes set_header new_request].
    set (iov := frame_header cfg s ++ frame_body s).
    assert (Hiov : length iov = (24 + length (frame_body s))%nat)
      by (subst iov; rewrite length_app, frame_header_length; done).
    assert (Hc : (length (take k iov) ≤ length iov)%nat)
      by (rewrite length_take; lia).
    unfold sizeof_header. rewrite !wrap64_small by lia.
    destruct (_ <? _) eqn:E.
    + intros H%assert_ok. injection H as <- <-. cbn. done.
    + apply Z.ltb_ge in E. intros [= <- <-] _ _. cbn [sent res set_done].
      assert (Hk : take k iov = iov).
      { apply take_ge. rewrite length_take in E. lia. }
      rewrite Hk. split; [done |].
      rewrite (to_ssize_wrap _ _ (dataSize_of_sum _)).
      apply to_ssize_small. unfold payload_bytes in *. lia.
  - intros [= <- <-]. cbn. done.
  - intros [= <- <-]. cbn. lia.
Qed.

Lemma ProcessOutgoing_whole (t : transport) (room : nat) (later : list tx_event) :
  tx t = TxRoom room :: later →
  24 + 8 * num_bufs s + payload_bytes s ≤ Z.of_nat room →
  ∃ r t',
    ProcessOutgoing cfg (new_request s) t = Ok (r, t')
    ∧ isDone r = true
    ∧ res r = payload_bytes s
    ∧ sent t' = sent t ++ frame_header cfg s ++ frame_body s.
Proof.
  intros Htx Hroom. destruct frame_body_length as [Hlen Hpos].
  unfold ProcessOutgoing. cbv zeta.
  change (sga (new_request s)) with s.
  fold (frame_header cfg s). fold (frame_body s).
  rewrite frame_totalLen.
  unfold mtcp_writev. rewrite Htx.
  cbn [num_bytes set_num_bytes set_header new_request].
  set (iov := frame_header cfg s ++ frame_body s).
  assert (Hiov : length iov = (24 + length (frame_body s))%nat)
    by (subst iov; rewrite length_app, frame_header_length; done).
  assert (Hk : take room iov = iov) by (apply take_ge; lia).
  rewrite Hk, Hiov.
  unfold sizeof_header. rewrite !wrap64_small by lia.
  destruct (_ <? _) eqn:E; [apply Z.ltb_lt in E; lia |].
  eexists _, _. split; [reflexivity |]. cbn [isDone res sent set_done].
  split; [done |]. split; [| done].
  rewrite (to_ssize_wrap _ _ (dataSize_of_sum _)).
  apply to_ssize_small. unfold payload_bytes in *. lia.
Qed.

End Frame.

Lemma bytewise_chunks (l : list byte) :
  Forall nonempty (Scenario.bytewise l) ∧ concat (Scenario.bytewise l) = l.
Proof.
  unfold Scenario.bytewise. induction l as [| b l [IH1 IH2]]; cbn.
  - split; [constructor | done].
  - split; [by constructor | by rewrite IH2].
Qed.

(** C1, as the code has it.  A push of an array of one segment, or of 1 to
    8 segments when assertions are compiled out, with at most 64 KiB of
    payload, on a socket that has room for the whole frame (24 bytes of
    header, 8 of length cell for each segment, and the payload) is done at
    its first write, with the payload byte count as result, and adds the
    frame to what the socket has sent.  When that frame arrives in any
    sequence of non-empty pieces, single bytes included, the parked pop
    is done after at most as many attempts as the frame has bytes, with
    the same segment count, the same segments and the payload byte count
    as result. *)
Theorem stream_round_trip (cfg : config) (s s0 : sgarray) (q : MTCPQueue)
    (t_tx : transport) (room : nat) (later : list tx_event) :
  0 ≤ MAGIC cfg < 2 ^ 64 →
  sgarray_wf s →
  1 ≤ num_bufs s ≤ 8 →
  payload_bytes s ≤ 65536 →
  NDEBUG cfg = true ∨ num_bufs s = 1 →
  num_bufs s ≤ MAX_SGARRAY_SIZE cfg →
  tx t_tx = TxRoom room :: later →
  24 + 8 * num_bufs s + payload_bytes s ≤ Z.of_nat room →
  listening q = false →
  ∃ req_tx t_tx' wire,
    ProcessOutgoing cfg (new_request s) t_tx = Ok (req_tx, t_tx')
    ∧ isDone req_tx = true
    ∧ res req_tx = payload_bytes s
    ∧ sent t_tx' = sent t_tx ++ wire
    ∧ Z.of_nat (length wire) = 24 + 8 * num_bufs s + payload_bytes s
    ∧ ∀ (chunks : list (list byte)) (t_rx : transport),
        Forall nonempty chunks →
        concat chunks = wire →
        rx t_rx = map RxData chunks →
        ∃ req',
          retry_incoming cfg (length wire) q (new_request s0) t_rx
          = Ok (q, req', set_rx t_rx [])
          ∧ isDone req' = true
          ∧ num_bufs (sga req') = num_bufs s
          ∧ segments (sga req') = segments s
          ∧ res req' = payload_bytes s
          ∧ res req' = res req_tx.
Proof.
  intros Hmagic Hwf Hnb Hsize Hbuild Hmax Htx Hroom Hl.
  destruct (ProcessOutgoing_whole cfg s Hwf Hnb Hsize t_tx room later Htx Hroom)
    as (req_tx & t_tx' & Hout & Hdone & Hrtx & Hsent).
  destruct (frame_body_length s Hwf Hnb) as [Hlen Hpos].
  destruct (frame_header_words cfg s Hmagic Hwf Hnb Hsize) as (Hw0 & Hw1 & Hw2).
  pose proof (frame_header_length cfg s) as Hhl.
  exists req_tx, t_tx', (frame_header cfg s ++ frame_body s).
  split; [exact Hout |]. split; [exact Hdone |]. split; [exact Hrtx |].
  split; [exact Hsent |].
  split; [rewrite length_app, Hhl; lia |].
  intros chunks t_rx Hall Hcat Hrx.
  exists (decoded cfg s s0).
  split; [| split; [| split; [| split; [| split]]]].
  - change (new_request s0)
      with (fed s0 (frame_header cfg s) (frame_body s) 0).
    eapply (feed_all cfg q s0 (frame_header cfg s) (frame_body s)); try done;
      try lia.
    by apply fill_decoded.
  - done.
  - done.
  - unfold segments at 1. cbn [sga decoded num_bufs bufs].
    rewrite <- (segments_length s Hwf). apply take_app_length.
  - cbn [res decoded]. apply to_ssize_small. unfold payload_bytes in *. lia.
  - cbn [res decoded]. rewrite Hrtx. apply to_ssize_small.
    unfold payload_bytes in *. lia.
Qed.

(** S2: the push of ["hello"] puts 37 bytes on the wire, which arrive one
    byte per read. *)
Lemma stream_round_trip_witness :
  ∃ req_tx t_tx' req',
    ProcessOutgoing Scenario.debug_build (new_request Scenario.just_hello)
      (Scenario.link []) = Ok (req_tx, t_tx')
    ∧ isDone req_tx = true
    ∧ res req_tx = 5
    ∧ retry_incoming Scenario.debug_build 37 Scenario.conn
        (new_request Scenario.empty_sga)
        (Scenario.link (Scenario.bytewise (sent t_tx')))
      = Ok (Scenario.conn, req', Scenario.link [])
    ∧ isDone req' = true
    ∧ num_bufs (sga req') = 1
    ∧ segments (sga req') = segments Scenario.just_hello
    ∧ res req' = 5.
Proof.
  destruct (stream_round_trip Scenario.debug_build Scenario.just_hello
              Scenario.empty_sga Scenario.conn (Scenario.link []) 4096 [])
    as (req_tx & t_tx' & wire & Hout & Hd & Hr & Hsent & Hlen & Hdec).
  - cbn. lia.
  - split; [cbn; lia | repeat constructor].
  - cbn. lia.
  - vm_compute. discriminate.
  - right. reflexivity.
  - cbn. lia.
  - reflexivity.
  - vm_compute. discriminate.
  - reflexivity.
  - cbn [Scenario.link sent app] in Hsent.
    assert (H37 : length wire = 37%nat) by (apply Nat2Z.inj; rewrite Hlen; reflexivity).
    destruct (Hdec (Scenario.bytewise wire) (Scenario.link (Scenario.bytewise wire)))
      as (req' & H1 & H2 & H3 & H4 & H5 & _).
    + apply bytewise_chunks.
    + apply bytewise_chunks.
    + reflexivity.
    + exists req_tx, t_tx', req'. rewrite Hsent, <- H37.
      split; [exact Hout |]. split; [exact Hd |]. split; [exact Hr |].
      split; [exact H1 |]. repeat split; assumption.
Defined.

(** C1, as stated, fails from two segments on.  The push of ["hello",
    "world"] completes with result 10 and leaves a 50-byte frame; fed one
    byte per read, the pop has 49 bytes after 48 attempts, and the attempt
    that takes the last byte in stops on the decoder's assertions instead
    of handing out the two segments. *)
Lemma two_segments_do_not_round_trip :
  (∃ r t', ProcessOutgoing Scenario.debug_build
             (new_request Scenario.hello_world) (Scenario.link [])
           = Ok (r, t')
           ∧ isDone r = true ∧ res r = 10 ∧ length (sent t') = 50%nat)
  ∧ (∃ q r t', retry_incoming Scenario.debug_build 48 Scenario.conn
                 (new_request Scenario.empty_sga)
                 (Scenario.link (Scenario.bytewise
                    (Scenario.frame_of Scenario.debug_build Scenario.hello_world)))
               = Ok (q, r, t')
               ∧ isDone r = false ∧ num_bytes r = 49)
  ∧ retry_incoming Scenario.debug_build 49 Scenario.conn
      (new_request Scenario.empty_sga)
      (Scenario.link (Scenario.bytewise
         (Scenario.frame_of Scenario.debug_build Scenario.hello_world)))
    = AssertFail.
Proof.
  split; [| split].
  - eexists. eexists. split; [vm_compute; reflexivity |].
    repeat split; vm_compute; reflexivity.
  - eexists. eexists. eexists. split; [vm_compute; reflexivity |].
    split; reflexivity.
  - vm_compute. reflexivity.
Qed.

End StreamProps.

(** * Properties of the packet back end *)

Module PacketProps.
Import LWIP.

(** *** Byte order and the segment records *)

Lemma lor_shift8 (a c : Z) :
  Z.lor (Z.shiftl a 8) (Z.land c 255) = a * 256 + c mod 256.
Proof.
  change 255 with (Z.ones 8).
  rewrite Z.or_to_plus.
  - rewrite Z.shiftl_mul_pow2, Z.land_ones by lia. reflexivity.
  - apply Z.bits_inj'. intros n Hn.
    rewrite !Z.land_spec, Z.bits_0.
    destruct (Z.ltb_spec n 8).
    + rewrite Z.shiftl_spec_low by lia. reflexivity.
    + rewrite Z.ones_spec_high by lia. by rewrite !andb_false_r.
Qed.

Lemma bswap16_spec (x : Z) : bswap16 x = (x mod 256) * 256 + (x / 256) mod 256.
Proof.
  unfold bswap16. rewrite lor_shift8. change 255 with (Z.ones 8).
  rewrite Z.land_ones, Z.shiftr_div_pow2 by lia. reflexivity.
Qed.

Lemma bswap16_involutive (x : Z) : 0 ≤ x < 2 ^ 16 → bswap16 (bswap16 x) = x.
Proof.
  intros Hx. rewrite !bswap16_spec.
  change (2 ^ 16) with 65536 in Hx.
  Z.div_mod_to_equations. lia.
Qed.

Lemma le_combine_split_small (n : nat) (z : Z) :
  0 ≤ z < 2 ^ (Z.of_nat n * 8) → le_combine (le_split n z) = z.
Proof. intros H. rewrite le_combine_split. apply Z.mod_small. lia. Qed.

Lemma encode_fold (segs : list sgaseg) : ∀ bs n,
  (fold_left
    (fun '(bs, n) g =>
       (bs ++ le_split 4 (sgaseg_len g)
           ++ take (Z.to_nat (sgaseg_len g)) (sgaseg_buf g),
        wrap32 (wrap32 (n + sizeof_u32) + sgaseg_len g)))
    segs (bs, n)).1 = bs ++ flat_map seg_bytes segs.
Proof.
  induction segs as [| g segs IH]; intros bs n; cbn [fold_left flat_map].
  - by rewrite app_nil_r.
  - rewrite IH. unfold seg_bytes at 2. by rewrite <- !app_assoc.
Qed.

Lemma encode_fold_len (segs : list sgaseg) : ∀ bs n,
  Forall (λ g, 0 ≤ sgaseg_len g) segs →
  0 ≤ n → n + total_bytes segs < 2 ^ 32 →
  (fold_left
    (fun '(bs, n) g =>
       (bs ++ le_split 4 (sgaseg_len g)
           ++ take (Z.to_nat (sgaseg_len g)) (sgaseg_buf g),
        wrap32 (wrap32 (n + sizeof_u32) + sgaseg_len g)))
    segs (bs, n)).2 = n + total_bytes segs.
Proof.
  induction segs as [| g segs IH]; intros bs n Hwf Hn Hb;
    cbn [fold_left total_bytes foldr] in *.
  - cbn. lia.
  - fold (total_bytes segs) in *. inversion Hwf as [| ? ? Hg Hwf']; subst.
    assert (0 ≤ total_bytes segs).
    { clear -Hwf'. induction Hwf'; cbn [total_bytes foldr]; [lia |].
      fold (total_bytes l). lia. }
    unfold sizeof_u32.
    assert (E : wrap32 (wrap32 (n + 4) + sgaseg_len g) = n + 4 + sgaseg_len g).
    { unfold wrap32. rewrite (Z.mod_small (n + 4)) by lia. apply Z.mod_small. lia. }
    rewrite E, IH; [lia | done | lia | lia].
Qed.

Lemma seg_bytes_wf (g : sgaseg) :
  seg_wf g → seg_bytes g = le_split 4 (sgaseg_len g) ++ sgaseg_buf g.
Proof.
  unfold seg_wf, seg_bytes. intros ->. by rewrite Nat2Z.id, firstn_all.
Qed.

Lemma decode_encode (d : dpdk) (segs : list sgaseg) (rest : list byte) :
  ∀ (i : nat) (cells : list sgaseg),
    Forall seg_wf segs →
    Forall (λ g, sgaseg_len g < 2 ^ 32) segs →
    Z.of_nat (i + length segs) ≤ DMTR_SGARRAY_MAXSIZE d →
    (∀ j g, segs !! j = Some g → dmtr_malloc d (i + j) (sgaseg_len g) = 0) →
    decode_segs d (length segs) i (flat_map seg_bytes segs ++ rest) cells
    = Ok (0, segs).
Proof.
  induction segs as [| g segs IH]; intros i cells Hwf Hlt Hcap Hheap;
    cbn [length decode_segs flat_map].
  - done.
  - inversion Hwf as [| ? ? Hg Hwf']; inversion Hlt as [| ? ? Hl Hlt']; subst.
    cbn [length] in Hcap.
    destruct (DMTR_SGARRAY_MAXSIZE d <=? Z.of_nat i) eqn:Ec;
      [apply Z.leb_le in Ec; lia |].
    rewrite (seg_bytes_wf g Hg), <- !app_assoc.
    set (tl := flat_map seg_bytes segs ++ rest).
    assert (E4 : (length (le_split 4 (sgaseg_len g) ++ sgaseg_buf g ++ tl) <? 4)%nat
                 = false).
    { apply Nat.ltb_ge. rewrite length_app, length_le_split. lia. }
    rewrite E4. cbv zeta.
    assert (H4 : 4%nat = length (le_split 4 (sgaseg_len g)))
      by (symmetry; apply length_le_split).
    rewrite (take_app_length' _ _ 4 H4), (drop_app_length' _ _ 4 H4).
    unfold seg_wf in Hg.
    rewrite le_combine_split_small by (cbn; lia).
    pose proof (Hheap 0%nat g eq_refl) as H0. rewrite Nat.add_0_r in H0.
    rewrite H0. cbn [Z.eqb negb].
    assert (Hn : Z.to_nat (sgaseg_len g) = length (sgaseg_buf g)) by lia.
    assert (El : (length (sgaseg_buf g ++ tl) <? length (sgaseg_buf g))%nat = false).
    { apply Nat.ltb_ge. rewrite length_app. lia. }
    rewrite Hn, El, take_app_length, drop_app_length. subst tl.
    rewrite IH.
    + destruct g as [b l]; cbn in *. by subst.
    + exact Hwf'.
    + exact Hlt'.
    + lia.
    + intros j g' Hj. replace (S i + j)%nat with (i + S j)%nat by lia.
      by apply Hheap.
Qed.

Lemma total_bytes_bound (segs : list sgaseg) :
  Forall seg_wf segs →
  0 ≤ total_bytes segs ∧ Forall (λ g, 0 ≤ sgaseg_len g ≤ total_bytes segs) segs.
Proof.
  induction 1 as [| g l Hg Hl [IH1 IH2]]; cbn [total_bytes foldr].
  - split; [lia | constructor].
  - fold (total_bytes l). unfold seg_wf in Hg. split; [lia |].
    constructor; [lia |]. eapply Forall_impl; [exact IH2 |]. cbn. lia.
Qed.

Lemma live_segs_length (s : dmtr_sgarray) :
  sga_wf s → length (live_segs s) = Z.to_nat (sga_numsegs s).
Proof. intros [Hn _]. unfold live_segs. rewrite length_take. lia. Qed.

Lemma encode_sga_wf (s : dmtr_sgarray) :
  sga_wf s → frame_len s ≤ ETHER_MAX_LEN →
  encode_sga s = (le_split 4 (sga_numsegs s) ++ flat_map seg_bytes (live_segs s),
                  sizeof_u32 + total_bytes (live_segs s)).
Proof.
  intros [Hn Hwf] Hfit. unfold encode_sga.
  destruct (total_bytes_bound _ Hwf) as [Hpos Hall].
  unfold frame_len, sizeof_ether_hdr, sizeof_ipv4_hdr, sizeof_udp_hdr,
    sizeof_u32, ETHER_MAX_LEN in *.
  apply injective_projections.
  - apply encode_fold.
  - cbn [snd]. apply encode_fold_len; [| lia | lia].
    eapply Forall_impl; [exact Hall |]. cbn. lia.
Qed.

Lemma complete_send_packet (d : dpdk) (q : lwip_queue) (t : task) (dest : sockaddr_in) :
  device_up d →
  our_mbuf_pool d = true → alloc_ok d = true → tx_count d ≠ 0 →
  send_peer q t = Some dest →
  (my_default_peer q = None → sga_addrlen (sga t) = sizeof_sockaddr_in) →
  sga_wf (sga t) → frame_len (sga t) ≤ ETHER_MAX_LEN →
  ∃ pkt,
    complete_send d q t = Ok (0, set_done t, Some pkt)
    ∧ d_addr (eth pkt) = ip_to_mac (htonl (sin_addr dest))
    ∧ s_addr (eth pkt) = nic_mac d
    ∧ ether_type (eth pkt) = htons ETHER_TYPE_IPv4
    ∧ next_proto_id (iph pkt) = IPPROTO_UDP
    ∧ dst_addr (iph pkt) = sin_addr dest
    ∧ src_addr (iph pkt) = match my_bound_addr q with
                           | Some b => htonl (sin_addr b)
                           | None => htonl (mac_to_ip (nic_mac d))
                           end
    ∧ dst_port (udp pkt) = htons (sin_port dest)
    ∧ src_port (udp pkt) = match my_bound_addr q with
                           | Some b => htons (sin_port b)
                           | None => htons (sin_port dest)
                           end
    ∧ payload pkt = le_split 4 (sga_numsegs (sga t))
                    ++ flat_map seg_bytes (live_segs (sga t))
    ∧ pkt_len pkt = frame_len (sga t).
Proof.
  intros (Hinit & port & Hport & Hvalid) Hpool Halloc Htx Hpeer Hlen Hwf Hfit.
  unfold complete_send.
  rewrite Hinit, Hport, Hpool, Halloc, Hpeer, Hvalid, (encode_sga_wf _ Hwf Hfit).
  cbn [negb].
  assert (Hchk : bool_decide (my_default_peer q = None)
                 && negb (sizeof_sockaddr_in =? sga_addrlen (sga t)) = false).
  { destruct (my_default_peer q); [done |]. rewrite Hlen by done.
    by rewrite Z.eqb_refl, andb_false_r. }
  rewrite Hchk.
  destruct (total_bytes_bound _ (proj2 Hwf)) as [Hpos _].
  unfold frame_len, sizeof_ether_hdr, sizeof_ipv4_hdr, sizeof_udp_hdr,
    sizeof_u32, ETHER_MAX_LEN in *.
  set (tb := total_bytes (live_segs (sga t))) in *.
  assert (Hw1 : wrap32 (8 + (4 + tb)) = 8 + (4 + tb))
    by (unfold wrap32; apply Z.mod_small; lia).
  assert (Hw2 : wrap32 (14 + 20 + 8 + (4 + tb)) = 14 + 20 + 8 + 4 + tb)
    by (unfold wrap32; rewrite Z.mod_small by lia; lia).
  rewrite Hw1, Hw2. unfold dmtr_u32tou16.
  destruct (8 + (4 + tb) <=? 65535) eqn:Hle; [| apply Z.leb_gt in Hle; lia].
  destruct (tx_count d =? 0) eqn:Ht0; [apply Z.eqb_eq in Ht0; done |].
  eexists. split; [reflexivity |]. cbn. repeat split.
Qed.

(** X24. The array makes the round trip.  A send whose frame fits in one
    datagram, received on a queue bound to the destination address on the
    NIC that the address table gives for it, with [dmtr_malloc] finding
    the memory for each segment, completes the pop with the same segment
    count and the same segments, lengths and bytes.  The address slot
    receives [AF_INET], the UDP source port of the datagram in host order
    and its IPv4 source field as carried: the port is the sender's bound
    port, or the destination port when the sender is not bound; the
    address is [htonl] of the sender's stored bound address, or of the
    table address of its NIC when it is not bound. *)
Theorem packet_round_trip (dS dR : dpdk) (qS qR : lwip_queue) (tS tR : task)
    (dest b slot : sockaddr_in) :
  device_up dS →
  our_mbuf_pool dS = true → alloc_ok dS = true → tx_count dS ≠ 0 →
  send_peer qS tS = Some dest →
  (my_default_peer qS = None → sga_addrlen (sga tS) = sizeof_sockaddr_in) →
  sga_wf (sga tS) → frame_len (sga tS) ≤ ETHER_MAX_LEN →
  port_ok dest →
  (∀ bS, my_bound_addr qS = Some bS → port_ok bS) →
  device_up dR →
  nic_mac dR = ip_to_mac (htonl (sin_addr dest)) →
  my_bound_addr qR = Some b →
  sin_addr b = sin_addr dest → sin_port b = sin_port dest →
  sga_numsegs (sga tS) ≤ DMTR_SGARRAY_MAXSIZE dR →
  heap_serves dR (live_segs (sga tS)) →
  sga_addrlen (sga tR) = sizeof_sockaddr_in →
  sga_addr (sga tR) = Some slot →
  ∃ pkt tR',
    complete_send dS qS tS = Ok (0, set_done tS, Some pkt)
    ∧ complete_recv dR qR tR (Some pkt) = Ok (0, tR')
    ∧ done tR' = true ∧ error tR' = 0
    ∧ sga_numsegs (sga tR') = sga_numsegs (sga tS)
    ∧ live_segs (sga tR') = live_segs (sga tS)
    ∧ sga_addr (sga tR') = Some (peer_seen dS qS dest)
    ∧ sin_addr (peer_seen dS qS dest) = src_addr (iph pkt)
    ∧ htons (sin_port (peer_seen dS qS dest)) = src_port (udp pkt).
Proof.
  intros HupS Hpool Halloc Htx Hpeer Hlen Hwf Hfit Hpd HpS
         (Hinit & port & Hport & Hvalid) Hmac Hb Hba Hbp Hmax Hheap Hal Hslot.
  destruct (complete_send_packet dS qS tS dest HupS Hpool Halloc Htx Hpeer Hlen Hwf Hfit)
    as (pkt & Hsend & Hd & Hs & Hty & Hpr & Hdst & Hsrc & Hdp & Hsp & Hpay & _).
  assert (Hn : 0 ≤ sga_numsegs (sga tS) < 2 ^ 32).
  { destruct Hwf as [Hn Hwf]. pose proof (live_segs_length _ (conj Hn Hwf)) as Hl.
    destruct (total_bytes_bound _ Hwf) as [Hpos Hall].
    revert Hfit. unfold frame_len, sizeof_ether_hdr, sizeof_ipv4_hdr, sizeof_udp_hdr,
      sizeof_u32, ETHER_MAX_LEN.
    assert (Z.of_nat (length (live_segs (sga tS))) ≤ total_bytes (live_segs (sga tS))).
    { clear -Hall. induction Hall as [| g l Hg _ IH]; cbn [length total_bytes foldr].
      - lia.
      - fold (total_bytes l). cbn beta in Hg. cbn [total_bytes foldr] in Hg.
        fold (total_bytes l) in Hg. lia. }
    lia. }
  assert (Hsegs : decode_segs dR (Z.to_nat (sga_numsegs (sga tS))) 0
                    (drop 4 (payload pkt)) (sga_segs (sga tR))
                  = Ok (0, live_segs (sga tS))).
  { rewrite Hpay, <- (live_segs_length _ Hwf).
    rewrite (drop_app_length' _ _ 4) by (symmetry; apply length_le_split).
    rewrite <- (app_nil_r (flat_map _ _)). apply decode_encode; [apply Hwf | | |].
    - destruct (total_bytes_bound _ (proj2 Hwf)) as [_ Hall].
      eapply Forall_impl; [exact Hall |]. cbn.
      revert Hfit. unfold frame_len, sizeof_ether_hdr, sizeof_ipv4_hdr, sizeof_udp_hdr,
        sizeof_u32, ETHER_MAX_LEN. lia.
    - rewrite (live_segs_length _ Hwf). lia.
    - exact Hheap. }
  assert (Hp4 : (length (payload pkt) <? 4)%nat = false).
  { apply Nat.ltb_ge. rewrite Hpay, length_app, length_le_split. lia. }
  assert (Hnum : le_combine (take 4 (payload pkt)) = sga_numsegs (sga tS)).
  { rewrite Hpay, (take_app_length' _ _ 4) by (symmetry; apply length_le_split).
    apply le_combine_split_small. cbn. lia. }
  eexists pkt, _. split; [exact Hsend |].
  unfold complete_recv.
  rewrite Hinit, Hport, Hvalid, Hd, <- Hmac, Hty, Hb, Hdst, Hba, Hpr, Hdp, Hp4, Hnum,
    Hsegs, Hal, Hslot.
  unfold is_same_ether_addr. rewrite bool_decide_eq_true_2 by done.
  unfold ntohs, htons.
  rewrite (bswap16_involutive ETHER_TYPE_IPv4) by (unfold ETHER_TYPE_IPv4; lia).
  rewrite (bswap16_involutive (sin_port dest)) by apply Hpd.
  rewrite Hbp, !Z.eqb_refl. cbn [negb].
  split; [reflexivity |]. cbn [done error sga set_done set_sga sga_numsegs sga_addr].
  assert (Hport' : bswap16 (src_port (udp pkt)) = sin_port (peer_seen dS qS dest)).
  { rewrite Hsp. unfold peer_seen, htons. cbn [sin_port].
    destruct (my_bound_addr qS) as [bS |] eqn:HbS.
    - apply bswap16_involutive, HpS. done.
    - apply bswap16_involutive, Hpd. }
  split; [done |]. split; [done |]. split; [done |]. split; [| split; [| split]].
  - pose proof (live_segs_length _ Hwf) as Hl.
    unfold live_segs at 1. cbn [sga_numsegs sga_segs]. rewrite <- Hl.
    apply take_app_length.
  - rewrite Hport'. unfold peer_seen at 2. cbn [sin_port]. rewrite Hsrc.
    reflexivity.
  - by rewrite Hsrc.
  - cbn [peer_seen sin_port]. rewrite Hsp. by destruct (my_bound_addr qS).
Qed.

(** C8. Receive validation: a datagram whose destination MAC is not the
    NIC's, whose ethertype is not IPv4, whose IP destination is not the
    bound address, whose protocol is not UDP, or whose UDP destination
    port is not the bound port, makes [complete_recv] return 0 with the
    task exactly as it was: nothing is marked done. *)
Theorem complete_recv_drops (d : dpdk) (q : lwip_queue) (t : task) (pkt : rte_mbuf) :
  device_up d →
  refused d q pkt →
  complete_recv d q t (Some pkt) = Ok (0, t).
Proof.
  intros (Hinit & port & Hport & Hvalid) Href.
  unfold complete_recv. rewrite Hinit, Hport, Hvalid. cbn [negb].
  destruct (is_same_ether_addr (nic_mac d) (d_addr (eth pkt))) eqn:Hmac;
    cbn [negb]; [| reflexivity].
  apply bool_decide_eq_true in Hmac.
  destruct (ETHER_TYPE_IPv4 =? ntohs (ether_type (eth pkt))) eqn:Hty;
    cbn [negb]; [| reflexivity].
  apply Z.eqb_eq in Hty.
  destruct (my_bound_addr q) as [b |] eqn:Hb.
  - destruct (dst_addr (iph pkt) =? sin_addr b) eqn:Hip; cbn [negb]; [| reflexivity].
    apply Z.eqb_eq in Hip.
    destruct (IPPROTO_UDP =? next_proto_id (iph pkt)) eqn:Hpr;
      cbn [negb]; [| reflexivity].
    apply Z.eqb_eq in Hpr.
    destruct (ntohs (dst_port (udp pkt)) =? sin_port b) eqn:Hpo;
      cbn [negb]; [| reflexivity].
    apply Z.eqb_eq in Hpo.
    destruct Href as [H | [H | [(b' & Hb' & H) | [H | (b' & Hb' & H)]]]];
      try congruence.
  - destruct (IPPROTO_UDP =? next_proto_id (iph pkt)) eqn:Hpr;
      cbn [negb]; [| reflexivity].
    apply Z.eqb_eq in Hpr.
    destruct Href as [H | [H | [(b' & Hb' & H) | [H | (b' & Hb' & H)]]]];
      congruence.
Qed.

(** C10. An unbound queue sends from the peer's own port: whenever
    [complete_send] hands a datagram to the device, its UDP source port
    field is its UDP destination port field, the destination's [sin_port]
    in network order. *)
Theorem unbound_send_copies_port (d : dpdk) (q : lwip_queue) (t : task)
    (r : Z) (t' : task) (pkt : rte_mbuf) :
  my_bound_addr q = None →
  complete_send d q t = Ok (r, t', Some pkt) →
  src_port (udp pkt) = dst_port (udp pkt)
  ∧ ∃ sa, send_peer q t = Some sa ∧ dst_port (udp pkt) = htons (sin_port sa).
Proof.
  intros Hb. unfold complete_send. rewrite Hb.
  destruct (negb (our_dpdk_init_flag d)); [congruence |].
  destruct (our_dpdk_port_id d) as [port |]; [| congruence].
  destruct (_ && _); [congruence |].
  destruct (negb (our_mbuf_pool d)); [congruence |].
  destruct (negb (alloc_ok d)); [congruence |].
  destruct (send_peer q t) as [sa |]; [| congruence].
  destruct (encode_sga (sga t)) as [body plen].
  destruct (dmtr_u32tou16 _); [congruence |].
  destruct (negb (valid_port d port)); [congruence |].
  destruct (tx_count d =? 0); [congruence |].
  intros [= _ _ <-]. cbn. split; [reflexivity | eauto].
Qed.

(** What [bind] stores is what the validation compares with: the port as
    given, and the address as given unless it is [INADDR_ANY]. *)
Lemma bind_bound (d : dpdk) (q q' : lwip_queue) (a : sockaddr_in) (size : Z) :
  bind d q (Some a) size = (0, q') →
  ∃ b, my_bound_addr q' = Some b
       ∧ sin_port b = sin_port a ∧ sin_port a ≠ 0
       ∧ sin_addr b = (if INADDR_ANY =? sin_addr a
                       then mac_to_ip (nic_mac d) else sin_addr a).
Proof.
  unfold bind. destruct (negb (our_dpdk_init_flag d)); [done |].
  destruct (is_bound q); [done |].
  destruct (negb (sizeof_sockaddr_in =? size)); [done |].
  destruct (our_dpdk_port_id d) as [port |]; [| done].
  destruct (sin_port a =? 0) eqn:Hp; [done |]. apply Z.eqb_neq in Hp.
  destruct (INADDR_ANY =? sin_addr a).
  - destruct (negb (valid_port d port)); [done |].
    intros [= <-]. eexists. split; [reflexivity |]. done.
  - intros [= <-]. eexists. split; [reflexivity |]. done.
Qed.

(** S5: the client's ping aimed at port 9001 reaches the server bound to
    port 9000 and is dropped. *)
Lemma complete_recv_drops_witness :
  ∃ pkt,
    Scenario.datagram Scenario.client_nic Scenario.client_bound_q
      (Scenario.ping_to {| sin_family := AF_INET; sin_port := 9001;
                           sin_addr := 0x0500000A |}) = Some pkt
    ∧ complete_recv Scenario.server_nic Scenario.server_q Scenario.pop_task (Some pkt)
      = Ok (0, Scenario.pop_task).
Proof.
  eexists. split; [vm_compute; reflexivity |].
  apply complete_recv_drops.
  - split; [reflexivity | exists 0; split; reflexivity].
  - do 4 right. exists Scenario.server_addr. split; [reflexivity |].
    vm_compute. discriminate.
Defined.

Lemma unbound_send_copies_port_witness :
  ∃ pkt,
    Scenario.datagram Scenario.client_nic Scenario.client_unbound_q
      (Scenario.ping_to Scenario.server_addr) = Some pkt
    ∧ src_port (udp pkt) = dst_port (udp pkt).
Proof.
  eexists. split; [vm_compute; reflexivity |].
  eapply (unbound_send_copies_port Scenario.client_nic Scenario.client_unbound_q
            (Scenario.ping_to Scenario.server_addr)).
  - reflexivity.
  - vm_compute. reflexivity.
Defined.

(** S4: the client bound to 10.0.0.7:8000 pings the server bound at
    10.0.0.5:9000. *)
Lemma packet_round_trip_witness :
  ∃ pkt tR',
    complete_send Scenario.client_nic Scenario.client_bound_q
      (Scenario.ping_to Scenario.server_addr)
    = Ok (0, set_done (Scenario.ping_to Scenario.server_addr), Some pkt)
    ∧ complete_recv Scenario.server_nic Scenario.server_q Scenario.pop_task (Some pkt)
      = Ok (0, tR')
    ∧ live_segs (sga tR') = live_segs (sga (Scenario.ping_to Scenario.server_addr))
    ∧ sga_addr (sga tR')
      = Some (peer_seen Scenario.client_nic Scenario.client_bound_q Scenario.server_addr).
Proof.
  destruct (packet_round_trip Scenario.client_nic Scenario.server_nic
              Scenario.client_bound_q Scenario.server_q
              (Scenario.ping_to Scenario.server_addr) Scenario.pop_task
              Scenario.server_addr Scenario.server_addr
              {| sin_family := 0; sin_port := 0; sin_addr := 0 |})
    as (pkt & tR' & Hs & Hr & _ & _ & _ & Hl & Ha & _).
  - split; [reflexivity | exists 0; split; reflexivity].
  - reflexivity.
  - reflexivity.
  - vm_compute. discriminate.
  - reflexivity.
  - reflexivity.
  - split; [vm_compute; split; discriminate |].
    repeat constructor.
  - vm_compute. discriminate.
  - vm_compute. split; [discriminate | reflexivity].
  - intros bS [= <-]. vm_compute. split; [discriminate | reflexivity].
  - split; [reflexivity | exists 0; split; reflexivity].
  - vm_compute. reflexivity.
  - reflexivity.
  - reflexivity.
  - reflexivity.
  - vm_compute. discriminate.
  - intros i g _. reflexivity.
  - reflexivity.
  - reflexivity.
  - exists pkt, tR'. repeat split; assumption.
Defined.

(** C2. The peer address does not make the round trip.  The client is
    bound to 10.0.0.7:8000, [sin_addr = 0x0700000A] in network byte
    order, and pings the server bound to 10.0.0.5:9000.  The datagram
    reaches the server's pop with the segment intact, and the address
    slot holds port 8000 with [sin_addr = 0x0A000007], the byte swap of
    the client's address: [complete_send] stores [htonl] of the bound
    address as the IPv4 source, while it writes the destination address
    as it is, and [complete_recv] copies the source field as it is.  An
    unbound client is seen with the server's own port 9000. *)
Lemma peer_address_is_not_the_senders :
  (∃ pkt tR' a,
     Scenario.datagram Scenario.client_nic Scenario.client_bound_q
       (Scenario.ping_to Scenario.server_addr) = Some pkt
     ∧ complete_recv Scenario.server_nic Scenario.server_q Scenario.pop_task (Some pkt)
       = Ok (0, tR')
     ∧ done tR' = true
     ∧ live_segs (sga tR') = live_segs (sga (Scenario.ping_to Scenario.server_addr))
     ∧ sga_addr (sga tR') = Some a
     ∧ sin_port a = sin_port Scenario.client_addr
     ∧ sin_addr a = 0x0A000007
     ∧ a ≠ Scenario.client_addr)
  ∧ (∃ pkt tR' a,
       Scenario.datagram Scenario.client_nic Scenario.client_unbound_q
         (Scenario.ping_to Scenario.server_addr) = Some pkt
       ∧ complete_recv Scenario.server_nic Scenario.server_q Scenario.pop_task (Some pkt)
         = Ok (0, tR')
       ∧ sga_addr (sga tR') = Some a
       ∧ sin_port a = sin_port Scenario.server_addr).
Proof.
  split.
  - eexists. eexists. eexists. split; [vm_compute; reflexivity |].
    split; [vm_compute; reflexivity |].
    split; [reflexivity |]. split; [reflexivity |]. split; [reflexivity |].
    split; [reflexivity |]. split; [reflexivity |]. discriminate.
  - eexists. eexists. eexists. split; [vm_compute; reflexivity |].
    split; [vm_compute; reflexivity |]. split; reflexivity.
Qed.

End PacketProps.

(** * Further properties of the stream back end *)

Module StreamMore.
Import MTCP.
Import StreamProps.

(** ** The work queue and the pending map *)

Lemma ProcessQ_empty (cfg : config) (n : nat) q t :
  workQ q = [] → ProcessQ cfg n q t = Ok (q, t).
Proof. intros H. destruct n; cbn [ProcessQ]; [done |]. by rewrite H. Qed.

(** X1. The budget of [ProcessQ] is additive: [m + n] progress steps are
    [m] steps followed by [n] steps on the queue and socket the first run
    left, and an assertion or undefined step in the first run ends
    both. *)
Theorem ProcessQ_compose (cfg : config) (m n : nat) (q : MTCPQueue) (t : transport) :
  ProcessQ cfg (m + n) q t
  = let! (q1, t1) := ProcessQ cfg m q t in ProcessQ cfg n q1 t1.
Proof.
  revert q t. induction m as [| m IH]; intros q t; [done |].
  cbn [Nat.add ProcessQ].
  destruct (workQ q) as [| qt rest] eqn:Hw.
  - cbn [obind]. symmetry. by apply ProcessQ_empty.
  - destruct (pending q !! qt) as [req |]; [| apply IH].
    destruct (attempt cfg qt q req t) as [[[q1 r1] t1] | |]; cbn [obind]; [| done | done].
    apply IH.
Qed.

Lemma ProcessIncoming_accepts_only (cfg : config) q req t q' req' t' :
  ProcessIncoming cfg q req t = Ok (q', req', t') →
  ∃ a, q' = set_accepts q a.
Proof.
  assert (Hid : q = set_accepts q (accepts q)) by by destruct q.
  assert (Hacc : ∃ a, (flow_val (incoming_accept q req t)).1.1 = set_accepts q a).
  { unfold incoming_accept. destruct (listening q); [| by eexists].
    destruct (mtcp_accept t) as [[[fd a] | |] t0]; cbn; by eexists. }
  unfold ProcessIncoming.
  destruct (incoming_accept q req t) as [[[q1 r1] t1] | [[q1 r1] t1]];
    cbn in Hacc; [by intros [= <- <- <-] |].
  destruct (incoming_header r1 t1) as [[r2 t2] | [r2 t2]]; [by intros [= <- <- <-] |].
  destruct (incoming_payload cfg r2 t2) as [[r3 t3] | [r3 t3]];
    [by intros [= <- <- <-] |].
  destruct (incoming_fill cfg r3); cbn; [| done | done]. by intros [= <- <- <-].
Qed.

Lemma attempt_accepts_only (cfg : config) qt q req t q' req' t' :
  attempt cfg qt q req t = Ok (q', req', t') →
  ∃ a, q' = set_accepts q a.
Proof.
  unfold attempt. destruct (IS_PUSH qt).
  - destruct (ProcessOutgoing cfg req t) as [[r0 t0] | |]; cbn [obind]; [| done | done].
    intros [= <- <- <-]. exists (accepts q). by destruct q.
  - apply ProcessIncoming_accepts_only.
Qed.

Lemma ProcessQ_frame (cfg : config) (n : nat) : ∀ q t q' t',
  ProcessQ cfg n q t = Ok (q', t') →
  workQ q' `suffix_of` workQ q
  ∧ dom (pending q') = dom (pending q)
  ∧ qd q' = qd q ∧ mtcp_qd q' = mtcp_qd q ∧ mtcp_evts q' = mtcp_evts q
  ∧ listening q' = listening q
  ∧ ∀ qt, qt ∉ workQ q → pending q' !! qt = pending q !! qt.
Proof.
  induction n as [| n IH]; intros q t q' t'; cbn [ProcessQ].
  - intros [= <- <-]. done.
  - destruct (workQ q) as [| hd rest] eqn:Hw.
    + intros [= <- <-]. rewrite Hw. done.
    + destruct (pending q !! hd) as [rq |] eqn:Hhd.
      * destruct (attempt cfg hd q rq t) as [[[q1 r1] t1] | |] eqn:Ha;
          cbn [obind]; [| done | done].
        apply attempt_accepts_only in Ha as [a ->].
        intros HQ. apply IH in HQ as (Hs & Hd & H1 & H2 & H3 & H4 & Hu).
        cbn [workQ pending set_work set_accepts qd mtcp_qd mtcp_evts listening] in *.
        rewrite Hw in *.
        split; [| split; [| repeat split; try done]].
        -- etrans; [exact Hs |]. destruct (isDone r1); [by apply suffix_cons_r | done].
        -- rewrite Hd, dom_insert_L.
           assert (hd ∈ dom (pending q)) by (apply elem_of_dom; eauto).
           set_solver.
        -- intros qt Hnot. rewrite Hu.
           ++ rewrite lookup_insert_ne; [done |]. intros ->. apply Hnot. by left.
           ++ intros Hin. apply Hnot. destruct (isDone r1); [by right | done].
      * intros HQ. apply IH in HQ as (Hs & Hd & H1 & H2 & H3 & H4 & Hu).
        cbn [workQ pending set_work qd mtcp_qd mtcp_evts listening] in *.
        split; [by apply suffix_cons_r |]. repeat split; try done.
        intros qt Hnot. apply Hu. intros Hin. apply Hnot. by right.
Qed.

(** X2. Whatever its budget, a run of [ProcessQ] that returns leaves a
    suffix of the work queue (tokens leave at the front only, none is
    added or reordered), adds no key to and removes none from the pending
    map, and leaves the entry of every token that was not in the work
    queue exactly as it was. *)
Theorem ProcessQ_touches_queued_only (cfg : config) (n : nat)
    (q q' : MTCPQueue) (t t' : transport) :
  ProcessQ cfg n q t = Ok (q', t') →
  workQ q' `suffix_of` workQ q
  ∧ dom (pending q') = dom (pending q)
  ∧ ∀ qt, qt ∉ workQ q → pending q' !! qt = pending q !! qt.
Proof. intros H. apply ProcessQ_frame in H. tauto. Qed.

(** X3. [Enqueue] with a token that has no pending entry: when the
    immediate attempt completes, the result is returned and nothing is
    parked (work queue and pending map are as before); otherwise 0 is
    returned, the token goes to the back of the work queue and the request,
    as the attempt left it, into the pending map under the token. *)
Theorem Enqueue_parks (cfg : config) (q q' : MTCPQueue) (qt ret : Z) (s : sgarray)
    (t t' : transport) (r : PendingRequest) :
  pending q !! qt = None →
  Enqueue cfg q qt s t = Ok (ret, r, q', t') →
  if isDone r
  then ret = res r ∧ workQ q' = workQ q ∧ pending q' = pending q
  else ret = 0 ∧ workQ q' = workQ q ++ [qt]
       ∧ pending q' = <[qt := r]> (pending q).
Proof.
  intros Hp. unfold Enqueue.
  destruct (attempt cfg qt q (new_request s) t) as [[[q1 r1] t1] | |] eqn:Ha;
    cbn [obind]; [| done | done].
  destruct (attempt_queue _ _ _ _ _ _ _ _ Ha) as [Hw1 Hp1].
  destruct (isDone r1) eqn:Hd.
  - intros [= <- <- <- <-]. by rewrite Hd.
  - intros H%assert_ok. injection H as <- <- <- <-. rewrite Hd.
    cbn [workQ pending set_work]. by rewrite Hp1, Hw1, Hp.
Qed.

(** a pop on a socket that has nothing yet. *)
Lemma Enqueue_parks_witness :
  ∃ r q' t',
    Enqueue Scenario.debug_build Scenario.conn 2 Scenario.empty_sga (Scenario.link [])
    = Ok (0, r, q', t')
    ∧ isDone r = false
    ∧ workQ q' = workQ Scenario.conn ++ [2]
    ∧ pending q' = <[2 := r]> (pending Scenario.conn).
Proof.
  assert (E : ∃ r q' t',
    Enqueue Scenario.debug_build Scenario.conn 2 Scenario.empty_sga (Scenario.link [])
    = Ok (0, r, q', t') ∧ isDone r = false)
    by (eexists _, _, _; split; vm_compute; reflexivity).
  destruct E as (r & q' & t' & E & Hd). exists r, q', t'.
  split; [exact E |]. split; [exact Hd |].
  pose proof (Enqueue_parks Scenario.debug_build Scenario.conn q' 2 0
                Scenario.empty_sga (Scenario.link []) t' r eq_refl E) as H.
  rewrite Hd in H. destruct H as (_ & H1 & H2). split; [exact H1 | exact H2].
Defined.

(** X4. [Enqueue] with a token that is already pending, when the
    immediate attempt does not complete: with assertions the call stops on
    [assert(pending.find(qt) == pending.end())]; without them
    [std::map::insert] keeps the old entry, so the new request is lost,
    and the token is queued a second time. *)
Theorem Enqueue_resubmit (cfg : config) (q q1 : MTCPQueue) (qt : Z) (s : sgarray)
    (t t1 : transport) (old r : PendingRequest) :
  pending q !! qt = Some old →
  attempt cfg qt q (new_request s) t = Ok (q1, r, t1) →
  isDone r = false →
  Enqueue cfg q qt s t
  = if NDEBUG cfg
    then Ok (0, r, set_work q1 (workQ q ++ [qt]) (pending q), t1)
    else AssertFail.
Proof.
  intros Hp Ha Hd. unfold Enqueue. rewrite Ha. cbn [obind]. rewrite Hd.
  destruct (attempt_queue _ _ _ _ _ _ _ _ Ha) as [Hw1 Hp1].
  rewrite Hp1, Hw1, Hp. unfold assert.
  rewrite bool_decide_eq_false_2 by done. by destruct (NDEBUG cfg).
Qed.

(** token 2 is submitted again while its pop is parked. *)
Lemma Enqueue_resubmit_witness :
  Enqueue Scenario.debug_build Scenario.parked_pop 2 Scenario.empty_sga
    (Scenario.link [])
  = AssertFail.
Proof.
  exact (Enqueue_resubmit Scenario.debug_build Scenario.parked_pop
           Scenario.parked_pop 2 Scenario.empty_sga (Scenario.link [])
           (Scenario.link []) (new_request Scenario.empty_sga)
           (new_request Scenario.empty_sga) eq_refl eq_refl eq_refl).
Defined.

(** ** The byte cursor *)

Lemma mtcp_read_bytes (n : nat) (t t' : transport) (r : io_result (list byte)) :
  mtcp_read n t = (r, t') →
  rx_bytes (rx t) = (match r with Count d => d | _ => [] end) ++ rx_bytes (rx t')
  ∧ tx t' = tx t ∧ acc t' = acc t ∧ sent t' = sent t.
Proof.
  destruct r as [d | |].
  - intros H. apply mtcp_read_count in H. tauto.
  - unfold mtcp_read. destruct (rx t) as [| [c | |] rest] eqn:Hrx; try done.
    + intros [= <-]. by rewrite Hrx.
    + by intros [= <-].
  - unfold mtcp_read. destruct (rx t) as [| [c | |] rest] eqn:Hrx; try done.
    by intros [= <-].
Qed.

(** X5. On a connected queue an attempt of [ProcessIncoming] that
    returns has advanced the byte cursor [num_bytes] by exactly the number
    of bytes it took off the socket, which are a prefix of what the socket
    held; it writes nothing and accepts nothing. *)
Theorem cursor_counts_bytes (cfg : config) (q q' : MTCPQueue)
    (req req' : PendingRequest) (t t' : transport) :
  listening q = false →
  0 ≤ num_bytes req →
  num_bytes req + Z.of_nat (length (rx_bytes (rx t))) < 2 ^ 64 →
  ProcessIncoming cfg q req t = Ok (q', req', t') →
  ∃ d, rx_bytes (rx t) = d ++ rx_bytes (rx t')
       ∧ num_bytes req' = num_bytes req + Z.of_nat (length d)
       ∧ tx t' = tx t ∧ acc t' = acc t ∧ sent t' = sent t.
Proof.
  intros Hl Hn Hb. unfold ProcessIncoming, incoming_accept. rewrite Hl.
  assert (Hh : ∃ d1,
    rx_bytes (rx t) = d1 ++ rx_bytes (rx (flow_val (incoming_header req t)).2)
    ∧ num_bytes (flow_val (incoming_header req t)).1
      = num_bytes req + Z.of_nat (length d1)
    ∧ tx (flow_val (incoming_header req t)).2 = tx t
    ∧ acc (flow_val (incoming_header req t)).2 = acc t
    ∧ sent (flow_val (incoming_header req t)).2 = sent t).
  { unfold incoming_header. destruct (_ <? _).
    - destruct (mtcp_read _ t) as [r t0] eqn:Hrd.
      apply mtcp_read_bytes in Hrd as (Hbytes & ? & ? & ?).
      destruct r as [d | |].
      + exists d. cbn [num_bytes set_num_bytes].
        assert (Hw : wrap64 (num_bytes req + Z.of_nat (length d))
                     = num_bytes req + Z.of_nat (length d)).
        { apply wrap64_small. rewrite Hbytes, length_app in Hb. lia. }
        rewrite Hw. by destruct (_ <? _).
      + exists []. cbn. split; [done |]. split; [lia | done].
      + exists []. cbn. split; [done |]. split; [lia | done].
    - exists []. cbn. split; [done |]. split; [lia | done]. }
  destruct Hh as (d1 & Hb1 & Hn1 & Htx1 & Hacc1 & Hs1).
  destruct (incoming_header req t) as [[r1 t1] | [r1 t1]]; cbn [flow_val fst snd] in *.
  { intros [= <- <- <-]. by exists d1. }
  assert (Hp : ∃ d2,
    rx_bytes (rx t1) = d2 ++ rx_bytes (rx (flow_val (incoming_payload cfg r1 t1)).2)
    ∧ num_bytes (flow_val (incoming_payload cfg r1 t1)).1
      = num_bytes r1 + Z.of_nat (length d2)
    ∧ tx (flow_val (incoming_payload cfg r1 t1)).2 = tx t1
    ∧ acc (flow_val (incoming_payload cfg r1 t1)).2 = acc t1
    ∧ sent (flow_val (incoming_payload cfg r1 t1)).2 = sent t1).
  { unfold incoming_payload. destruct (negb _).
    - exists []. cbn. split; [done |]. split; [lia | done].
    - destruct (_ <? _).
      + destruct (mtcp_read _ t1) as [r t0] eqn:Hrd.
        apply mtcp_read_bytes in Hrd as (Hbytes & ? & ? & ?).
        destruct r as [d | |].
        * exists d. cbn [num_bytes set_num_bytes set_rbuf].
          assert (Hw : wrap64 (num_bytes r1 + Z.of_nat (length d))
                       = num_bytes r1 + Z.of_nat (length d)).
          { apply wrap64_small. rewrite Hb1, Hbytes, !length_app in Hb. lia. }
          rewrite Hw. by destruct (_ <? _).
        * exists []. cbn. split; [done |]. split; [lia | done].
        * exists []. cbn. split; [done |]. split; [lia | done].
      + exists []. cbn. split; [done |]. split; [lia | done]. }
  destruct Hp as (d2 & Hb2 & Hn2 & Htx2 & Hacc2 & Hs2).
  assert (Htot : ∀ r3 t3, flow_val (incoming_payload cfg r1 t1) = (r3, t3) →
            ∃ d, rx_bytes (rx t) = d ++ rx_bytes (rx t3)
                 ∧ num_bytes r3 = num_bytes req + Z.of_nat (length d)
                 ∧ tx t3 = tx t ∧ acc t3 = acc t ∧ sent t3 = sent t).
  { intros r3 t3 E. rewrite E in *. cbn [fst snd] in *. exists (d1 ++ d2).
    rewrite Hb1, Hb2, <- app_assoc, length_app. split; [done |].
    split; [lia |]. split; [congruence |]. split; congruence. }
  destruct (incoming_payload cfg r1 t1) as [[r3 t3] | [r3 t3]]; cbn [flow_val] in *.
  { intros [= <- <- <-]. by apply Htot. }
  destruct (incoming_fill cfg r3) as [r4 | |] eqn:Hf; cbn [obind]; [| done | done].
  intros [= <- <- <-].
  destruct (Htot r3 t3 eq_refl) as (d & ? & Hn3 & ?). exists d.
  split; [done |]. split; [| done].
  rewrite <- Hn3. revert Hf. unfold incoming_fill.
  destruct (_ <? _); [done |]. destruct (fill_sga _ _ _) as [[es l] |]; [| done].
  intros Hfill. do 4 apply assert_ok in Hfill. by injection Hfill as <-.
Qed.

(** the first attempt on a stream that arrives one byte per read. *)
Lemma cursor_counts_bytes_witness :
  ∃ q' req' t' d,
    ProcessIncoming Scenario.debug_build Scenario.conn
      (new_request Scenario.empty_sga)
      (Scenario.link (Scenario.bytewise Scenario.hello))
    = Ok (q', req', t')
    ∧ rx_bytes (rx (Scenario.link (Scenario.bytewise Scenario.hello)))
      = d ++ rx_bytes (rx t')
    ∧ num_bytes req' = num_bytes (new_request Scenario.empty_sga)
                       + Z.of_nat (length d).
Proof.
  assert (E : ∃ q' req' t',
    ProcessIncoming Scenario.debug_build Scenario.conn
      (new_request Scenario.empty_sga)
      (Scenario.link (Scenario.bytewise Scenario.hello))
    = Ok (q', req', t')) by (eexists _, _, _; vm_compute; reflexivity).
  destruct E as (q' & req' & t' & E). exists q', req', t'.
  destruct (cursor_counts_bytes Scenario.debug_build Scenario.conn q'
              (new_request Scenario.empty_sga) req'
              (Scenario.link (Scenario.bytewise Scenario.hello)) t' eq_refl
              ltac:(cbn; lia) ltac:(cbn; lia) E) as (d & H1 & H2 & _).
  exists d. split; [exact E |]. split; [exact H1 | exact H2].
Defined.

(** ** Interest bits, the accept backlog and fresh tokens *)

Lemma Enqueue_evts (cfg : config) q qt s t ret r q' t' :
  Enqueue cfg q qt s t = Ok (ret, r, q', t') → mtcp_evts q' = mtcp_evts q.
Proof.
  unfold Enqueue.
  destruct (attempt cfg qt q (new_request s) t) as [[[q1 r1] t1] | |] eqn:Ha;
    cbn [obind]; [| done | done].
  assert (He : mtcp_evts q1 = mtcp_evts q).
  { revert Ha. unfold attempt. destruct (IS_PUSH qt).
    - destruct (ProcessOutgoing cfg (new_request s) t) as [[r0 t0] | |];
        cbn [obind]; [| done | done]. by intros [= <- <- <-].
    - intros Hi. apply ProcessIncoming_queue in Hi. tauto. }
  destruct (isDone r1).
  - by intros [= <- <- <- <-].
  - intros H%assert_ok. by injection H as <- <- <- <-.
Qed.

(** X6. [push] sets [MTCP_EPOLLOUT] and [pop] sets [MTCP_EPOLLIN] in
    the interest mask on top of what was there, and progress steps after
    it leave the mask alone: the bit is set and no bit that was set is
    cleared. *)
Theorem interest_only_grows (cfg : config) (q q1 q2 : MTCPQueue) (qt ret : Z)
    (s : sgarray) (t t1 t2 : transport) (n : nat) (bit : Z) :
  (push cfg q qt s t = Ok (ret, q1, t1) ∧ bit = MTCP_EPOLLOUT)
  ∨ (∃ s', pop cfg q qt s t = Ok (ret, s', q1, t1) ∧ bit = MTCP_EPOLLIN) →
  ProcessQ cfg n q1 t1 = Ok (q2, t2) →
  mtcp_evts q2 = Z.lor bit (mtcp_evts q)
  ∧ Z.land (mtcp_evts q2) bit = bit
  ∧ ∀ i, 0 ≤ i → Z.testbit (mtcp_evts q) i = true →
         Z.testbit (mtcp_evts q2) i = true.
Proof.
  intros Hsub HQ.
  apply ProcessQ_frame in HQ as (_ & _ & _ & _ & He2 & _).
  assert (He1 : mtcp_evts q1 = Z.lor bit (mtcp_evts q)).
  { destruct Hsub as [[Hpush ->] | (s' & Hpop & ->)].
    - revert Hpush. unfold push.
      destruct (Enqueue cfg _ qt s t) as [[[[ret0 r0] q0] t0] | |] eqn:He;
        cbn [obind]; [| done | done].
      intros [= <- <- <-]. by apply Enqueue_evts in He.
    - revert Hpop. unfold pop.
      destruct (Enqueue cfg _ qt s t) as [[[[ret0 r0] q0] t0] | |] eqn:He;
        cbn [obind]; [| done | done].
      apply Enqueue_evts in He. cbn [mtcp_evts set_evts] in He.
      destruct (ret0 =? 0); [by intros [= <- <- <- <-] |].
      destruct (pending q0 !! qt); [by intros [= <- <- <- <-] |].
      by destruct (NDEBUG cfg). }
  rewrite He2, He1. split; [done |]. split.
  - rewrite Z.land_lor_distr_l, Z.land_diag.
    apply Z.bits_inj'. intros i Hi.
    rewrite Z.lor_spec, Z.land_spec.
    by destruct (Z.testbit bit i), (Z.testbit (mtcp_evts q) i).
  - intros i Hi Hb. rewrite Z.lor_spec, Hb. apply orb_true_r.
Qed.

(** a push on a fresh connection. *)
Lemma interest_only_grows_witness :
  ∃ ret q1 t1,
    push Scenario.debug_build Scenario.conn 1 Scenario.just_hello (Scenario.link [])
    = Ok (ret, q1, t1)
    ∧ mtcp_evts q1 = Z.lor MTCP_EPOLLOUT (mtcp_evts Scenario.conn)
    ∧ Z.land (mtcp_evts q1) MTCP_EPOLLOUT = MTCP_EPOLLOUT.
Proof.
  assert (E : ∃ ret q1 t1,
    push Scenario.debug_build Scenario.conn 1 Scenario.just_hello (Scenario.link [])
    = Ok (ret, q1, t1)) by (eexists _, _, _; vm_compute; reflexivity).
  destruct E as (ret & q1 & t1 & E). exists ret, q1, t1. split; [exact E |].
  destruct (interest_only_grows Scenario.debug_build Scenario.conn q1 q1 1 ret
              Scenario.just_hello (Scenario.link []) t1 t1 0 MTCP_EPOLLOUT
              (or_introl (conj E eq_refl)) eq_refl) as (H1 & H2 & _).
  split; [exact H1 | exact H2].
Defined.

(** X7. [accept] on a listening queue whose socket has no bytes to
    read makes one [mtcp_accept] attempt, puts a new connection at the back
    of the backlog, and hands out the front of the backlog, the oldest
    connection, or 0 when there is none; a failing [mtcp_accept] is not
    reported. *)
Theorem accept_oldest_first (cfg : config) (junk : sgarray) (q : MTCPQueue)
    (t : transport) :
  listening q = true →
  rx t = [] →
  accept cfg junk q t
  = let backlog := accepts q ++ match (mtcp_accept t).1 with
                                | Count c => [c]
                                | _ => []
                                end in
    let t' := (mtcp_accept t).2 in
    match backlog with
    | [] => Ok (0, None, q, t')
    | (newqd, addr) :: rest => Ok (newqd, Some addr, set_accepts q rest, t')
    end.
Proof.
  intros Hl Hrx. cbv zeta.
  unfold accept, assert. rewrite Hl, orb_true_r.
  unfold ProcessIncoming, incoming_accept. rewrite Hl.
  assert (Hrx' : rx (mtcp_accept t).2 = []).
  { unfold mtcp_accept. by destruct (acc t) as [| [fd a | |] r]. }
  assert (Hhdr : ∀ r0, incoming_header r0 (mtcp_accept t).2
                       = (if num_bytes r0 <? sizeof_header
                          then Return else Continue) (r0, (mtcp_accept t).2)).
  { intros r0. unfold incoming_header. destruct (_ <? _); [| done].
    unfold mtcp_read. by rewrite Hrx'. }
  destruct (mtcp_accept t) as [[[fd a] | |] t0]; cbn [fst snd] in *.
  - rewrite Hhdr. cbn [num_bytes set_done new_request obind].
    change (0 <? sizeof_header) with true. cbn [obind accepts set_accepts].
    by destruct (accepts q) as [| [fd0 a0] rest] eqn:Ha; cbn [app].
  - cbn [obind]. rewrite app_nil_r. by destruct (accepts q) as [| [fd0 a0] rest].
  - rewrite Hhdr. cbn [num_bytes set_done new_request obind].
    change (0 <? sizeof_header) with true. cbn [obind].
    rewrite app_nil_r. by destruct (accepts q) as [| [fd0 a0] rest].
Qed.

(** one connection in the backlog, one more waiting on the socket. *)
Lemma accept_oldest_first_witness :
  accept Scenario.debug_build Scenario.empty_sga Scenario.listener Scenario.knock
  = Ok (11, Some Scenario.client_addr,
        set_accepts Scenario.listener [(12, Scenario.server_addr)],
        (mtcp_accept Scenario.knock).2).
Proof.
  exact (accept_oldest_first Scenario.debug_build Scenario.empty_sga
           Scenario.listener Scenario.knock eq_refl eq_refl).
Defined.

(** X8. A [pop] with a token that has no pending entry returns 0
    whenever it returns: a request that completes in the immediate attempt
    with a non-zero result is not in the pending map, where the copy-back
    looks for it, so that path ends on the assertion (or on the
    dereference of [end()]).  After the call the token is either still
    absent or parked, not done, with the caller's array. *)
Theorem pop_fresh_token_returns_zero (cfg : config) (q q' : MTCPQueue)
    (qt ret : Z) (s s' : sgarray) (t t' : transport) :
  pending q !! qt = None →
  pop cfg q qt s t = Ok (ret, s', q', t') →
  ret = 0
  ∧ (pending q' !! qt = None
     ∨ ∃ r, pending q' !! qt = Some r ∧ isDone r = false ∧ sga r = s').
Proof.
  intros Hp. unfold pop, Enqueue.
  set (q0 := set_evts q (Z.lor MTCP_EPOLLIN (mtcp_evts q))).
  destruct (attempt cfg qt q0 (new_request s) t) as [[[q1 r1] t1] | |] eqn:Ha;
    cbn [obind]; [| done | done].
  destruct (attempt_queue _ _ _ _ _ _ _ _ Ha) as [Hw1 Hp1].
  assert (Hp0 : pending q1 !! qt = None) by (by rewrite Hp1).
  destruct (isDone r1) eqn:Hd; cbn [obind].
  - destruct (res r1 =? 0) eqn:E.
    + intros [= <- <- <- <-]. apply Z.eqb_eq in E. split; [done | by left].
    + rewrite Hp0. by destruct (NDEBUG cfg).
  - unfold assert. rewrite Hp0, bool_decide_eq_true_2, orb_true_r by done.
    cbn [obind]. change (0 =? 0) with true. cbv iota.
    intros [= <- <- <- <-]. split; [done |]. right. exists r1.
    cbn [pending set_work]. by rewrite lookup_insert_eq.
Qed.

(** a pop on a socket that has nothing yet. *)
Lemma pop_fresh_token_returns_zero_witness :
  ∃ ret s' q' t',
    pop Scenario.debug_build Scenario.conn 2 Scenario.empty_sga (Scenario.link [])
    = Ok (ret, s', q', t')
    ∧ ret = 0.
Proof.
  assert (E : ∃ ret s' q' t',
    pop Scenario.debug_build Scenario.conn 2 Scenario.empty_sga (Scenario.link [])
    = Ok (ret, s', q', t')) by (eexists _, _, _, _; vm_compute; reflexivity).
  destruct E as (ret & s' & q' & t' & E). exists ret, s', q', t'.
  split; [exact E |].
  exact (proj1 (pop_fresh_token_returns_zero Scenario.debug_build Scenario.conn q'
                  2 ret Scenario.empty_sga s' (Scenario.link []) t' eq_refl E)).
Defined.

(** one progress step on the parked pop that finds a whole frame. *)
Lemma ProcessQ_touches_queued_only_witness :
  ∃ q' t',
    ProcessQ Scenario.debug_build 1 Scenario.parked_pop
      (Scenario.link [Scenario.frame_of Scenario.debug_build Scenario.just_hello])
    = Ok (q', t')
    ∧ workQ q' `suffix_of` workQ Scenario.parked_pop
    ∧ dom (pending q') = dom (pending Scenario.parked_pop).
Proof.
  assert (E : ∃ q' t',
    ProcessQ Scenario.debug_build 1 Scenario.parked_pop
      (Scenario.link [Scenario.frame_of Scenario.debug_build Scenario.just_hello])
    = Ok (q', t')) by (eexists _, _; vm_compute; reflexivity).
  destruct E as (q' & t' & E). exists q', t'. split; [exact E |].
  destruct (ProcessQ_touches_queued_only _ _ _ _ _ _ E) as (H1 & H2 & _).
  split; [exact H1 | exact H2].
Defined.

(** ** Frames in a stream that goes on

    The feeding lemmas of [StreamProps] again, with the bytes [tail] of
    whatever follows the frame on the socket. *)

Section FeedingTail.

Context (cfg : config) (q : MTCPQueue) (s0 : sgarray) (hdr body tail : list byte).
Hypothesis Hlisten : listening q = false.
Hypothesis Hhdr : length hdr = 24%nat.
Hypothesis Hmagic : le_combine (take 8 hdr) = MAGIC cfg.
Hypothesis HdataLen : le_combine (take 8 (drop 8 hdr)) = Z.of_nat (length body).
Hypothesis Hbody : (0 < length body)%nat.
Hypothesis Hsmall : Z.of_nat (length body) < 2 ^ 32.

Local Abbreviation F := (hdr ++ body).
Local Abbreviation N := (24 + length body)%nat.
Local Abbreviation fed := (fed s0 hdr body).

Lemma read_prefix (k n : nat) (cs : list (list byte)) (t : transport) :
  (k < N)%nat → (1 ≤ n ≤ N - k)%nat →
  Forall nonempty cs → concat cs = drop k F ++ tail → rx t = map RxData cs →
  ∃ d cs',
    mtcp_read n t = (Count d, set_rx t (map RxData cs'))
    ∧ (1 ≤ length d ≤ n)%nat
    ∧ d = take (length d) (drop k F)
    ∧ Forall nonempty cs'
    ∧ concat cs' = drop (k + length d) F ++ tail.
Proof.
  intros Hk Hn Hall Hcat Hrx.
  assert (HF : length (drop k F) = (N - k)%nat).
  { rewrite length_drop, length_app, Hhdr. lia. }
  destruct (read_chunks n cs t) as (d & cs' & Hrd & Hlen & Hsplit & Hall');
    try done; [lia | |].
  { apply concat_nonempty. rewrite Hcat. intros E.
    apply (f_equal length) in E. rewrite length_app, HF in E. cbn in E. lia. }
  exists d, cs'. split; [done |]. split; [done |].
  rewrite Hcat in Hsplit. split; [| split; [done |]].
  - apply (f_equal (take (length d))) in Hsplit.
    rewrite take_app_length, take_app_le in Hsplit by lia. done.
  - apply (f_equal (drop (length d))) in Hsplit.
    rewrite drop_app_length, drop_app_le, drop_drop in Hsplit by lia. done.
Qed.

Lemma feed_header_tail (k : nat) (cs : list (list byte)) (t : transport) :
  (k < 24)%nat →
  Forall nonempty cs → concat cs = drop k F ++ tail → rx t = map RxData cs →
  ∃ k' cs',
    (k < k' ≤ 24)%nat ∧ Forall nonempty cs' ∧ concat cs' = drop k' F ++ tail
    ∧ incoming_header (fed k) t
      = (if (k' <? 24)%nat then Return else Continue)
          (fed k', set_rx t (map RxData cs')).
Proof.
  intros Hk Hall Hcat Hrx. unfold incoming_header, sizeof_header.
  cbn [num_bytes MTCP.fed].
  destruct (Z.of_nat k <? 24) eqn:Hlt; [| apply Z.ltb_ge in Hlt; lia].
  rewrite wrap64_small by lia.
  destruct (read_prefix k (Z.to_nat (24 - Z.of_nat k)) cs t)
    as (d & cs' & Hrd & Hlen & Hd & Hall' & Hcat'); try done; [lia | lia |].
  rewrite Hrd.
  exists (k + length d)%nat, cs'.
  split; [lia |]. split; [done |]. split; [done |].
  cbn [num_bytes set_num_bytes set_header header MTCP.fed isDone res rbuf sga].
  rewrite wrap64_small by lia.
  assert (Hreq : set_num_bytes
                   (set_header (fed k)
                      (memwrite (take k hdr ++ zeros (24 - k)) (Z.to_nat (Z.of_nat k)) d))
                   (Z.of_nat k + Z.of_nat (length d))
                 = fed (k + length d)).
  { unfold MTCP.fed, set_num_bytes, set_header.
    cbn [isDone res header rbuf num_bytes sga].
    rewrite Nat2Z.id.
    rewrite (memwrite_fill hdr 24 k d); [| lia | | lia].
    - destruct (k <=? 24)%nat eqn:E1; [| apply Nat.leb_gt in E1; lia].
      destruct (k + length d <=? 24)%nat eqn:E2; [| apply Nat.leb_gt in E2; lia].
      f_equal. lia.
    - rewrite Hd at 1. rewrite drop_app_le by lia.
      rewrite take_app_le; [done |]. rewrite length_drop. lia. }
  rewrite Hreq.
  destruct (Z.of_nat k + Z.of_nat (length d) <? 24) eqn:E;
    [apply Z.ltb_lt in E | apply Z.ltb_ge in E].
  - destruct (k + length d <? 24)%nat eqn:E'; [done |].
    apply Nat.ltb_ge in E'. lia.
  - destruct (k + length d <? 24)%nat eqn:E'; [| done].
    apply Nat.ltb_lt in E'. lia.
Qed.

Lemma feed_payload_tail (k : nat) (cs : list (list byte)) (t : transport) :
  (24 ≤ k < N)%nat →
  Forall nonempty cs → concat cs = drop k F ++ tail → rx t = map RxData cs →
  ∃ k' cs',
    (k < k' ≤ N)%nat ∧ Forall nonempty cs' ∧ concat cs' = drop k' F ++ tail
    ∧ incoming_payload cfg (fed k) t
      = (if (k' <? N)%nat then Return else Continue)
          (fed k', set_rx t (map RxData cs')).
Proof.
  intros Hk Hall Hcat Hrx. unfold incoming_payload, sizeof_header, header_word.
  rewrite (fed_header_full s0 hdr body Hhdr Hbody k) by lia.
  change (8 * 0)%nat with 0%nat. change (8 * 1)%nat with 8%nat.
  rewrite drop_0, Hmagic, HdataLen, Z.eqb_refl. cbn [negb num_bytes MTCP.fed].
  set (L := length body) in *.
  rewrite (wrap64_small (Z.of_nat k - 24)) by lia.
  rewrite (wrap64_small (24 + Z.of_nat L)) by lia.
  rewrite (wrap64_small (Z.of_nat L - (Z.of_nat k - 24))) by lia.
  destruct (Z.of_nat k <? 24 + Z.of_nat L) eqn:Hlt; [| apply Z.ltb_ge in Hlt; lia].
  destruct (read_prefix k (Z.to_nat (Z.of_nat L - (Z.of_nat k - 24))) cs t)
    as (d & cs' & Hrd & Hlen & Hd & Hall' & Hcat'); try done; [lia | lia |].
  rewrite Hrd.
  exists (k + length d)%nat, cs'.
  split; [lia |]. split; [done |]. split; [done |].
  cbn [num_bytes set_num_bytes set_rbuf].
  rewrite (wrap64_small (Z.of_nat k + Z.of_nat (length d))) by lia.
  set (b := match rbuf (fed k) with Some b => b | None => zeros (Z.to_nat (Z.of_nat L)) end).
  assert (Hb : b = take (k - 24) body ++ zeros (L - (k - 24))).
  { subst b. cbn [rbuf MTCP.fed]. destruct (k <=? 24)%nat eqn:E.
    - apply Nat.leb_le in E. replace (k - 24)%nat with 0%nat by lia.
      rewrite take_0, Nat2Z.id. cbn [app]. f_equal. lia.
    - done. }
  assert (Hreq : set_num_bytes
                   (set_rbuf (set_rbuf (fed k) b)
                      (memwrite b (Z.to_nat (Z.of_nat k - 24)) d))
                   (Z.of_nat k + Z.of_nat (length d))
                 = fed (k + length d)).
  { unfold MTCP.fed, set_num_bytes, set_rbuf.
    cbn [isDone res header rbuf num_bytes sga MTCP.fed].
    rewrite Hb. replace (Z.to_nat (Z.of_nat k - 24)) with (k - 24)%nat by lia.
    rewrite (memwrite_fill body L (k - 24) d); [| lia | | lia].
    - destruct (k + length d <=? 24)%nat eqn:E2; [apply Nat.leb_le in E2; lia |].
      f_equal.
      + rewrite !take_ge by lia. by replace (24 - k)%nat with (24 - (k + length d))%nat by lia.
      + f_equal. f_equal; [f_equal; lia | f_equal; lia].
      + lia.
    - rewrite Hd at 1. rewrite drop_app_ge by lia. by rewrite Hhdr. }
  rewrite Hreq.
  destruct (Z.of_nat k + Z.of_nat (length d) <? 24 + Z.of_nat L) eqn:E;
    [apply Z.ltb_lt in E | apply Z.ltb_ge in E].
  - destruct (k + length d <? 24 + L)%nat eqn:E'; [done |].
    apply Nat.ltb_ge in E'. lia.
  - destruct (k + length d <? 24 + L)%nat eqn:E'; [| done].
    apply Nat.ltb_lt in E'. lia.
Qed.

Lemma feed_step_tail (k : nat) (cs : list (list byte)) (t : transport) :
  (k < N)%nat →
  Forall nonempty cs → concat cs = drop k F ++ tail → rx t = map RxData cs →
  ∃ k' cs',
    (k < k' ≤ N)%nat ∧ Forall nonempty cs' ∧ concat cs' = drop k' F ++ tail
    ∧ ProcessIncoming cfg q (fed k) t
      = if (k' <? N)%nat then Ok (q, fed k', set_rx t (map RxData cs'))
        else let! r := incoming_fill cfg (fed N) in
             Ok (q, r, set_rx t (map RxData cs')).
Proof.
  intros Hk Hall Hcat Hrx.
  assert (Hpay : ∀ k0 cs0 t0,
            (24 ≤ k0 < N)%nat → Forall nonempty cs0 →
            concat cs0 = drop k0 F ++ tail →
            t0 = set_rx t (map RxData cs0) ∨ (t0 = t ∧ cs0 = cs) →
            ∃ k' cs',
              (k0 < k' ≤ N)%nat ∧ Forall nonempty cs'
              ∧ concat cs' = drop k' F ++ tail
              ∧ match incoming_payload cfg (fed k0) t0 with
                | Return (r, t') => Ok (q, r, t')
                | Continue (r, t') =>
                    let! r4 := incoming_fill cfg r in Ok (q, r4, t')
                end
                = if (k' <? N)%nat then Ok (q, fed k', set_rx t (map RxData cs'))
                  else let! r := incoming_fill cfg (fed N) in
                       Ok (q, r, set_rx t (map RxData cs'))).
  { intros k0 cs0 t0 Hk0 Hall0 Hcat0 Ht0.
    assert (Hrx0 : rx t0 = map RxData cs0) by (destruct Ht0 as [-> | [-> ->]]; done).
    destruct (feed_payload_tail k0 cs0 t0 Hk0 Hall0 Hcat0 Hrx0)
      as (k' & cs' & Hk' & Hall' & Hcat' & Hp).
    exists k', cs'. split; [done |]. split; [done |]. split; [done |].
    rewrite Hp.
    assert (Ht : set_rx t0 (map RxData cs') = set_rx t (map RxData cs'))
      by (destruct Ht0 as [-> | [-> ->]]; done).
    rewrite Ht.
    destruct (k' <? N)%nat eqn:E; [done |].
    apply Nat.ltb_ge in E. by replace k' with N by lia. }
  unfold ProcessIncoming, incoming_accept. rewrite Hlisten.
  destruct (Nat.lt_ge_cases k 24) as [Hlt | Hge].
  - destruct (feed_header_tail k cs t Hlt Hall Hcat Hrx)
      as (k1 & cs1 & Hk1 & Hall1 & Hcat1 & Hh).
    rewrite Hh. destruct (k1 <? 24)%nat eqn:E.
    + apply Nat.ltb_lt in E. exists k1, cs1.
      split; [lia |]. split; [done |]. split; [done |].
      destruct (k1 <? N)%nat eqn:E'; [done |]. apply Nat.ltb_ge in E'. lia.
    + apply Nat.ltb_ge in E. assert (k1 = 24%nat) as -> by lia.
      assert (H24 : (24 ≤ 24 < N)%nat) by lia.
      destruct (Hpay 24%nat cs1 (set_rx t (map RxData cs1)) H24 Hall1 Hcat1
                  (or_introl eq_refl))
        as (k' & cs' & Hk' & Hall' & Hcat' & Hp).
      exists k', cs'. split; [lia |]. done.
  - assert (Hh : incoming_header (fed k) t = Continue (fed k, t)).
    { unfold incoming_header, sizeof_header. cbn [num_bytes MTCP.fed].
      destruct (Z.of_nat k <? 24) eqn:E; [apply Z.ltb_lt in E; lia | done]. }
    rewrite Hh.
    destruct (Hpay k cs t (conj Hge Hk) Hall Hcat (or_intror (conj eq_refl eq_refl)))
      as (k' & cs' & Hk' & Hall' & Hcat' & Hp).
    exists k', cs'. done.
Qed.

Lemma feed_all_tail (final : PendingRequest) :
  incoming_fill cfg (fed N) = Ok final →
  ∀ (fuel k : nat) (cs : list (list byte)) (t : transport),
    (N - k ≤ fuel)%nat → (k < N)%nat →
    Forall nonempty cs → concat cs = drop k F ++ tail → rx t = map RxData cs →
    ∃ cs', Forall nonempty cs' ∧ concat cs' = tail
           ∧ retry_incoming cfg fuel q (fed k) t
             = Ok (q, final, set_rx t (map RxData cs')).
Proof.
  intros Hfill. induction fuel as [| fuel IH]; intros k cs t Hf Hk Hall Hcat Hrx.
  - lia.
  - cbn [retry_incoming isDone MTCP.fed].
    destruct (feed_step_tail k cs t Hk Hall Hcat Hrx)
      as (k' & cs' & Hk' & Hall' & Hcat' & Hstep).
    rewrite Hstep. destruct (k' <? N)%nat eqn:E.
    + apply Nat.ltb_lt in E. cbn [obind].
      destruct (IH k' cs' (set_rx t (map RxData cs'))) as (cs2 & H1 & H2 & H3);
        try done; [lia |].
      exists cs2. split; [done |]. split; [done |]. by rewrite H3.
    + apply Nat.ltb_ge in E. rewrite Hfill. cbn [obind].
      exists cs'. split; [done |]. split.
      * rewrite Hcat', drop_ge; [done |]. rewrite length_app, Hhdr. lia.
      * apply retry_incoming_done. by eapply incoming_fill_done.
Qed.

End FeedingTail.

(** A parked pop under [wait]: on a connected queue the decoder does not
    look at the queue, and the rounds of [wait] are the attempts of
    [retry_incoming]. *)

Lemma ProcessIncoming_any_queue (cfg : config) (q q2 : MTCPQueue)
    (req : PendingRequest) (t : transport) :
  listening q = false → listening q2 = false →
  ProcessIncoming cfg q2 req t
  = let! (_, r, t') := ProcessIncoming cfg q req t in Ok (q2, r, t').
Proof.
  intros H1 H2. unfold ProcessIncoming, incoming_accept. rewrite H1, H2.
  destruct (incoming_header req t) as [[r1 t1] | [r1 t1]]; [done |].
  destruct (incoming_payload cfg r1 t1) as [[r2 t2] | [r2 t2]]; [done |].
  by destruct (incoming_fill cfg r2).
Qed.

Lemma retry_incoming_any_queue (cfg : config) (n : nat) :
  ∀ (q q2 : MTCPQueue) (req r' : PendingRequest) (t t' : transport),
    listening q = false → listening q2 = false →
    retry_incoming cfg n q req t = Ok (q, r', t') →
    retry_incoming cfg n q2 req t = Ok (q2, r', t').
Proof.
  induction n as [| n IH]; intros q q2 req r' t t' H1 H2; cbn [retry_incoming].
  - destruct (isDone req); by intros [= <- <-].
  - destruct (isDone req); [by intros [= <- <-] |].
    rewrite (ProcessIncoming_any_queue cfg q q2) by done.
    destruct (ProcessIncoming cfg q req t) as [[[q1 r1] t1] | |] eqn:E;
      cbn [obind]; [| done | done].
    apply ProcessIncoming_queue in E as (_ & _ & _ & _ & _ & Hq).
    rewrite (Hq H1). by apply IH.
Qed.

Lemma wait_drives_pop (cfg : config) (qt : Z) (rest : list Z) :
  IS_PUSH qt = false →
  ∀ (fuel : nat) (q : MTCPQueue) (r r' : PendingRequest) (t t' : transport),
    listening q = false → workQ q = qt :: rest →
    pending q !! qt = Some r → isDone r = false →
    retry_incoming cfg fuel q r t = Ok (q, r', t') → isDone r' = true →
    wait_loop cfg fuel qt q t
    = Ok (Some (res r', set_work q rest (<[qt := r']> (pending q)), t')).
Proof.
  intros Hpop. induction fuel as [| fuel IH];
    intros q r r' t t' Hl Hw Hp Hnd Hretry Hdone.
  - cbn [retry_incoming] in Hretry. rewrite Hnd in Hretry.
    injection Hretry as <- <-. congruence.
  - cbn [retry_incoming] in Hretry. rewrite Hnd in Hretry.
    destruct (ProcessIncoming cfg q r t) as [[[q1 r1] t1] | |] eqn:E;
      cbn [obind] in Hretry; [| done | done].
    pose proof (ProcessIncoming_queue _ _ _ _ _ _ _ E) as (_ & _ & _ & _ & _ & Hq).
    specialize (Hq Hl). subst q1.
    cbn [wait_loop]. rewrite Hp, Hnd. cbn [ProcessQ]. rewrite Hw, Hp.
    unfold attempt. rewrite Hpop, E. cbn [obind].
    destruct (isDone r1) eqn:Hd1.
    + rewrite retry_incoming_done in Hretry by done.
      injection Hretry as <- <-.
      destruct fuel; cbn [wait_loop pending set_work];
        rewrite lookup_insert_eq, Hd1; done.
    + set (q1 := set_work q (workQ q) (<[qt:=r1]> (pending q))).
      rewrite (IH q1 r1 r' t1 t'); try done.
      * subst q1. cbn [pending set_work]. rewrite insert_insert_eq.
        do 3 f_equal.
      * subst q1. cbn. by rewrite lookup_insert_eq.
      * by apply (retry_incoming_any_queue cfg fuel q q1).
Qed.

(** X9. A pop parked before its frame arrives takes exactly one frame
    off the stream.  When the bytes that follow a would-block are the frame
    of [s] followed by any [tail], in non-empty pieces of any sizes, [pop]
    returns 0, [wait] returns the payload byte count after at most as many
    rounds as the frame has bytes, [poll] then hands out the segments of
    [s], the work queue is empty again, and the socket still holds
    [tail], all of it. *)
Theorem parked_pop_takes_one_frame (cfg : config) (s s0 : sgarray)
    (q : MTCPQueue) (qt : Z) (t : transport)
    (chunks : list (list byte)) (tail : list byte) :
  0 ≤ MAGIC cfg < 2 ^ 64 →
  sgarray_wf s → 1 ≤ num_bufs s ≤ 8 → payload_bytes s ≤ 65536 →
  NDEBUG cfg = true ∨ num_bufs s = 1 →
  num_bufs s ≤ MAX_SGARRAY_SIZE cfg →
  listening q = false → IS_PUSH qt = false →
  workQ q = [] → pending q !! qt = None →
  Forall nonempty chunks →
  concat chunks = frame_header cfg s ++ frame_body s ++ tail →
  rx t = RxAgain :: map RxData chunks →
  ∃ q1 t1 q2 sg chunks',
    pop cfg q qt s0 t = Ok (0, s0, q1, t1)
    ∧ wait cfg (24 + length (frame_body s)) q1 qt t1
      = Ok (Some (payload_bytes s, q2, set_rx t (map RxData chunks')))
    ∧ poll cfg q2 qt s0 = Ok (payload_bytes s, sg, q2)
    ∧ num_bufs sg = num_bufs s ∧ segments sg = segments s
    ∧ workQ q2 = []
    ∧ Forall nonempty chunks' ∧ concat chunks' = tail.
Proof.
  intros Hmagic Hwf Hnb Hsize Hbuild Hmax Hl Hpop Hw Hp Hall Hcat Hrx.
  destruct (frame_body_length s Hwf Hnb) as [Hlen Hpos].
  destruct (frame_header_words cfg s Hmagic Hwf Hnb Hsize) as (Hw0 & Hw1 & Hw2).
  pose proof (frame_header_length cfg s) as Hhl.
  set (q0 := set_evts q (Z.lor MTCP_EPOLLIN (mtcp_evts q))).
  set (t1 := set_rx t (map RxData chunks)).
  set (q1 := set_work q0 [qt] (<[qt := new_request s0]> (pending q0))).
  assert (Hfirst : ProcessIncoming cfg q0 (new_request s0) t
                   = Ok (q0, new_request s0, t1)).
  { unfold ProcessIncoming, incoming_accept. cbn [listening q0 set_evts].
    rewrite Hl. unfold incoming_header. cbn [num_bytes new_request].
    change (0 <? sizeof_header) with true. cbv iota.
    unfold mtcp_read. by rewrite Hrx. }
  assert (Hpopped : pop cfg q qt s0 t = Ok (0, s0, q1, t1)).
  { unfold pop. fold q0. unfold Enqueue, attempt. rewrite Hpop, Hfirst.
    cbn [obind isDone new_request]. unfold assert.
    cbn [pending q0 set_evts]. rewrite Hp.
    rewrite bool_decide_eq_true_2 by done. rewrite orb_true_r.
    cbn [obind]. change (0 =? 0) with true. cbv iota.
    cbn [workQ q0 set_evts sga new_request]. rewrite Hw. done. }
  assert (Hb0 : (0 < length (frame_body s))%nat) by lia.
  assert (Hb32 : Z.of_nat (length (frame_body s)) < 2 ^ 32) by lia.
  assert (Hfill : incoming_fill cfg
                    (fed s0 (frame_header cfg s) (frame_body s)
                       (24 + length (frame_body s)))
                  = Ok (decoded cfg s s0)) by (by apply fill_decoded).
  assert (Hcat0 : concat chunks
                  = drop 0 (frame_header cfg s ++ frame_body s) ++ tail)
    by (by rewrite drop_0, <- app_assoc).
  destruct (feed_all_tail cfg q1 s0 (frame_header cfg s) (frame_body s) tail
              Hl Hhl Hw0 Hw1 Hb0 Hb32 (decoded cfg s s0) Hfill
              (24 + length (frame_body s))%nat 0%nat chunks t1
              ltac:(lia) ltac:(lia) Hall Hcat0 eq_refl)
    as (cs' & Hall' & Hcat' & Hretry).
  change (fed s0 (frame_header cfg s) (frame_body s) 0) with (new_request s0)
    in Hretry.
  assert (Hres : res (decoded cfg s s0) = payload_bytes s).
  { cbn [res decoded]. apply to_ssize_small. unfold payload_bytes in *. lia. }
  set (q2 := set_work q1 [] (<[qt := decoded cfg s s0]> (pending q1))).
  exists q1, t1, q2, (sga (decoded cfg s s0)), cs'.
  split; [done |]. split; [| split; [| split; [| split; [| split]]]].
  - unfold wait. cbn [pending q1 set_work]. rewrite lookup_insert_eq.
    rewrite (wait_drives_pop cfg qt [] Hpop _ q1 (new_request s0)
               (decoded cfg s s0) t1 (set_rx t1 (map RxData cs')));
      try done.
    + by rewrite Hres.
    + cbn. by rewrite lookup_insert_eq.
  - unfold poll. cbn [pending q2 set_work]. rewrite lookup_insert_eq.
    cbn [isDone decoded]. by rewrite Hres.
  - done.
  - unfold segments at 1. cbn [sga decoded num_bufs bufs].
    rewrite <- (segments_length s Hwf). apply take_app_length.
  - done.
  - done.
Qed.

(** the frame of ["hello"] followed by "ping", one byte per read. *)
Lemma parked_pop_takes_one_frame_witness :
  ∃ q1 t1 q2 sg chunks',
    pop Scenario.debug_build Scenario.conn 2 Scenario.empty_sga
      (Scenario.late_link
         (Scenario.bytewise
            (Scenario.frame_of Scenario.debug_build Scenario.just_hello
             ++ Scenario.ping)))
    = Ok (0, Scenario.empty_sga, q1, t1)
    ∧ wait Scenario.debug_build (24 + length (frame_body Scenario.just_hello))
        q1 2 t1
      = Ok (Some (payload_bytes Scenario.just_hello, q2,
                  set_rx (Scenario.late_link
                            (Scenario.bytewise
                               (Scenario.frame_of Scenario.debug_build
                                  Scenario.just_hello ++ Scenario.ping)))
                    (map RxData chunks')))
    ∧ poll Scenario.debug_build q2 2 Scenario.empty_sga
      = Ok (payload_bytes Scenario.just_hello, sg, q2)
    ∧ num_bufs sg = num_bufs Scenario.just_hello
    ∧ segments sg = segments Scenario.just_hello
    ∧ workQ q2 = []
    ∧ Forall nonempty chunks' ∧ concat chunks' = Scenario.ping.
Proof.
  apply (parked_pop_takes_one_frame Scenario.debug_build Scenario.just_hello
           Scenario.empty_sga Scenario.conn 2
           (Scenario.late_link
              (Scenario.bytewise
                 (Scenario.frame_of Scenario.debug_build Scenario.just_hello
                  ++ Scenario.ping)))
           (Scenario.bytewise
              (Scenario.frame_of Scenario.debug_build Scenario.just_hello
               ++ Scenario.ping))
           Scenario.ping).
  - cbn. lia.
  - split; [cbn; lia | repeat constructor].
  - cbn. lia.
  - vm_compute. discriminate.
  - right. reflexivity.
  - cbn. lia.
  - reflexivity.
  - reflexivity.
  - reflexivity.
  - reflexivity.
  - apply bytewise_chunks.
  - rewrite (proj2 (bytewise_chunks _)). vm_compute. reflexivity.
  - reflexivity.
Defined.

(** ** Pushes that do not complete at once *)

Lemma wait_loop_round (cfg : config) (f : nat) (qt : Z) (q : MTCPQueue)
    (t : transport) (r : PendingRequest) :
  pending q !! qt = Some r → isDone r = false →
  wait_loop cfg (S f) qt q t
  = let! (q1, t1) := ProcessQ cfg 1 q t in wait_loop cfg f qt q1 t1.
Proof. intros Hp Hnd. cbn [wait_loop]. by rewrite Hp, Hnd. Qed.

Lemma ProcessQ_one (cfg : config) (q : MTCPQueue) (t : transport) (qt : Z)
    (rest : list Z) (req : PendingRequest) :
  workQ q = qt :: rest → pending q !! qt = Some req →
  ProcessQ cfg 1 q t
  = let! (q1, req1, t1) := attempt cfg qt q req t in
    Ok (set_work q1 (if isDone req1 then rest else workQ q1)
          (<[qt := req1]> (pending q1)), t1).
Proof.
  intros Hw Hp. cbn [ProcessQ]. rewrite Hw, Hp.
  by destruct (attempt cfg qt q req t) as [[[q1 r1] t1] | |].
Qed.

Section Outgoing.

Context (cfg : config) (s : sgarray).
Hypothesis Hwf : sgarray_wf s.
Hypothesis Hnb : 1 ≤ num_bufs s ≤ 8.
Hypothesis Hsize : payload_bytes s ≤ 65536.

Local Abbreviation frame := (frame_header cfg s ++ frame_body s).

Lemma frame_length :
  length frame = (24 + length (frame_body s))%nat
  ∧ Z.of_nat (length frame) < 2 ^ 32.
Proof.
  destruct (frame_body_length s Hwf Hnb) as [Hlen Hpos].
  rewrite length_app, frame_header_length. split; [done | lia].
Qed.

Lemma ProcessOutgoing_again (req : PendingRequest) (t : transport)
    (r : list tx_event) :
  sga req = s → tx t = TxAgain :: r →
  ProcessOutgoing cfg req t
  = Ok (set_header req (frame_header cfg s),
        {| rx := rx t; tx := r; acc := acc t; sent := sent t |}).
Proof.
  intros Hs Htx. unfold ProcessOutgoing. cbv zeta. rewrite Hs.
  fold (frame_header cfg s). unfold mtcp_writev. by rewrite Htx.
Qed.

Lemma ProcessOutgoing_room (req : PendingRequest) (t : transport) (k : nat)
    (r : list tx_event) :
  sga req = s → 0 ≤ num_bytes req < 2 ^ 32 → tx t = TxRoom k :: r →
  ProcessOutgoing cfg req t
  = let n := num_bytes req + Z.of_nat (length (take k frame)) in
    let req2 := set_num_bytes (set_header req (frame_header cfg s)) n in
    let t' := {| rx := rx t; tx := r; acc := acc t;
                 sent := sent t ++ take k frame |} in
    if n <? Z.of_nat (length frame) then assert cfg (n =? 0) (Ok (req2, t'))
    else Ok (set_done req2 (payload_bytes s), t').
Proof.
  intros Hs Hn Htx. destruct frame_length as [Hfl Hf32].
  destruct (frame_body_length s Hwf Hnb) as [Hlen Hpos].
  unfold ProcessOutgoing. cbv zeta. rewrite Hs.
  fold (frame_header cfg s). fold (frame_body s).
  rewrite (frame_totalLen s Hwf Hnb Hsize).
  unfold mtcp_writev. rewrite Htx.
  cbn [num_bytes set_num_bytes set_header].
  assert (Hc : (length (take k frame) ≤ length frame)%nat)
    by (rewrite length_take; lia).
  unfold sizeof_header. rewrite !wrap64_small by lia.
  replace (Z.of_nat (length (frame_body s)) + 24)
    with (Z.of_nat (length frame)) by lia.
  destruct (_ <? _) eqn:E; [done |].
  do 3 f_equal.
  rewrite (to_ssize_wrap _ _ (dataSize_of_sum _)).
  apply to_ssize_small. unfold payload_bytes in *. lia.
Qed.

(** The rounds of [wait] on a push parked at the head of the work queue:
    as many would-blocks as the socket has in store, then the write. *)
Lemma wait_drives_push (qt : Z) (rest : list Z) (k : nat) (r : list tx_event) :
  IS_PUSH qt = true → (length frame ≤ k)%nat →
  ∀ (n : nat) (q : MTCPQueue) (r0 : PendingRequest) (t : transport),
    workQ q = qt :: rest → pending q !! qt = Some r0 →
    isDone r0 = false → num_bytes r0 = 0 → sga r0 = s →
    tx t = replicate n TxAgain ++ TxRoom k :: r →
    ∃ rf,
      wait_loop cfg (S n) qt q t
      = Ok (Some (payload_bytes s,
                  set_work q rest (<[qt := rf]> (pending q)),
                  tx_next t r frame))
      ∧ isDone rf = true ∧ res rf = payload_bytes s ∧ sga rf = s.
Proof.
  intros Hpush Hk. destruct frame_length as [Hfl Hf32].
  induction n as [| n IH]; intros q r0 t Hw Hp Hnd Hnb0 Hs Htx.
  - cbn [replicate app] in Htx.
    pose proof (ProcessOutgoing_room r0 t k r Hs ltac:(lia) Htx) as HPO.
    cbv zeta in HPO. rewrite take_ge in HPO by lia. rewrite Hnb0 in HPO.
    rewrite Z.add_0_l, Z.ltb_irrefl in HPO.
    eexists. split; [| split; [| split]].
    + rewrite (wait_loop_round cfg 0 qt q t r0 Hp Hnd).
      rewrite (ProcessQ_one cfg q t qt rest r0 Hw Hp).
      unfold attempt. rewrite Hpush, HPO. cbn [obind isDone set_done].
      cbn [wait_loop pending set_work]. rewrite lookup_insert_eq.
      cbn [isDone set_done res]. reflexivity.
    + done.
    + done.
    + done.
  - cbn [replicate app] in Htx.
    pose proof (ProcessOutgoing_again r0 t _ Hs Htx) as HPO.
    set (r1 := set_header r0 (frame_header cfg s)) in *.
    set (t1 := {| rx := rx t; tx := replicate n TxAgain ++ TxRoom k :: r;
                  acc := acc t; sent := sent t |}) in *.
    set (q1 := set_work q (workQ q) (<[qt := r1]> (pending q))).
    destruct (IH q1 r1 t1) as (rf & Hwait & Hrf); try done.
    { subst q1. cbn. by rewrite lookup_insert_eq. }
    exists rf. split; [| done].
    rewrite (wait_loop_round cfg (S n) qt q t r0 Hp Hnd).
    rewrite (ProcessQ_one cfg q t qt rest r0 Hw Hp).
    unfold attempt. rewrite Hpush, HPO. cbn [obind].
    change (isDone r1) with (isDone r0). rewrite Hnd.
    fold q1. rewrite Hwait.
    subst q1. cbn [pending set_work]. rewrite insert_insert_eq.
    done.
Qed.

Lemma wait_push_blocked (qt : Z) (rest : list Z) :
  IS_PUSH qt = true →
  ∀ (n : nat) (q : MTCPQueue) (r0 : PendingRequest) (t : transport)
    (r : list tx_event),
    workQ q = qt :: rest → pending q !! qt = Some r0 →
    isDone r0 = false → sga r0 = s →
    tx t = replicate n TxAgain ++ r →
    wait_loop cfg n qt q t = Ok None.
Proof.
  intros Hpush. induction n as [| n IH]; intros q r0 t r Hw Hp Hnd Hs Htx.
  - cbn [wait_loop]. by rewrite Hp, Hnd.
  - cbn [replicate app] in Htx.
    pose proof (ProcessOutgoing_again r0 t _ Hs Htx) as HPO.
    rewrite (wait_loop_round cfg n qt q t r0 Hp Hnd).
    rewrite (ProcessQ_one cfg q t qt rest r0 Hw Hp).
    unfold attempt. rewrite Hpush, HPO. cbn [obind isDone set_header].
    rewrite Hnd.
    apply (IH _ (set_header r0 (frame_header cfg s)) _ r); try done.
    cbn. by rewrite lookup_insert_eq.
Qed.

End Outgoing.

(** X10. A push that finds the socket unwilling [n + 1] times and
    then finds room for the frame: [push] returns 0 and writes nothing,
    [wait] is still not done after [n] rounds and returns the payload byte
    count after [n + 1], having written the frame once, and [poll] then
    reports that count. *)
Theorem parked_push_completes (cfg : config) (s : sgarray) (q : MTCPQueue)
    (qt : Z) (t : transport) (n k : nat) (r : list tx_event) :
  sgarray_wf s → 1 ≤ num_bufs s ≤ 8 → payload_bytes s ≤ 65536 →
  IS_PUSH qt = true → workQ q = [] → pending q !! qt = None →
  tx t = replicate (S n) TxAgain ++ TxRoom k :: r →
  (length (frame_header cfg s ++ frame_body s) ≤ k)%nat →
  ∃ q1 t1 q2,
    push cfg q qt s t = Ok (0, q1, t1)
    ∧ sent t1 = sent t
    ∧ wait cfg n q1 qt t1 = Ok None
    ∧ wait cfg (S n) q1 qt t1
      = Ok (Some (payload_bytes s, q2,
                  tx_next t r (frame_header cfg s ++ frame_body s)))
    ∧ workQ q2 = []
    ∧ poll cfg q2 qt s = Ok (payload_bytes s, s, q2).
Proof.
  intros Hwf Hnb Hsize Hpush Hw Hp Htx Hk.
  set (q0 := set_evts q (Z.lor MTCP_EPOLLOUT (mtcp_evts q))).
  set (r1 := set_header (new_request s) (frame_header cfg s)).
  set (t1 := {| rx := rx t; tx := replicate n TxAgain ++ TxRoom k :: r;
                acc := acc t; sent := sent t |}).
  set (q1 := set_work q0 [qt] (<[qt := r1]> (pending q0))).
  assert (Hpushed : push cfg q qt s t = Ok (0, q1, t1)).
  { unfold push. fold q0. unfold Enqueue, attempt. rewrite Hpush.
    rewrite (ProcessOutgoing_again cfg s (new_request s) t
               (replicate n TxAgain ++ TxRoom k :: r) eq_refl Htx).
    fold r1 t1. cbn [obind]. change (isDone r1) with false. cbv iota.
    unfold assert. cbn [pending q0 set_evts]. rewrite Hp.
    rewrite bool_decide_eq_true_2 by done. rewrite orb_true_r.
    cbn [obind]. subst q1 q0. cbn [workQ set_evts pending]. by rewrite Hw. }
  assert (Hp1 : pending q1 !! qt = Some r1).
  { cbn. by rewrite lookup_insert_eq. }
  destruct (wait_drives_push cfg s Hwf Hnb Hsize qt [] k r Hpush Hk n q1 r1 t1)
    as (rf & Hwait & Hdone & Hres & Hsga); try done.
  exists q1, t1, (set_work q1 [] (<[qt := rf]> (pending q1))).
  split; [done |]. split; [done |]. split; [| split; [| split]].
  - unfold wait. rewrite Hp1.
    by apply (wait_push_blocked cfg s qt [] Hpush n q1 r1 t1 (TxRoom k :: r)).
  - unfold wait. rewrite Hp1. exact Hwait.
  - done.
  - unfold poll. cbn [pending set_work]. rewrite lookup_insert_eq.
    by rewrite Hdone, Hres, Hsga.
Qed.

(** two would-blocks, then room. *)
Lemma parked_push_completes_witness :
  ∃ q1 t1 q2,
    push Scenario.debug_build Scenario.conn 1 Scenario.just_hello
      (Scenario.tx_link [TxAgain; TxAgain; TxRoom 4096])
    = Ok (0, q1, t1)
    ∧ sent t1 = sent (Scenario.tx_link [TxAgain; TxAgain; TxRoom 4096])
    ∧ wait Scenario.debug_build 1 q1 1 t1 = Ok None
    ∧ wait Scenario.debug_build 2 q1 1 t1
      = Ok (Some (payload_bytes Scenario.just_hello, q2,
                  tx_next (Scenario.tx_link [TxAgain; TxAgain; TxRoom 4096]) []
                    (frame_header Scenario.debug_build Scenario.just_hello
                     ++ frame_body Scenario.just_hello)))
    ∧ workQ q2 = []
    ∧ poll Scenario.debug_build q2 1 Scenario.just_hello
      = Ok (payload_bytes Scenario.just_hello, Scenario.just_hello, q2).
Proof.
  apply (parked_push_completes Scenario.debug_build Scenario.just_hello
           Scenario.conn 1 (Scenario.tx_link [TxAgain; TxAgain; TxRoom 4096])
           1 4096 []).
  - split; [cbn; lia | repeat constructor].
  - cbn. lia.
  - vm_compute. discriminate.
  - reflexivity.
  - reflexivity.
  - reflexivity.
  - reflexivity.
  - vm_compute. lia.
Defined.

(** X11. A short write.  When the socket takes only the first [k]
    bytes of the frame, [0 < k < |frame|], [ProcessOutgoing] stops on
    [assert(req.num_bytes == 0)]; with assertions compiled out the request
    is parked, and the next attempt writes the whole frame again from its
    first byte, so the peer receives [k] bytes of the frame followed by
    the frame. *)
Theorem short_write_resends_frame (cfg : config) (s : sgarray) (q : MTCPQueue)
    (qt : Z) (t : transport) (k k2 : nat) (r : list tx_event) :
  sgarray_wf s → 1 ≤ num_bufs s ≤ 8 → payload_bytes s ≤ 65536 →
  IS_PUSH qt = true → workQ q = [] → pending q !! qt = None →
  tx t = TxRoom k :: TxRoom k2 :: r →
  (0 < k < length (frame_header cfg s ++ frame_body s))%nat →
  (length (frame_header cfg s ++ frame_body s) ≤ k2)%nat →
  if NDEBUG cfg then
    ∃ q1 t1 q2,
      push cfg q qt s t = Ok (0, q1, t1)
      ∧ wait cfg 1 q1 qt t1
        = Ok (Some (payload_bytes s, q2,
                    tx_next t r
                      (take k (frame_header cfg s ++ frame_body s)
                       ++ frame_header cfg s ++ frame_body s)))
  else push cfg q qt s t = AssertFail.
Proof.
  intros Hwf Hnb Hsize Hpush Hw Hp Htx Hk Hk2.
  destruct (frame_length cfg s Hwf Hnb Hsize) as [Hfl Hf32].
  remember (frame_header cfg s ++ frame_body s) as frame eqn:Hframe.
  set (q0 := set_evts q (Z.lor MTCP_EPOLLOUT (mtcp_evts q))).
  pose proof (ProcessOutgoing_room cfg s Hwf Hnb Hsize (new_request s) t k
                (TxRoom k2 :: r) eq_refl ltac:(cbn; lia) Htx) as HPO.
  cbv zeta in HPO. rewrite <- Hframe in HPO.
  cbn [num_bytes new_request] in HPO. rewrite Z.add_0_l in HPO.
  rewrite length_take in HPO.
  replace (k `min` length frame)%nat with k in HPO by lia.
  destruct (Z.of_nat k <? Z.of_nat (length frame)) eqn:E;
    [| apply Z.ltb_ge in E; lia].
  destruct (Z.of_nat k =? 0) eqn:E0; [apply Z.eqb_eq in E0; lia |].
  unfold assert in HPO. rewrite orb_false_r in HPO.
  destruct (NDEBUG cfg) eqn:Hbuild.
  - set (r1 := set_num_bytes (set_header (new_request s) (frame_header cfg s))
                 (Z.of_nat k)) in *.
    set (t1 := {| rx := rx t; tx := TxRoom k2 :: r; acc := acc t;
                  sent := sent t ++ take k frame |}) in *.
    set (q1 := set_work q0 [qt] (<[qt := r1]> (pending q0))).
    assert (Hp1 : pending q1 !! qt = Some r1).
    { cbn. by rewrite lookup_insert_eq. }
    pose proof (ProcessOutgoing_room cfg s Hwf Hnb Hsize r1 t1 k2 r
                  eq_refl ltac:(cbn; lia) eq_refl) as HPO2.
    cbv zeta in HPO2. rewrite <- Hframe in HPO2.
    rewrite take_ge in HPO2 by lia.
    cbn [num_bytes r1 set_num_bytes] in HPO2.
    destruct (Z.of_nat k + Z.of_nat (length frame) <? Z.of_nat (length frame))
      eqn:E2; [apply Z.ltb_lt in E2; lia |].
    eexists q1, t1, _. split.
    + unfold push. fold q0. unfold Enqueue, attempt. rewrite Hpush, HPO.
      cbn [obind]. change (isDone r1) with false. cbv iota.
      unfold assert. rewrite Hbuild. cbn [orb obind]. subst q1 q0.
      cbn [pending set_evts workQ]. rewrite Hp, Hw. done.
    + unfold wait. rewrite Hp1.
      rewrite (wait_loop_round cfg 0 qt q1 t1 r1 Hp1 eq_refl).
      rewrite (ProcessQ_one cfg q1 t1 qt [] r1 eq_refl Hp1).
      unfold attempt. rewrite Hpush, HPO2. cbn [obind isDone set_done].
      cbn [wait_loop pending set_work]. rewrite lookup_insert_eq.
      cbn [isDone set_done res]. unfold tx_next.
      cbn [sent t1 rx acc]. rewrite <- app_assoc. reflexivity.
  - unfold push. fold q0. unfold Enqueue, attempt. by rewrite Hpush, HPO.
Qed.

(** the socket takes 10 bytes, then everything. *)
Lemma short_write_resends_frame_witness :
  ∃ q1 t1 q2,
    push Scenario.release_build Scenario.conn 1 Scenario.just_hello
      (Scenario.tx_link [TxRoom 10; TxRoom 4096])
    = Ok (0, q1, t1)
    ∧ wait Scenario.release_build 1 q1 1 t1
      = Ok (Some (payload_bytes Scenario.just_hello, q2,
                  tx_next (Scenario.tx_link [TxRoom 10; TxRoom 4096]) []
                    (take 10 (frame_header Scenario.release_build Scenario.just_hello
                              ++ frame_body Scenario.just_hello)
                     ++ frame_header Scenario.release_build Scenario.just_hello
                     ++ frame_body Scenario.just_hello))).
Proof.
  apply (short_write_resends_frame Scenario.release_build Scenario.just_hello
           Scenario.conn 1 (Scenario.tx_link [TxRoom 10; TxRoom 4096])
           10 4096 []).
  - split; [cbn; lia | repeat constructor].
  - cbn. lia.
  - vm_compute. discriminate.
  - reflexivity.
  - reflexivity.
  - reflexivity.
  - reflexivity.
  - vm_compute. lia.
  - vm_compute. lia.
Defined.

(** ** Head-of-line blocking *)

Lemma blocked_pop_step (cfg : config) (q : MTCPQueue) (qa : Z) (rest : list Z)
    (ra : PendingRequest) (t : transport) :
  listening q = false → workQ q = qa :: rest → IS_PUSH qa = false →
  pending q !! qa = Some ra → isDone ra = false →
  num_bytes ra < sizeof_header → rx t = [] →
  ProcessQ cfg 1 q t = Ok (q, t).
Proof.
  intros Hl Hw Hpop Hp Hnd Hn Hrx.
  rewrite (ProcessQ_one cfg q t qa rest ra Hw Hp).
  unfold attempt. rewrite Hpop.
  unfold ProcessIncoming, incoming_accept. rewrite Hl.
  unfold incoming_header.
  destruct (num_bytes ra <? sizeof_header) eqn:E; [| apply Z.ltb_ge in E; lia].
  unfold mtcp_read. rewrite Hrx. cbn [obind]. rewrite Hnd.
  rewrite insert_id by done. f_equal. f_equal. destruct q; cbn in *. by subst.
Qed.

(** X12. [wait] drives the head of the work queue only.  While the
    request at the head is a pop that is still in its header and the
    socket has nothing to read, a [wait] for any request that is not done,
    a push behind that pop included, is still not done after any number of
    rounds, whatever room the socket has for writing. *)
Theorem wait_head_of_line (cfg : config) (q : MTCPQueue) (qa qt : Z)
    (rest : list Z) (ra r : PendingRequest) (t : transport) (fuel : nat) :
  listening q = false → workQ q = qa :: rest → IS_PUSH qa = false →
  pending q !! qa = Some ra → isDone ra = false →
  num_bytes ra < sizeof_header → rx t = [] →
  pending q !! qt = Some r → isDone r = false →
  wait cfg fuel q qt t = Ok None.
Proof.
  intros Hl Hw Hpop Hp Hnd Hn Hrx Hq Hr. unfold wait. rewrite Hq.
  induction fuel as [| fuel IH]; cbn [wait_loop]; rewrite Hq, Hr; [done |].
  rewrite (blocked_pop_step cfg q qa rest ra t) by done. cbn [obind]. exact IH.
Qed.

(** A push parked behind a pop, on a socket that would take the frame. *)
Lemma wait_head_of_line_witness :
  tx (Scenario.link []) = [TxRoom 4096]
  ∧ wait Scenario.debug_build 100 Scenario.pop_then_push 1 (Scenario.link [])
    = Ok None.
Proof.
  split; [reflexivity |].
  apply (wait_head_of_line Scenario.debug_build Scenario.pop_then_push 2 1 [1]
           (new_request Scenario.empty_sga) (new_request Scenario.just_hello)).
  - reflexivity.
  - reflexivity.
  - reflexivity.
  - vm_compute. reflexivity.
  - reflexivity.
  - reflexivity.
  - reflexivity.
  - vm_compute. reflexivity.
  - reflexivity.
Defined.

(** ** Invariants of the interface *)

Lemma kept_refl q : kept q q.
Proof. by repeat split. Qed.

Lemma kept_trans q1 q2 q3 : kept q1 q2 → kept q2 q3 → kept q1 q3.
Proof.
  intros (A1 & A2 & A3 & A4 & A5) (B1 & B2 & B3 & B4 & B5).
  split; [congruence |]. split; [tauto |]. split; [set_solver |]. split; tauto.
Qed.

Lemma kept_same (q q' : MTCPQueue) :
  qd q' = qd q → listening q' = listening q → mtcp_evts q' = mtcp_evts q →
  workQ q' = workQ q → pending q' = pending q → kept q q'.
Proof.
  intros H1 H2 H3 H4 H5. unfold kept, interest_ok, work_tracked.
  rewrite H1, H2, H3, H4, H5. by repeat split.
Qed.

Lemma interest_ok_lor (e b : Z) :
  Z.lor b (Z.lor MTCP_EPOLLIN MTCP_EPOLLOUT) = Z.lor MTCP_EPOLLIN MTCP_EPOLLOUT →
  Z.lor e (Z.lor MTCP_EPOLLIN MTCP_EPOLLOUT) = Z.lor MTCP_EPOLLIN MTCP_EPOLLOUT →
  Z.lor (Z.lor b e) (Z.lor MTCP_EPOLLIN MTCP_EPOLLOUT)
  = Z.lor MTCP_EPOLLIN MTCP_EPOLLOUT.
Proof. intros Hb He. by rewrite <- Z.lor_assoc, He, Hb. Qed.

Lemma ProcessQ_kept (cfg : config) n q t q' t' :
  ProcessQ cfg n q t = Ok (q', t') → kept q q'.
Proof.
  intros H. apply ProcessQ_frame in H as (Hs & Hd & H1 & _ & H3 & H4 & _).
  unfold kept, interest_ok, work_tracked. rewrite H1, H3, H4, Hd.
  split; [done |]. split; [done |]. split; [done |]. split; [done |].
  intros Hall. destruct Hs as [pre Hpre]. rewrite Hpre in Hall.
  apply Forall_app in Hall as [_ Hall].
  eapply Forall_impl; [exact Hall |]. cbn. intros qt Hin.
  apply elem_of_dom. rewrite Hd. by apply elem_of_dom.
Qed.

Lemma ProcessIncoming_kept (cfg : config) q req t q' req' t' :
  ProcessIncoming cfg q req t = Ok (q', req', t') → kept q q'.
Proof.
  intros H. apply ProcessIncoming_queue in H as (H1 & H2 & H3 & H4 & H5 & _).
  by apply kept_same.
Qed.

Lemma Enqueue_kept (cfg : config) q qt s t ret r q' t' :
  Enqueue cfg q qt s t = Ok (ret, r, q', t') → kept q q'.
Proof.
  unfold Enqueue.
  destruct (attempt cfg qt q (new_request s) t) as [[[q1 r1] t1] | |] eqn:Ha;
    cbn [obind]; [| done | done].
  assert (Hk : kept q q1 ∧ workQ q1 = workQ q ∧ pending q1 = pending q).
  { destruct (attempt_queue _ _ _ _ _ _ _ _ Ha) as [Hw Hp].
    split; [| done]. revert Ha. unfold attempt. destruct (IS_PUSH qt).
    - destruct (ProcessOutgoing cfg (new_request s) t) as [[r0 t0] | |];
        cbn [obind]; [| done | done].
      intros [= <- <- <-]. apply kept_refl.
    - apply ProcessIncoming_kept. }
  destruct Hk as (Hk & Hw & Hp).
  destruct (isDone r1); [by intros [= <- <- <- <-] |].
  intros H%assert_ok. injection H as <- <- <- <-.
  apply (kept_trans _ q1); [done |].
  unfold kept, interest_ok, work_tracked. cbn [qd listening mtcp_evts pending workQ set_work].
  split; [done |]. split; [done |]. split; [| split; [done |]].
  - destruct (pending q1 !! qt); [done |]. rewrite dom_insert_L. set_solver.
  - intros Hall. apply Forall_app. split.
    + eapply Forall_impl; [exact Hall |]. cbn. intros x Hx.
      destruct (pending q1 !! qt) eqn:E; [done |].
      destruct (decide (x = qt)) as [-> | Hne].
      * rewrite lookup_insert_eq. eauto.
      * by rewrite lookup_insert_ne.
    + constructor; [| constructor].
      destruct (pending q1 !! qt) eqn:E; [rewrite E; eauto |].
      rewrite lookup_insert_eq. eauto.
Qed.

Lemma set_evts_kept (q : MTCPQueue) (e : Z) :
  (interest_ok q →
   Z.lor e (Z.lor MTCP_EPOLLIN MTCP_EPOLLOUT) = Z.lor MTCP_EPOLLIN MTCP_EPOLLOUT) →
  kept q (set_evts q e).
Proof.
  intros He. unfold kept, interest_ok, work_tracked.
  cbn [qd listening mtcp_evts pending workQ set_evts]. by repeat split.
Qed.

Lemma wait_loop_kept (cfg : config) (fuel : nat) : ∀ qt q t ret q' t',
  wait_loop cfg fuel qt q t = Ok (Some (ret, q', t')) → kept q q'.
Proof.
  induction fuel as [| fuel IH]; intros qt q t ret q' t'; cbn [wait_loop].
  - destruct (pending q !! qt) as [r |]; [| done].
    destruct (isDone r); [| done]. intros [= _ <- _]. apply kept_refl.
  - destruct (pending q !! qt) as [r |]; [| done].
    destruct (isDone r); [intros [= _ <- _]; apply kept_refl |].
    destruct (ProcessQ cfg 1 q t) as [[q1 t1] | |] eqn:HQ; cbn [obind];
      [| done | done].
    intros H. apply (kept_trans _ q1);
      [exact (ProcessQ_kept _ _ _ _ _ _ HQ) | exact (IH _ _ _ _ _ _ H)].
Qed.

Lemma api_step_kept (cfg : config) (st st' : MTCPQueue * transport) :
  api_step cfg st st' → kept st.1 st'.1.
Proof.
  destruct 1 as [stk env q t dm ty pr ret env' q' H | q t res errno
    | q t res errno | q t ret | junk q t ret a q' t' H | q qt s t ret q' t' H
    | q qt s t ret s' q' t' H | q s t ret s' q' t' H
    | fuel q qt t ret q' t' H | q qt s t ret s' q' H | n q t q' t' H];
    cbn [fst snd].
  - revert H. unfold socket.
    destruct (if mtcp_env_initialized env then _ else _); cbn [obind];
      [| done | done].
    intros [= _ _ <-]. by apply kept_same.
  - unfold listen. destruct (res =? 0); cbn [snd]; [| apply kept_refl].
    unfold kept, interest_ok, work_tracked. by repeat split.
  - unfold connect. destruct (res =? 0); cbn [snd]; [| apply kept_refl].
    apply set_evts_kept. intros H. rewrite (Z.lor_comm (mtcp_evts q)).
    by apply interest_ok_lor.
  - unfold close. cbn [snd]. by apply set_evts_kept.
  - revert H. unfold accept, assert. destruct (_ || _); [| done].
    destruct (ProcessIncoming cfg q (new_request junk) t) as [[[q1 r1] t1] | |] eqn:HP;
      cbn [obind]; [| done | done].
    apply ProcessIncoming_kept in HP.
    destruct (accepts q1) as [| [fd a0] rest]; intros [= _ _ <- _]; [done |].
    apply (kept_trans _ q1); [done |]. by apply kept_same.
  - revert H. unfold push.
    destruct (Enqueue cfg _ qt s t) as [[[[r0 rq] q0] t0] | |] eqn:HE;
      cbn [obind]; [| done | done].
    intros [= _ <- _]. apply Enqueue_kept in HE.
    eapply kept_trans; [| exact HE]. apply set_evts_kept.
    intros H. by apply interest_ok_lor.
  - revert H. unfold pop.
    destruct (Enqueue cfg _ qt s t) as [[[[r0 rq] q0] t0] | |] eqn:HE;
      cbn [obind]; [| done | done].
    apply Enqueue_kept in HE.
    assert (Hk : kept q q0).
    { eapply kept_trans; [| exact HE]. apply set_evts_kept.
      intros H. by apply interest_ok_lor. }
    destruct (r0 =? 0); [by intros [= _ _ <- _] |].
    destruct (pending q0 !! qt); [by intros [= _ _ <- _] |].
    by destruct (NDEBUG cfg).
  - revert H. unfold peek.
    destruct (ProcessIncoming cfg q (new_request s) t) as [[[q1 r1] t1] | |] eqn:HP;
      cbn [obind]; [| done | done].
    intros [= _ _ <- _]. exact (ProcessIncoming_kept _ _ _ _ _ _ _ HP).
  - revert H. unfold wait. destruct (pending q !! qt); [| by destruct (NDEBUG cfg)].
    apply wait_loop_kept.
  - revert H. unfold poll. destruct (pending q !! qt) as [r |];
      [| by destruct (NDEBUG cfg)].
    destruct (isDone r); intros [= _ _ <-]; apply kept_refl.
  - exact (ProcessQ_kept _ _ _ _ _ _ H).
Qed.

(** X13. Over any sequence of calls of the interface that return
    ([socket], [listen], [connect], [close], [accept], [push], [pop],
    [peek], [wait], [poll], [ProcessQ]): the descriptor [qd] never changes,
    a listening queue stays listening, no pending entry is ever removed,
    the interest mask stays within [MTCP_EPOLLIN | MTCP_EPOLLOUT] if it was,
    and every token in the work queue has a pending entry if that was so
    at the start, so the branch of [ProcessQ] for a token without an entry
    is never taken. *)
Theorem api_invariants (cfg : config) (st st' : MTCPQueue * transport) :
  rtc (api_step cfg) st st' → kept st.1 st'.1.
Proof.
  induction 1 as [st | st1 st2 st3 Hstep _ IH]; [apply kept_refl |].
  eapply kept_trans; [exact (api_step_kept cfg _ _ Hstep) | exact IH].
Qed.

(** a pop that parks, then three progress steps. *)
Lemma api_invariants_witness :
  ∃ q1 t1 q2 t2,
    pop Scenario.debug_build Scenario.conn 2 Scenario.empty_sga (Scenario.link [])
    = Ok (0, Scenario.empty_sga, q1, t1)
    ∧ ProcessQ Scenario.debug_build 3 q1 t1 = Ok (q2, t2)
    ∧ kept Scenario.conn q2.
Proof.
  assert (E : ∃ q1 t1 q2 t2,
    pop Scenario.debug_build Scenario.conn 2 Scenario.empty_sga (Scenario.link [])
    = Ok (0, Scenario.empty_sga, q1, t1)
    ∧ ProcessQ Scenario.debug_build 3 q1 t1 = Ok (q2, t2))
    by (eexists _, _, _, _; split; [vm_compute; reflexivity |];
        vm_compute; reflexivity).
  destruct E as (q1 & t1 & q2 & t2 & E1 & E2).
  exists q1, t1, q2, t2. split; [exact E1 |]. split; [exact E2 |].
  apply (api_invariants Scenario.debug_build (Scenario.conn, Scenario.link [])
           (q2, t2)).
  eapply rtc_l; [exact (step_pop _ _ _ _ _ _ _ _ _ E1) |].
  apply rtc_once. exact (step_ProcessQ _ _ _ _ _ _ E2).
Defined.

(** X14. [socket] initialises the stack at most once.  After a
    [socket] call the environment is initialised exactly when it was
    before or [mtcp_epoll_create] succeeded; once it is, a further [socket]
    leaves it as it is and only stores the new socket, and a second
    [mtcp_env_init] stops on its assertion. *)
Theorem socket_initialises_once (cfg : config) (stk stk2 : mtcp_stack)
    (env env1 : mtcp_env) (q q1 q2 : MTCPQueue) (ret d ty p d2 ty2 p2 : Z) :
  socket cfg stk env q d ty p = Ok (ret, env1, q1) →
  (mtcp_env_initialized env1 = true
   ↔ mtcp_env_initialized env = true ∨ 0 ≤ epoll_ret stk)
  ∧ (mtcp_env_initialized env1 = true →
     socket cfg stk2 env1 q2 d2 ty2 p2
     = Ok (qd q2, env1, set_mtcp_qd q2 (socket_ret stk2))
     ∧ (NDEBUG cfg = false → mtcp_env_init cfg stk2 env1 = AssertFail)).
Proof.
  intros H.
  assert (Hinit : mtcp_env_initialized env1 = true
                  ↔ mtcp_env_initialized env = true ∨ 0 ≤ epoll_ret stk).
  { revert H. unfold socket, mtcp_env_init, assert.
    destruct (mtcp_env_initialized env) eqn:Hi; cbn [obind negb].
    - intros [= _ <- _]. rewrite Hi. tauto.
    - rewrite orb_true_r. destruct (epoll_ret stk <? 0) eqn:E; cbn [obind];
        intros [= _ <- _]; cbn [mtcp_env_initialized].
      + apply Z.ltb_lt in E. split; [done |]. intros [? | ?]; [done | lia].
      + apply Z.ltb_ge in E. split; [by right | done]. }
  split; [done |]. intros H1. split.
  - unfold socket. by rewrite H1.
  - intros Hd. unfold mtcp_env_init, assert. by rewrite Hd, H1.
Qed.

(** the first [socket] of the process, then a second one. *)
Lemma socket_initialises_once_witness :
  ∃ ret env1 q1,
    socket Scenario.debug_build Scenario.stack_ok Scenario.cold Scenario.conn 2 1 0
    = Ok (ret, env1, q1)
    ∧ mtcp_env_initialized env1 = true
    ∧ socket Scenario.debug_build Scenario.stack_ok env1 Scenario.parked_pop 2 1 0
      = Ok (qd Scenario.parked_pop, env1,
            set_mtcp_qd Scenario.parked_pop (socket_ret Scenario.stack_ok))
    ∧ mtcp_env_init Scenario.debug_build Scenario.stack_ok env1 = AssertFail.
Proof.
  assert (E : ∃ ret env1 q1,
    socket Scenario.debug_build Scenario.stack_ok Scenario.cold Scenario.conn 2 1 0
    = Ok (ret, env1, q1)) by (eexists _, _, _; vm_compute; reflexivity).
  destruct E as (ret & env1 & q1 & E). exists ret, env1, q1. split; [exact E |].
  destruct (socket_initialises_once Scenario.debug_build Scenario.stack_ok
              Scenario.stack_ok Scenario.cold env1 Scenario.conn q1
              Scenario.parked_pop ret 2 1 0 2 1 0 E) as [Hi Hn].
  assert (Hinit : mtcp_env_initialized env1 = true).
  { apply Hi. right. cbn. lia. }
  destruct (Hn Hinit) as [H1 H2].
  split; [exact Hinit |]. split; [exact H1 | exact (H2 eq_refl)].
Defined.

End StreamMore.

(** * Further properties of the packet back end *)

Module PacketMore.
Import LWIP.
Import PacketProps.

(** ** The header checksum *)

Lemma land_ffff (s : Z) : 0 ≤ s → Z.land s 0xFFFF = s mod 65536.
Proof. intros _. change 0xFFFF with (Z.ones 16). by rewrite Z.land_ones. Qed.

Lemma shiftr_16 (s : Z) : Z.shiftr s 16 = s / 65536.
Proof. by rewrite Z.shiftr_div_pow2. Qed.

Lemma land_bit31 (s : Z) :
  0 ≤ s < 2 ^ 32 → (Z.land s 0x80000000 =? 0) = (s <? 2 ^ 31).
Proof.
  intros Hs.
  assert (H : Z.land s 0x80000000 = if s <? 2 ^ 31 then 0 else 2 ^ 31).
  { apply Z.bits_inj'. intros i Hi. rewrite Z.land_spec.
    change 0x80000000 with (2 ^ 31). rewrite Z.pow2_bits_eqb by lia.
    destruct (Z.eqb_spec 31 i) as [<- | Hne].
    - rewrite andb_true_r. destruct (s <? 2 ^ 31) eqn:E.
      + apply Z.ltb_lt in E. rewrite Z.bits_0.
        apply Z.bits_above_log2; [lia |].
        destruct (Z.eq_dec s 0) as [-> | Hn0]; [done |].
        apply Z.log2_lt_pow2; lia.
      + apply Z.ltb_ge in E. rewrite Z.pow2_bits_eqb by lia.
        rewrite Z.eqb_refl. apply Z.testbit_true; [lia |].
        assert (s / 2 ^ 31 = 1) as ->; [| done].
        symmetry. apply (Z.div_unique s (2 ^ 31) 1 (s - 2 ^ 31)); lia.
    - rewrite andb_false_r. destruct (s <? 2 ^ 31).
      + by rewrite Z.bits_0.
      + rewrite Z.pow2_bits_eqb by lia. symmetry. by apply Z.eqb_neq. }
  rewrite H. by destruct (s <? 2 ^ 31).
Qed.

Lemma fold16_folded (s S : Z) :
  folded s S → folded (s mod 65536 + s / 65536) S.
Proof.
  intros (Hs & (k & Hk & HS) & H0).
  pose proof (Z.div_mod s 65536 ltac:(lia)) as Hdm.
  pose proof (Z.mod_pos_bound s 65536 ltac:(lia)) as Hm.
  assert (Hq : 0 ≤ s / 65536) by (apply Z.div_pos; lia).
  split; [lia |]. split.
  - exists (k + s / 65536). split; lia.
  - intros E. apply H0. lia.
Qed.

Lemma ip_sum_step_folded (s S w : Z) :
  folded s S → s < 2 ^ 31 → word16 w →
  folded (ip_sum_step s w) (S + w) ∧ ip_sum_step s w < 2 ^ 31.
Proof.
  intros HF Hs Hw. unfold word16 in Hw. pose proof HF as (H0 & (k & Hk & HS) & Hz).
  assert (HF1 : folded (s + w) (S + w)).
  { split; [lia |]. split; [exists k; split; lia |]. intros E. lia. }
  unfold ip_sum_step. cbv zeta. unfold wrap32.
  rewrite (Z.mod_small (s + w)) by lia.
  rewrite land_bit31 by lia.
  destruct (s + w <? 2 ^ 31) eqn:E; [apply Z.ltb_lt in E; done |].
  apply Z.ltb_ge in E.
  rewrite land_ffff, shiftr_16 by lia.
  pose proof (Z.mod_pos_bound (s + w) 65536 ltac:(lia)) as Hm.
  assert (Hq : 0 ≤ (s + w) / 65536 < 65536).
  { split; [apply Z.div_pos; lia |]. apply Z.div_lt_upper_bound; lia. }
  rewrite Z.mod_small by lia.
  split; [by apply fold16_folded | lia].
Qed.

Lemma fold_left_folded (ws : list Z) : ∀ s S,
  folded s S → s < 2 ^ 31 → Forall word16 ws →
  folded (fold_left ip_sum_step ws s) (S + wsum ws)
  ∧ fold_left ip_sum_step ws s < 2 ^ 31.
Proof.
  induction ws as [| w ws IH]; intros s S HF Hs Hall; cbn [fold_left wsum foldr].
  - by rewrite Z.add_0_r.
  - inversion Hall as [| ? ? Hw Hws]; subst.
    destruct (ip_sum_step_folded s S w HF Hs Hw) as [HF1 Hs1].
    destruct (IH _ _ HF1 Hs1 Hws) as [HF2 Hs2].
    fold (wsum ws). by rewrite Z.add_assoc.
Qed.

Lemma ip_sum_fold_small (fuel : nat) (s : Z) :
  0 ≤ s < 2 ^ 16 → ip_sum_fold fuel s = s.
Proof.
  intros Hs. destruct fuel; [done |]. cbn [ip_sum_fold].
  rewrite shiftr_16, Z.div_small by lia. done.
Qed.

Lemma ip_sum_fold_folded (fuel : nat) (s T : Z) :
  folded s T → s < 2 ^ 31 →
  folded (ip_sum_fold (S (S fuel)) s) T
  ∧ ip_sum_fold (S (S fuel)) s < 2 ^ 16.
Proof.
  intros HF Hs. pose proof HF as (H0 & _).
  destruct (Z_lt_ge_dec s (2 ^ 16)) as [Hlt | Hge].
  { rewrite ip_sum_fold_small by lia. split; [done | lia]. }
  pose proof (Z.mod_pos_bound s 65536 ltac:(lia)) as Hm.
  assert (Hq : 1 ≤ s / 65536 < 32768).
  { split; [apply Z.div_le_lower_bound; lia |].
    apply Z.div_lt_upper_bound; lia. }
  cbn [ip_sum_fold]. rewrite shiftr_16.
  destruct (s / 65536 =? 0) eqn:E; [apply Z.eqb_eq in E; lia |].
  rewrite land_ffff by lia. unfold wrap32.
  rewrite (Z.mod_small (s mod 65536 + s / 65536)) by lia.
  set (s1 := s mod 65536 + s / 65536).
  assert (HF1 : folded s1 T) by (by apply fold16_folded).
  assert (Hs1 : 0 ≤ s1 < 65536 + 32768) by (subst s1; lia).
  clearbody s1.
  rewrite shiftr_16.
  destruct (s1 / 65536 =? 0) eqn:E1.
  { apply Z.eqb_eq in E1. split; [done |].
    destruct (Z_lt_ge_dec s1 65536); [lia |].
    assert (1 ≤ s1 / 65536) by (apply Z.div_le_lower_bound; lia). lia. }
  apply Z.eqb_neq in E1.
  assert (Hq1 : s1 / 65536 = 1).
  { destruct (Z_lt_ge_dec s1 65536) as [Hl | Hg].
    - rewrite Z.div_small in E1 by lia. done.
    - symmetry. apply (Z.div_unique s1 65536 1 (s1 - 65536)); lia. }
  assert (Hm1 : s1 mod 65536 = s1 - 65536).
  { pose proof (Z.div_mod s1 65536 ltac:(lia)). lia. }
  rewrite land_ffff by lia.
  assert (Hs1' : 65536 ≤ s1).
  { pose proof (Z.div_mod s1 65536 ltac:(lia)).
    pose proof (Z.mod_pos_bound s1 65536 ltac:(lia)). lia. }
  pose proof (fold16_folded s1 T HF1) as HF2.
  rewrite Hm1, Hq1 in *.
  rewrite (Z.mod_small (s1 - 65536 + 1)) by lia.
  rewrite ip_sum_fold_small by lia.
  split; [done | lia].
Qed.

Lemma ip_sum_value (ws : list Z) :
  Forall word16 ws →
  ∃ r, ip_sum ws = 65535 - r ∧ 0 ≤ r < 2 ^ 16 ∧ folded r (wsum ws).
Proof.
  intros Hall. unfold ip_sum.
  assert (HF0 : folded 0 0) by (split; [lia |]; split; [exists 0; lia | done]).
  destruct (fold_left_folded ws 0 0 HF0 ltac:(lia) Hall) as [HF1 Hs1].
  rewrite Z.add_0_l in HF1.
  destruct (ip_sum_fold_folded 30 _ _ HF1 Hs1) as [HF2 Hs2].
  exists (ip_sum_fold 32 (fold_left ip_sum_step ws 0)).
  split; [| split; [destruct HF2; lia | exact HF2]].
  destruct HF2 as [Hr _]. unfold wrap16, Z.lnot.
  generalize dependent (ip_sum_fold 32 (fold_left ip_sum_step ws 0)).
  intros r Hs2 Hr.
  symmetry. apply (Z.mod_unique_pos _ _ (-1)); lia.
Qed.

Lemma wsum_app (l1 l2 : list Z) : wsum (l1 ++ l2) = wsum l1 + wsum l2.
Proof. unfold wsum. induction l1 as [| a l IH]; cbn; [done | lia]. Qed.

Lemma wsum_nonneg (ws : list Z) : Forall word16 ws → 0 ≤ wsum ws.
Proof.
  unfold wsum, word16. induction 1 as [| w ws Hw _ IH]; cbn; lia.
Qed.

Lemma wsum_mid (l1 l2 : list Z) (x : Z) :
  wsum (l1 ++ x :: l2) = wsum l1 + x + wsum l2.
Proof. rewrite wsum_app. unfold wsum. cbn [foldr]. lia. Qed.

Lemma word16_mid (l1 l2 : list Z) (x : Z) :
  Forall word16 (l1 ++ l2) → word16 x → Forall word16 (l1 ++ x :: l2).
Proof.
  intros [H1 H2]%Forall_app Hx. apply Forall_app. split; [done |].
  by constructor.
Qed.

(** The sum over a header whose checksum cell holds [c], in terms of the
    folded sum [r] of the other cells. *)
Lemma ip_sum_with (l1 l2 : list Z) (c r k : Z) :
  Forall word16 (l1 ++ l2) → word16 c →
  0 ≤ r < 2 ^ 16 → 0 ≤ k → wsum l1 + wsum l2 = r + 65535 * k →
  (r = 0 → wsum l1 + wsum l2 = 0) →
  ∃ r2 k2, ip_sum (l1 ++ c :: l2) = 65535 - r2 ∧ 0 ≤ r2 < 2 ^ 16 ∧ 0 ≤ k2
           ∧ r + c + 65535 * k = r2 + 65535 * k2
           ∧ (r2 = 0 → r = 0 ∧ c = 0).
Proof.
  intros Hall Hc Hr Hk HS H0.
  destruct (ip_sum_value _ (word16_mid l1 l2 c Hall Hc))
    as (r2 & Hv & Hr2 & (_ & (k2 & Hk2 & HS2) & H02)).
  rewrite wsum_mid in HS2, H02.
  apply Forall_app in Hall as [H1 H2].
  pose proof (wsum_nonneg l1 H1). pose proof (wsum_nonneg l2 H2).
  unfold word16 in Hc.
  exists r2, k2. split; [done |]. split; [done |]. split; [done |].
  split; [lia |]. intros E. specialize (H02 E). lia.
Qed.

Lemma ip_sum_zero_cell (l1 l2 : list Z) :
  Forall word16 (l1 ++ l2) →
  ∃ r k, ip_sum (l1 ++ 0 :: l2) = 65535 - r ∧ 0 ≤ r < 2 ^ 16 ∧ 0 ≤ k
         ∧ wsum l1 + wsum l2 = r + 65535 * k
         ∧ (r = 0 → wsum l1 + wsum l2 = 0).
Proof.
  intros Hall.
  assert (H0 : word16 0) by (unfold word16; lia).
  destruct (ip_sum_value _ (word16_mid l1 l2 0 Hall H0))
    as (r & Hv & Hr & (_ & (k & Hk & HS) & Hz)).
  rewrite wsum_mid in HS, Hz.
  exists r, k. split; [done |]. split; [done |]. split; [done |].
  split; [lia |]. intros E. specialize (Hz E). lia.
Qed.



(** *** The checksum as [complete_send] stores it *)

Lemma ip_sum_unique (l1 l2 : list Z) (x : Z) :
  Forall word16 (l1 ++ l2) → word16 x →
  ip_sum (l1 ++ 0 :: l2) ≠ 0 →
  ip_sum (l1 ++ x :: l2) = 0 ↔ x = ip_sum (l1 ++ 0 :: l2).
Proof.
  intros Hall Hx.
  destruct (ip_sum_zero_cell l1 l2 Hall) as (r & k & Hv & Hr & Hk & HS & H0).
  destruct (ip_sum_with l1 l2 x r k Hall Hx Hr Hk HS H0)
    as (r2 & k2 & Hv2 & Hr2 & Hk2 & HS2 & H02).
  rewrite Hv2. revert Hv. generalize (ip_sum (l1 ++ 0 :: l2)). intros c Hv Hc.
  unfold word16 in Hx. split; intros E; lia.
Qed.

Lemma bswap16_word16 (x : Z) : word16 (bswap16 x).
Proof.
  unfold word16. rewrite bswap16_spec.
  pose proof (Z.mod_pos_bound x 256 ltac:(lia)).
  pose proof (Z.mod_pos_bound (x / 256) 256 ltac:(lia)). lia.
Qed.

Lemma lor_range (n a b : Z) :
  0 ≤ n → 0 ≤ a < 2 ^ n → 0 ≤ b < 2 ^ n → 0 ≤ Z.lor a b < 2 ^ n.
Proof.
  intros Hn Ha Hb. split; [apply Z.lor_nonneg; lia |].
  destruct (Z.eq_dec a 0) as [-> | Ha0]; [by rewrite Z.lor_0_l; lia |].
  destruct (Z.eq_dec b 0) as [-> | Hb0]; [by rewrite Z.lor_0_r; lia |].
  assert (0 < Z.lor a b).
  { assert (0 ≤ Z.lor a b) by (apply Z.lor_nonneg; lia).
    assert (Z.lor a b ≠ 0); [| lia]. intros E. apply Z.lor_eq_0_iff in E. lia. }
  apply Z.log2_lt_pow2; [done |]. rewrite Z.log2_lor by lia.
  apply Z.max_lub_lt; apply Z.log2_lt_pow2; lia.
Qed.

Lemma byte_shift_range (x k : Z) :
  0 ≤ k ≤ 24 → 0 ≤ Z.shiftl (Z.land x 255) k < 2 ^ 32.
Proof.
  intros Hk. change 255 with (Z.ones 8). rewrite Z.land_ones by lia.
  rewrite Z.shiftl_mul_pow2 by lia.
  pose proof (Z.mod_pos_bound x (2 ^ 8) ltac:(lia)) as Hm.
  assert (0 < 2 ^ k ≤ 2 ^ 24).
  { split; [apply Z.pow_pos_nonneg; lia | apply Z.pow_le_mono_r; lia]. }
  nia.
Qed.

Lemma bswap32_range (x : Z) : 0 ≤ bswap32 x < 2 ^ 32.
Proof.
  unfold bswap32.
  pose proof (byte_shift_range x 24 ltac:(lia)) as B3.
  pose proof (byte_shift_range (Z.shiftr x 8) 16 ltac:(lia)) as B2.
  pose proof (byte_shift_range (Z.shiftr x 16) 8 ltac:(lia)) as B1.
  pose proof (byte_shift_range (Z.shiftr x 24) 0 ltac:(lia)) as B0.
  rewrite Z.shiftl_0_r in B0.
  repeat apply lor_range; lia.
Qed.

Lemma halves_word16 (x : Z) :
  0 ≤ x < 2 ^ 32 → word16 (Z.land x 0xFFFF) ∧ word16 (Z.shiftr x 16).
Proof.
  intros Hx. unfold word16. rewrite land_ffff, shiftr_16 by lia.
  pose proof (Z.mod_pos_bound x 65536 ltac:(lia)).
  split; [lia |]. split; [apply Z.div_pos; lia |].
  apply Z.div_lt_upper_bound; lia.
Qed.

Lemma ipv4_words_cells (h : ipv4_hdr) :
  ipv4_words h
  = [Z.lor (version_ihl h) (Z.shiftl (type_of_service h) 8);
     total_length h; packet_id h; fragment_offset h;
     Z.lor (time_to_live h) (Z.shiftl (next_proto_id h) 8)]
    ++ hdr_checksum h
    :: [Z.land (src_addr h) 0xFFFF; Z.shiftr (src_addr h) 16;
        Z.land (dst_addr h) 0xFFFF; Z.shiftr (dst_addr h) 16].
Proof. reflexivity. Qed.

(** The header of every datagram [complete_send] emits. *)
Lemma complete_send_header (d : dpdk) (q : lwip_queue) (t t' : task)
    (r : Z) (pkt : rte_mbuf) (dest : sockaddr_in) :
  complete_send d q t = Ok (r, t', Some pkt) →
  send_peer q t = Some dest →
  ∃ src,
    0 ≤ src < 2 ^ 32
    ∧ iph pkt
      = with_checksum (blank_header src (sin_addr dest))
          (htons (ip_sum (ipv4_words (blank_header src (sin_addr dest))))).
Proof.
  intros Hsend Hpeer. revert Hsend. unfold complete_send. rewrite Hpeer.
  destruct (negb (our_dpdk_init_flag d)); [congruence |].
  destruct (our_dpdk_port_id d) as [port |]; [| congruence].
  destruct (_ && _); [congruence |].
  destruct (negb (our_mbuf_pool d)); [congruence |].
  destruct (negb (alloc_ok d)); [congruence |].
  destruct (encode_sga (sga t)) as [body plen].
  destruct (dmtr_u32tou16 _); [congruence |].
  destruct (valid_port d port); cbn [negb]; [| congruence].
  destruct (tx_count d =? 0); [congruence |].
  intros [= _ _ <-].
  exists (match my_bound_addr q with
          | Some b => htonl (sin_addr b)
          | None => htonl (mac_to_ip (nic_mac d))
          end).
  split; [destruct (my_bound_addr q); apply bswap32_range |].
  reflexivity.
Qed.

(** X16. The checksum [complete_send] stores.  In every datagram it
    emits, the checksum field is [htons] of [ip_sum] over the header with
    a zero checksum field; so, on the little-endian host, the header
    passes [ip_sum]'s own check exactly when that sum reads the same in
    both byte orders (for a sum other than 0). *)
Theorem stored_checksum_is_swapped (d : dpdk) (q : lwip_queue) (t t' : task)
    (r : Z) (pkt : rte_mbuf) (dest : sockaddr_in) :
  complete_send d q t = Ok (r, t', Some pkt) →
  send_peer q t = Some dest →
  0 ≤ sin_addr dest < 2 ^ 32 →
  let c := ip_sum (ipv4_words (with_checksum (iph pkt) 0)) in
  hdr_checksum (iph pkt) = htons c
  ∧ (c ≠ 0 → ip_sum (ipv4_words (iph pkt)) = 0 ↔ htons c = c).
Proof.
  intros Hsend Hpeer Hdst.
  destruct (complete_send_header d q t t' r pkt dest Hsend Hpeer)
    as (src & Hsrc & ->).
  cbv zeta.
  change (with_checksum (with_checksum (blank_header src (sin_addr dest)) _) 0)
    with (blank_header src (sin_addr dest)).
  rewrite !ipv4_words_cells.
  cbn [with_checksum blank_header version_ihl type_of_service total_length
       packet_id fragment_offset time_to_live next_proto_id hdr_checksum
       src_addr dst_addr].
  split; [reflexivity |].
  apply ip_sum_unique; [| apply bswap16_word16].
  destruct (halves_word16 _ Hsrc) as [S1 S2].
  destruct (halves_word16 _ Hdst) as [D1 D2].
  assert (W : ∀ w, (0 <=? w) && (w <? 2 ^ 16) = true → word16 w).
  { intros w [A B]%andb_true_iff. apply Z.leb_le in A. apply Z.ltb_lt in B.
    by split. }
  cbn [app]. repeat apply Forall_cons_2; try assumption; try apply Forall_nil_2;
    apply W; vm_compute; reflexivity.
Qed.

(** the header of the ping of the client does not sum to 0. *)
Lemma stored_checksum_is_swapped_witness :
  ∃ pkt,
    Scenario.ping_pkt = Some pkt
    ∧ hdr_checksum (iph pkt)
      = htons (ip_sum (ipv4_words (with_checksum (iph pkt) 0)))
    ∧ ip_sum (ipv4_words (iph pkt)) ≠ 0.
Proof.
  assert (E : ∃ pkt,
    complete_send Scenario.client_nic Scenario.client_bound_q
      (Scenario.ping_to Scenario.server_addr)
    = Ok (0, set_done (Scenario.ping_to Scenario.server_addr), Some pkt)
    ∧ (ip_sum (ipv4_words (with_checksum (iph pkt) 0)) =? 0) = false
    ∧ (htons (ip_sum (ipv4_words (with_checksum (iph pkt) 0)))
       =? ip_sum (ipv4_words (with_checksum (iph pkt) 0))) = false).
  { eexists. split; [vm_compute; reflexivity |]. split; vm_compute; reflexivity. }
  destruct E as (pkt & E & Hc & Hs). exists pkt.
  split; [unfold Scenario.ping_pkt, Scenario.datagram; by rewrite E |].
  destruct (stored_checksum_is_swapped Scenario.client_nic
              Scenario.client_bound_q (Scenario.ping_to Scenario.server_addr)
              _ 0 pkt Scenario.server_addr E eq_refl ltac:(cbn; lia))
    as [H1 H2].
  split; [exact H1 |]. intros Hv.
  apply Z.eqb_neq in Hc. apply Z.eqb_neq in Hs. apply Hs, (H2 Hc), Hv.
Defined.

(** *** The address table *)

Lemma ip_to_mac_in_cases (tbl : list mac2ip) (a : Z) :
  ip_to_mac_in tbl a = ether_broadcast ∨ ip_to_mac_in tbl a ∈ map mac tbl.
Proof.
  induction tbl as [| e r IH]; cbn [ip_to_mac_in map]; [by left |].
  destruct (a =? ip e); [right; by left |].
  destruct IH as [-> | Hin]; [by left | right; by right].
Qed.

Lemma mac_to_ip_in_cases (tbl : list mac2ip) (m : ether_addr) :
  mac_to_ip_in tbl m = 0 ∨ mac_to_ip_in tbl m ∈ map ip tbl.
Proof.
  induction tbl as [| e r IH]; cbn [mac_to_ip_in map]; [by left |].
  destruct (is_same_ether_addr m (mac e)); [right; by left |].
  destruct IH as [-> | Hin]; [by left | right; by right].
Qed.

Lemma table_mac_to_ip (tbl : list mac2ip) (a : Z) :
  NoDup (map mac tbl) →
  ip_to_mac_in tbl a ≠ ether_broadcast →
  mac_to_ip_in tbl (ip_to_mac_in tbl a) = a.
Proof.
  induction tbl as [| e r IH]; cbn [ip_to_mac_in mac_to_ip_in map]; [done |].
  intros Hnd Hb. apply NoDup_cons in Hnd as [Hnot Hnd].
  unfold is_same_ether_addr. destruct (Z.eqb_spec a (ip e)) as [-> | Hne].
  - by rewrite bool_decide_eq_true_2.
  - destruct (ip_to_mac_in_cases r a) as [E | Hin]; [done |].
    rewrite bool_decide_eq_false_2; [by apply IH |].
    intros Heq. apply Hnot. by rewrite <- Heq.
Qed.

Lemma table_ip_to_mac (tbl : list mac2ip) (m : ether_addr) :
  NoDup (map ip tbl) →
  mac_to_ip_in tbl m ≠ 0 →
  ip_to_mac_in tbl (mac_to_ip_in tbl m) = m.
Proof.
  induction tbl as [| e r IH]; cbn [ip_to_mac_in mac_to_ip_in map]; [done |].
  intros Hnd Hb. apply NoDup_cons in Hnd as [Hnot Hnd].
  unfold is_same_ether_addr in *. destruct (decide (m = mac e)) as [-> | Hne].
  - rewrite bool_decide_eq_true_2 by done. by rewrite Z.eqb_refl.
  - rewrite bool_decide_eq_false_2 in * by done.
    destruct (mac_to_ip_in_cases r m) as [E | Hin]; [done |].
    destruct (Z.eqb_spec (mac_to_ip_in r m) (ip e)) as [Heq | Hneq].
    + exfalso. apply Hnot. by rewrite <- Heq.
    + by apply IH.
Qed.

(** X17. The address table resolves both ways: an IP address that
    [ip_to_mac] resolves (to something other than the broadcast address)
    is what [mac_to_ip] gives for that MAC, and a MAC that [mac_to_ip]
    resolves (to something other than 0) is what [ip_to_mac] gives for
    that address. *)
Theorem address_table_round_trip (a : Z) (m : ether_addr) :
  (ip_to_mac a ≠ ether_broadcast → mac_to_ip (ip_to_mac a) = a)
  ∧ (mac_to_ip m ≠ 0 → ip_to_mac (mac_to_ip m) = m).
Proof.
  split.
  - apply table_mac_to_ip. vm_compute. repeat constructor; set_solver.
  - apply table_ip_to_mac. vm_compute. repeat constructor; set_solver.
Qed.

(** 10.0.0.5 and the NIC of the client. *)
Lemma address_table_round_trip_witness :
  mac_to_ip (ip_to_mac 0x0A000005) = 0x0A000005
  ∧ ip_to_mac (mac_to_ip (nic_mac Scenario.client_nic))
    = nic_mac Scenario.client_nic.
Proof.
  destruct (address_table_round_trip 0x0A000005 (nic_mac Scenario.client_nic))
    as [H1 H2].
  split; [apply H1 | apply H2]; vm_compute; discriminate.
Defined.

(** *** [bind], [connect], [close] *)

(** X18. A bound address is not replaced.  A [bind] that returns 0
    was made on an unbound queue, leaves the queue bound and its default
    peer untouched; on the bound queue every further [bind] and every
    [connect] fails with [EPERM] or [EINVAL] and changes nothing. *)
Theorem bound_address_is_final (d d2 : dpdk) (q q' : lwip_queue)
    (sa sa2 : option sockaddr_in) (size size2 : Z) :
  bind d q sa size = (0, q') →
  is_bound q' = true
  ∧ is_bound q = false
  ∧ my_default_peer q' = my_default_peer q
  ∧ (∃ e, bind d2 q' sa2 size2 = (e, q') ∧ (e = EPERM ∨ e = EINVAL))
  ∧ (∃ e, connect d2 q' sa2 size2 = Ok (e, q') ∧ (e = EPERM ∨ e = EINVAL)).
Proof.
  intros Hb.
  assert (H : is_bound q' = true ∧ is_bound q = false
              ∧ my_default_peer q' = my_default_peer q).
  { revert Hb. unfold bind.
    destruct (negb (our_dpdk_init_flag d)); [done |].
    destruct (is_bound q); [done |].
    destruct sa as [a |]; [| done].
    destruct (negb (sizeof_sockaddr_in =? size)); [done |].
    destruct (our_dpdk_port_id d) as [port |]; [| done].
    destruct (sin_port a =? 0); [done |].
    destruct (INADDR_ANY =? sin_addr a).
    - destruct (negb (valid_port d port)); [done |]. by intros [= <-].
    - by intros [= <-]. }
  destruct H as (H1 & H2 & H3). split; [done |]. split; [done |]. split; [done |].
  split.
  - unfold bind. rewrite H1. destruct (negb (our_dpdk_init_flag d2)); eauto.
  - unfold connect. rewrite H1. destruct (negb (our_dpdk_init_flag d2)); [eauto |].
    destruct (negb (sizeof_sockaddr_in =? size2)); eauto.
Qed.

(** the server queue. *)
Lemma bound_address_is_final_witness :
  is_bound Scenario.server_q = true
  ∧ is_bound Scenario.client_unbound_q = false
  ∧ my_default_peer Scenario.server_q = my_default_peer Scenario.client_unbound_q
  ∧ (∃ e, bind Scenario.server_nic Scenario.server_q (Some Scenario.client_addr)
            sizeof_sockaddr_in = (e, Scenario.server_q)
          ∧ (e = EPERM ∨ e = EINVAL))
  ∧ (∃ e, connect Scenario.server_nic Scenario.server_q (Some Scenario.client_addr)
            sizeof_sockaddr_in = Ok (e, Scenario.server_q)
          ∧ (e = EPERM ∨ e = EINVAL)).
Proof.
  apply (bound_address_is_final Scenario.server_nic Scenario.server_nic
           Scenario.client_unbound_q Scenario.server_q
           (Some Scenario.server_addr) (Some Scenario.client_addr)
           sizeof_sockaddr_in sizeof_sockaddr_in).
  reflexivity.
Defined.

(** X19. After a [connect] that returned 0 every datagram the
    queue sends goes to the default peer, whatever address the array
    carries: Ethernet destination, IPv4 destination and UDP destination
    port are the peer's, and, the queue being unbound, the UDP source port
    is the peer's port and the IPv4 source is the table address of the
    sending NIC. *)
Theorem connected_send_goes_to_peer (d d2 : dpdk) (q q' : lwip_queue)
    (p : sockaddr_in) (size r : Z) (t t' : task) (pkt : rte_mbuf) :
  connect d q (Some p) size = Ok (0, q') →
  complete_send d2 q' t = Ok (r, t', Some pkt) →
  d_addr (eth pkt) = ip_to_mac (htonl (sin_addr p))
  ∧ dst_addr (iph pkt) = sin_addr p
  ∧ dst_port (udp pkt) = htons (sin_port p)
  ∧ src_port (udp pkt) = htons (sin_port p)
  ∧ src_addr (iph pkt) = htonl (mac_to_ip (s_addr (eth pkt))).
Proof.
  intros Hc.
  assert (H : my_default_peer q' = Some p ∧ my_bound_addr q' = None).
  { revert Hc. unfold connect, is_bound.
    destruct (negb (our_dpdk_init_flag d)); [done |].
    destruct (negb (sizeof_sockaddr_in =? size)); [done |].
    destruct (my_bound_addr q) eqn:Hb; [done |].
    destruct (my_default_peer q); [done |]. intros [= <-]. done. }
  destruct H as [Hp Hb]. unfold complete_send, send_peer. rewrite Hp, Hb.
  destruct (negb (our_dpdk_init_flag d2)); [congruence |].
  destruct (our_dpdk_port_id d2) as [port |]; [| congruence].
  rewrite bool_decide_eq_false_2 by done. cbn [andb].
  destruct (negb (our_mbuf_pool d2)); [congruence |].
  destruct (negb (alloc_ok d2)); [congruence |].
  destruct (encode_sga (sga t)) as [body plen].
  destruct (dmtr_u32tou16 _); [congruence |].
  destruct (negb (valid_port d2 port)); [congruence |].
  destruct (tx_count d2 =? 0); [congruence |].
  intros [= _ _ <-]. cbn. done.
Qed.

(** connected to the server, the client sends an array addressed to itself. *)
Lemma connected_send_goes_to_peer_witness :
  ∃ q' pkt,
    connect Scenario.client_nic Scenario.client_unbound_q
      (Some Scenario.server_addr) sizeof_sockaddr_in = Ok (0, q')
    ∧ Scenario.datagram Scenario.client_nic q'
        (Scenario.ping_to Scenario.client_addr) = Some pkt
    ∧ dst_addr (iph pkt) = sin_addr Scenario.server_addr
    ∧ dst_port (udp pkt) = htons (sin_port Scenario.server_addr).
Proof.
  assert (E : ∃ q' pkt,
    connect Scenario.client_nic Scenario.client_unbound_q
      (Some Scenario.server_addr) sizeof_sockaddr_in = Ok (0, q')
    ∧ complete_send Scenario.client_nic q' (Scenario.ping_to Scenario.client_addr)
      = Ok (0, set_done (Scenario.ping_to Scenario.client_addr), Some pkt)).
  { eexists _, _. split; [vm_compute; reflexivity |]. vm_compute. reflexivity. }
  destruct E as (q' & pkt & E1 & E2). exists q', pkt. split; [exact E1 |].
  split; [unfold Scenario.datagram; by rewrite E2 |].
  destruct (connected_send_goes_to_peer _ _ _ _ _ _ _ _ _ _ E1 E2)
    as (_ & H1 & H2 & _).
  split; [exact H1 | exact H2].
Defined.

(** *** Completion of a send and of a receive *)

(** X20. [complete_send] returns 0 exactly when it handed a
    datagram to the device; then the task is marked done with error 0, and
    on every error return the task is as it was. *)
Theorem complete_send_done_iff_sent (d : dpdk) (q : lwip_queue) (t t' : task)
    (r : Z) (p : option rte_mbuf) :
  complete_send d q t = Ok (r, t', p) →
  (r = 0 ↔ is_Some p)
  ∧ t' = (if r =? 0 then set_done t else t).
Proof.
  unfold complete_send.
  assert (Hno : ∀ e, e ≠ 0 → Ok (e, t, None) = Ok (r, t', p) →
            (r = 0 ↔ is_Some p) ∧ t' = (if r =? 0 then set_done t else t)).
  { intros e He [= <- <- <-]. split.
    - split; [done | by intros []].
    - destruct (Z.eqb_spec e 0); done. }
  destruct (negb (our_dpdk_init_flag d)); [by apply Hno |].
  destruct (our_dpdk_port_id d) as [port |]; [| by apply Hno].
  destruct (_ && _); [by apply Hno |].
  destruct (negb (our_mbuf_pool d)); [by apply Hno |].
  destruct (negb (alloc_ok d)); [by apply Hno |].
  destruct (send_peer q t) as [sa |]; [| done].
  destruct (encode_sga (sga t)) as [body plen].
  unfold dmtr_u32tou16. destruct (_ <=? _); [| by apply Hno].
  destruct (negb (valid_port d port)); [by apply Hno |].
  destruct (tx_count d =? 0); [by apply Hno |].
  intros [= <- <- <-]. split; [| done]. split; [eauto | done].
Qed.

(** the ping of the client. *)
Lemma complete_send_done_iff_sent_witness :
  ∃ r t' p,
    complete_send Scenario.client_nic Scenario.client_bound_q
      (Scenario.ping_to Scenario.server_addr) = Ok (r, t', p)
    ∧ (r = 0 ↔ is_Some p)
    ∧ t' = (if r =? 0 then set_done (Scenario.ping_to Scenario.server_addr)
            else Scenario.ping_to Scenario.server_addr).
Proof.
  assert (E : ∃ r t' p,
    complete_send Scenario.client_nic Scenario.client_bound_q
      (Scenario.ping_to Scenario.server_addr) = Ok (r, t', p))
    by (eexists _, _, _; vm_compute; reflexivity).
  destruct E as (r & t' & p & E). exists r, t', p. split; [exact E |].
  exact (complete_send_done_iff_sent _ _ _ _ _ _ E).
Defined.

(** The validation of a datagram that is not refused lets it through to
    the segment count. *)
Lemma complete_recv_passes (d : dpdk) (q : lwip_queue) (t : task) (pkt : rte_mbuf) :
  device_up d →
  ¬ refused d q pkt →
  complete_recv d q t (Some pkt)
  = if (length (payload pkt) <? 4)%nat then Undefined
    else
      match decode_segs d (Z.to_nat (le_combine (take 4 (payload pkt)))) 0
              (drop 4 (payload pkt)) (sga_segs (sga t)) with
      | AssertFail => AssertFail
      | Undefined => Undefined
      | Ok (e, segs) =>
          let s1 := {| sga_numsegs := le_combine (take 4 (payload pkt));
                       sga_segs := segs ++ drop (length segs) (sga_segs (sga t));
                       sga_addr := sga_addr (sga t);
                       sga_addrlen := sga_addrlen (sga t) |} in
          if negb (e =? 0) then Ok (e, set_sga t s1)
          else if sizeof_sockaddr_in =? sga_addrlen (sga t) then
            match sga_addr (sga t) with
            | None => Ok (EPERM, set_sga t s1)
            | Some _ =>
                Ok (0, set_done (set_sga t
                         {| sga_numsegs := sga_numsegs s1;
                            sga_segs := sga_segs s1;
                            sga_addr := Some {| sin_family := AF_INET;
                                                sin_port := ntohs (src_port (udp pkt));
                                                sin_addr := src_addr (iph pkt) |};
                            sga_addrlen := sga_addrlen s1 |}))
            end
          else
            match sga_addr (sga t) with
            | Some _ => Ok (ENOTSUP, set_sga t s1)
            | None => Ok (0, set_done (set_sga t s1))
            end
      end.
Proof.
  intros (Hinit & port & Hport & Hvalid) Href.
  unfold refused in Href.
  assert (Hmac : d_addr (eth pkt) = nic_mac d).
  { destruct (decide (d_addr (eth pkt) = nic_mac d)); [done |]. tauto. }
  assert (Hty : ntohs (ether_type (eth pkt)) = ETHER_TYPE_IPv4).
  { destruct (Z.eq_dec (ntohs (ether_type (eth pkt))) ETHER_TYPE_IPv4); tauto. }
  assert (Hpr : next_proto_id (iph pkt) = IPPROTO_UDP).
  { destruct (Z.eq_dec (next_proto_id (iph pkt)) IPPROTO_UDP); tauto. }
  assert (Hip : ∀ b, my_bound_addr q = Some b → dst_addr (iph pkt) = sin_addr b).
  { intros b Hb. destruct (Z.eq_dec (dst_addr (iph pkt)) (sin_addr b)); [done |].
    exfalso. apply Href. right. right. left. eauto. }
  assert (Hpo : ∀ b, my_bound_addr q = Some b →
                     ntohs (dst_port (udp pkt)) = sin_port b).
  { intros b Hb.
    destruct (Z.eq_dec (ntohs (dst_port (udp pkt))) (sin_port b)); [done |].
    exfalso. apply Href. do 4 right. eauto. }
  unfold complete_recv. rewrite Hinit, Hport, Hvalid, Hmac, Hty, Hpr.
  unfold is_same_ether_addr. rewrite bool_decide_eq_true_2 by done.
  rewrite !Z.eqb_refl. cbn [negb].
  assert (Hb1 : match my_bound_addr q with
                | Some b => negb (dst_addr (iph pkt) =? sin_addr b)
                | None => false
                end = false).
  { destruct (my_bound_addr q) as [b |] eqn:Hb; [| done].
    by rewrite (Hip b eq_refl), Z.eqb_refl. }
  assert (Hb2 : match my_bound_addr q with
                | Some b => negb (ntohs (dst_port (udp pkt)) =? sin_port b)
                | None => false
                end = false).
  { destruct (my_bound_addr q) as [b |] eqn:Hb; [| done].
    by rewrite (Hpo b eq_refl), Z.eqb_refl. }
  rewrite Hb1, Hb2. reflexivity.
Qed.

(** X21. Delivery.  A datagram that the receive-side validation does not
    refuse, whose payload holds a segment count within the array's
    capacity and, after it, the records of that many segments, completes
    a pop that supplies a [sockaddr_in]-sized address slot, provided
    [dmtr_malloc] finds the memory for each segment: the call returns 0,
    the task is done with error 0, the segment count is the one in the
    datagram, the live segments are the ones the payload holds, and the
    slot holds [AF_INET], the datagram's UDP source port in host order
    and its IPv4 source field. *)
Theorem complete_recv_delivers (d : dpdk) (q : lwip_queue) (t : task)
    (pkt : rte_mbuf) (slot : sockaddr_in) (segs : list sgaseg) :
  device_up d →
  ¬ refused d q pkt →
  carries (payload pkt) segs →
  Z.of_nat (length segs) ≤ DMTR_SGARRAY_MAXSIZE d →
  heap_serves d segs →
  sga_addrlen (sga t) = sizeof_sockaddr_in →
  sga_addr (sga t) = Some slot →
  ∃ t',
    complete_recv d q t (Some pkt) = Ok (0, t')
    ∧ done t' = true ∧ error t' = 0 ∧ opcode t' = opcode t
    ∧ sga_numsegs (sga t') = le_combine (take 4 (payload pkt))
    ∧ sga_numsegs (sga t') = Z.of_nat (length segs)
    ∧ live_segs (sga t') = segs
    ∧ sga_addr (sga t')
      = Some {| sin_family := AF_INET;
                sin_port := ntohs (src_port (udp pkt));
                sin_addr := src_addr (iph pkt) |}.
Proof.
  intros Hup Href (Hn & Hwf & Hlt & rest & Hpay) Hmax Hheap Hlen Hslot.
  rewrite (complete_recv_passes d q t pkt Hup Href).
  assert (Hp4 : (length (payload pkt) <? 4)%nat = false).
  { apply Nat.ltb_ge. rewrite Hpay, length_app, length_le_split. lia. }
  assert (Hnum : le_combine (take 4 (payload pkt)) = Z.of_nat (length segs)).
  { rewrite Hpay, (take_app_length' _ _ 4) by (symmetry; apply length_le_split).
    apply PacketProps.le_combine_split_small. cbn. lia. }
  assert (Hsegs : decode_segs d (Z.to_nat (Z.of_nat (length segs))) 0
                    (drop 4 (payload pkt)) (sga_segs (sga t)) = Ok (0, segs)).
  { rewrite Hpay, Nat2Z.id.
    rewrite (drop_app_length' _ _ 4) by (symmetry; apply length_le_split).
    apply PacketProps.decode_encode; [done | done | lia | exact Hheap]. }
  rewrite Hp4, Hnum, Hsegs, Hlen, Hslot. cbn [Z.eqb negb]. rewrite Z.eqb_refl.
  cbv zeta. eexists. split; [reflexivity |].
  cbn [done error opcode sga set_done set_sga sga_numsegs sga_addr].
  repeat (split; [done |]). split; [| done].
  unfold live_segs. cbn [sga_numsegs sga_segs]. rewrite Nat2Z.id.
  apply take_app_length.
Qed.

(** Scenario S5 with an unbound receiver: the ping for port 9001 is
    delivered with its one segment. *)
Lemma complete_recv_delivers_witness :
  ∃ pkt t',
    Scenario.datagram Scenario.client_nic Scenario.client_bound_q
      (Scenario.ping_to {| sin_family := AF_INET; sin_port := 9001;
                           sin_addr := 0x0500000A |}) = Some pkt
    ∧ complete_recv Scenario.server_nic Scenario.client_unbound_q
        Scenario.pop_task (Some pkt) = Ok (0, t')
    ∧ done t' = true
    ∧ live_segs (sga t')
      = [ {| sgaseg_buf := Scenario.ping; sgaseg_len := 4 |} ]
    ∧ sga_addr (sga t')
      = Some {| sin_family := AF_INET;
                sin_port := ntohs (src_port (udp pkt));
                sin_addr := src_addr (iph pkt) |}.
Proof.
  assert (E : ∃ pkt,
    Scenario.datagram Scenario.client_nic Scenario.client_bound_q
      (Scenario.ping_to {| sin_family := AF_INET; sin_port := 9001;
                           sin_addr := 0x0500000A |}) = Some pkt
    ∧ d_addr (eth pkt) = nic_mac Scenario.server_nic
    ∧ ntohs (ether_type (eth pkt)) = ETHER_TYPE_IPv4
    ∧ next_proto_id (iph pkt) = IPPROTO_UDP
    ∧ payload pkt
      = le_split 4 1
        ++ flat_map seg_bytes [ {| sgaseg_buf := Scenario.ping; sgaseg_len := 4 |} ]
        ++ []).
  { eexists. split; [vm_compute; reflexivity |].
    repeat split; vm_compute; reflexivity. }
  destruct E as (pkt & E & Hm & Hty & Hpr & Hpay).
  destruct (complete_recv_delivers Scenario.server_nic Scenario.client_unbound_q
              Scenario.pop_task pkt {| sin_family := 0; sin_port := 0; sin_addr := 0 |}
              [ {| sgaseg_buf := Scenario.ping; sgaseg_len := 4 |} ])
    as (t' & H1 & H2 & _ & _ & _ & _ & H6 & H7).
  - split; [reflexivity | exists 0; split; reflexivity].
  - intros [H | [H | [(b & Hb & _) | [H | (b & Hb & _)]]]];
      [by apply H | by apply H | discriminate Hb | by apply H | discriminate Hb].
  - split; [reflexivity |]. split; [repeat constructor |].
    split; [repeat constructor |]. exists []. exact Hpay.
  - vm_compute. discriminate.
  - intros i g _. reflexivity.
  - reflexivity.
  - reflexivity.
  - exists pkt, t'. split; [exact E |]. split; [exact H1 |].
    split; [exact H2 |]. split; [exact H6 | exact H7].
Defined.

(** A datagram that passed the validation and is shorter than it says,
    here a count of one and a length cell of 1000 with no body, is read
    past its end. *)
Lemma complete_recv_reads_past (d : dpdk) (q : lwip_queue) (t : task) (pkt : rte_mbuf) :
  device_up d →
  ¬ refused d q pkt →
  0 < DMTR_SGARRAY_MAXSIZE d →
  dmtr_malloc d 0 1000 = 0 →
  payload pkt = le_split 4 1 ++ le_split 4 1000 →
  complete_recv d q t (Some pkt) = Undefined.
Proof.
  intros Hup Href Hmax Hheap Hpay.
  rewrite (complete_recv_passes d q t pkt Hup Href), Hpay.
  change (le_split 4 1 ++ le_split 4 1000)
    with ([Byte.x01; Byte.x00; Byte.x00; Byte.x00]
          ++ [Byte.xe8; Byte.x03; Byte.x00; Byte.x00]).
  cbn [length app Nat.ltb Nat.leb take drop].
  change (le_combine [Byte.x01; Byte.x00; Byte.x00; Byte.x00]) with 1.
  change (Z.to_nat 1) with 1%nat. cbn [decode_segs length Nat.ltb Nat.leb take drop].
  change (Z.of_nat 0) with 0.
  destruct (DMTR_SGARRAY_MAXSIZE d <=? 0) eqn:E; [apply Z.leb_le in E; lia |].
  change (le_combine [Byte.xe8; Byte.x03; Byte.x00; Byte.x00]) with 1000.
  rewrite Hheap. reflexivity.
Qed.

(** The loop returns with an error only from a refused [dmtr_malloc]: the
    value is the one [dmtr_malloc] gave for the cell written last. *)
Lemma decode_segs_error (d : dpdk) :
  ∀ (n i : nat) (p : list byte) (cells : list sgaseg) (e : Z) (ws : list sgaseg),
    decode_segs d n i p cells = Ok (e, ws) →
    e ≠ 0 →
    ∃ j g, ws !! j = Some g ∧ (j < n)%nat
           ∧ dmtr_malloc d (i + j) (sgaseg_len g) = e.
Proof.
  induction n as [| n IH]; intros i p cells e ws; cbn [decode_segs].
  - intros [= <- <-]. done.
  - destruct (DMTR_SGARRAY_MAXSIZE d <=? Z.of_nat i); [done |].
    destruct (length p <? 4)%nat; [done |]. cbv zeta.
    destruct (dmtr_malloc d i (le_combine (take 4 p)) =? 0) eqn:Em; cbn [negb].
    + destruct (_ <? _)%nat; [done |].
      destruct (decode_segs d n (S i) _ _) as [[r written] | |] eqn:Hrec; [| done | done].
      intros [= <- <-] He.
      destruct (IH _ _ _ _ _ Hrec He) as (j & g & Hj & Hlt & Hm).
      exists (S j), g. split; [exact Hj |]. split; [lia |].
      replace (i + S j)%nat with (S i + j)%nat by lia. exact Hm.
    + intros [= <- <-] _. exists 0%nat. eexists. split; [reflexivity |].
      split; [lia |]. cbn [sgaseg_len]. by rewrite Nat.add_0_r.
Qed.

(** X22. Every error return of [complete_recv] leaves the task not
    completed by it ([done] and [error] as before) and the address slot
    untouched.  An error return changes the task in three cases only:
    [EPERM] for a [sockaddr_in]-sized length with no slot, [ENOTSUP] for a
    slot with another length, and the value of a refused [dmtr_malloc],
    for a cell of the array that already has its new length; in all
    three the array has been overwritten with the datagram's count and
    the segments read so far. *)
Theorem complete_recv_errors (d : dpdk) (q : lwip_queue) (t t' : task)
    (pkt : rte_mbuf) (r : Z) :
  complete_recv d q t (Some pkt) = Ok (r, t') →
  r ≠ 0 →
  done t' = done t ∧ error t' = error t
  ∧ sga_addr (sga t') = sga_addr (sga t)
  ∧ (t' ≠ t →
     (r = EPERM ∧ sga_addrlen (sga t) = sizeof_sockaddr_in
      ∧ sga_addr (sga t) = None
      ∨ r = ENOTSUP ∧ sga_addrlen (sga t) ≠ sizeof_sockaddr_in
        ∧ is_Some (sga_addr (sga t))
      ∨ ∃ i g, sga_segs (sga t') !! i = Some g
               ∧ Z.of_nat i < sga_numsegs (sga t')
               ∧ dmtr_malloc d i (sgaseg_len g) = r)
     ∧ sga_numsegs (sga t') = le_combine (take 4 (payload pkt))).
Proof.
  unfold complete_recv.
  assert (Hsame : ∀ e, Ok (e, t) = Ok (r, t') → r ≠ 0 →
            done t' = done t ∧ error t' = error t
            ∧ sga_addr (sga t') = sga_addr (sga t)
            ∧ (t' ≠ t →
               (r = EPERM ∧ sga_addrlen (sga t) = sizeof_sockaddr_in
                ∧ sga_addr (sga t) = None
                ∨ r = ENOTSUP ∧ sga_addrlen (sga t) ≠ sizeof_sockaddr_in
                  ∧ is_Some (sga_addr (sga t))
                ∨ ∃ i g, sga_segs (sga t') !! i = Some g
                         ∧ Z.of_nat i < sga_numsegs (sga t')
                         ∧ dmtr_malloc d i (sgaseg_len g) = r)
               ∧ sga_numsegs (sga t') = le_combine (take 4 (payload pkt)))).
  { intros e [= <- <-] _. done. }
  destruct (negb (our_dpdk_init_flag d)); [by apply Hsame |].
  destruct (our_dpdk_port_id d) as [port |]; [| by apply Hsame].
  destruct (negb (valid_port d port)); [by apply Hsame |].
  destruct (negb (is_same_ether_addr _ _)); [by apply Hsame |].
  destruct (negb (ETHER_TYPE_IPv4 =? _)); [by apply Hsame |].
  destruct (match my_bound_addr q with Some _ => _ | None => _ end);
    [by apply Hsame |].
  destruct (negb (IPPROTO_UDP =? _)); [by apply Hsame |].
  destruct (match my_bound_addr q with Some _ => _ | None => _ end);
    [by apply Hsame |].
  clear Hsame.
  destruct (length (payload pkt) <? 4)%nat; [done |]. cbv zeta.
  destruct (decode_segs d _ 0 _ _) as [[e ws] | |] eqn:Hdec; [| done | done].
  destruct (e =? 0) eqn:Ee; cbn [negb].
  - destruct (sizeof_sockaddr_in =? sga_addrlen (sga t)) eqn:El;
      [apply Z.eqb_eq in El | apply Z.eqb_neq in El];
      destruct (sga_addr (sga t)) as [slot |] eqn:Hs.
    + by intros [= <- <-].
    + intros [= <- <-] _. cbn. split; [done |]. split; [done |]. split; [done |].
      intros _. split; [| done]. left. by rewrite El.
    + intros [= <- <-] _. cbn. split; [done |]. split; [done |]. split; [done |].
      intros _. split; [| done]. right. left.
      split; [done |]. split; [congruence | eauto].
    + by intros [= <- <-].
  - apply Z.eqb_neq in Ee. intros [= <- <-] _.
    cbn [done error sga set_sga sga_addr sga_numsegs sga_segs].
    split; [done |]. split; [done |]. split; [done |].
    intros _. split; [| done]. right. right.
    destruct (decode_segs_error d _ _ _ _ _ _ Hdec Ee) as (j & g & Hj & Hlt & Hm).
    exists j, g. split; [| split].
    + rewrite lookup_app_l; [exact Hj |]. by apply lookup_lt_Some in Hj.
    + pose proof (le_combine_bound (take 4 (payload pkt))) as Hb. lia.
    + exact Hm.
Qed.

(** The client's ping for a pop with an address length and no slot, and
    for a pop with a slot on a host where [dmtr_malloc] finds nothing. *)
Lemma complete_recv_errors_witness :
  ∃ pkt t1 t2,
    Scenario.ping_pkt = Some pkt
    ∧ complete_recv Scenario.server_nic Scenario.server_q
        Scenario.pop_task_no_slot (Some pkt) = Ok (EPERM, t1)
    ∧ done t1 = done Scenario.pop_task_no_slot
    ∧ sga_numsegs (sga t1) = le_combine (take 4 (payload pkt))
    ∧ complete_recv Scenario.starved_nic Scenario.server_q
        Scenario.pop_task (Some pkt) = Ok (ENOMEM, t2)
    ∧ done t2 = done Scenario.pop_task
    ∧ sga_numsegs (sga t2) = le_combine (take 4 (payload pkt)).
Proof.
  assert (E : ∃ pkt t1 t2,
    Scenario.ping_pkt = Some pkt
    ∧ complete_recv Scenario.server_nic Scenario.server_q
        Scenario.pop_task_no_slot (Some pkt) = Ok (EPERM, t1)
    ∧ (sga_numsegs (sga t1) =? sga_numsegs (sga Scenario.pop_task_no_slot))
      = false
    ∧ complete_recv Scenario.starved_nic Scenario.server_q
        Scenario.pop_task (Some pkt) = Ok (ENOMEM, t2)
    ∧ (sga_numsegs (sga t2) =? sga_numsegs (sga Scenario.pop_task)) = false).
  { eexists _, _, _. split; [vm_compute; reflexivity |].
    split; [vm_compute; reflexivity |]. split; [vm_compute; reflexivity |].
    split; vm_compute; reflexivity. }
  destruct E as (pkt & t1 & t2 & E0 & E1 & Hn1 & E2 & Hn2). exists pkt, t1, t2.
  split; [exact E0 |]. split; [exact E1 |].
  destruct (complete_recv_errors _ _ _ _ _ _ E1 ltac:(discriminate))
    as (H1 & _ & _ & H4).
  destruct (complete_recv_errors _ _ _ _ _ _ E2 ltac:(discriminate))
    as (G1 & _ & _ & G4).
  split; [exact H1 |].
  split; [apply H4; intros ->; by rewrite Z.eqb_refl in Hn1 |].
  split; [exact E2 |]. split; [exact G1 |].
  apply G4. intros ->. by rewrite Z.eqb_refl in Hn2.
Defined.

(** *** The receive queue *)

Lemma drain_queue (d : dpdk) :
  device_up d →
  ∀ (rq : list rte_mbuf) (n : nat) (bursts : list (list rte_mbuf)),
    drain d (length rq + n) bursts rq
    = let '(ps, rq') := drain d n bursts [] in (rq ++ ps, rq').
Proof.
  intros (Hinit & port & Hport & Hvalid).
  induction rq as [| p rest IH]; intros n bursts; cbn [length Nat.add app].
  - by destruct (drain d n bursts []).
  - cbn [drain]. unfold service_recv_queue. rewrite Hinit, Hport. cbn [negb].
    rewrite IH. by destruct (drain d n bursts []).
Qed.

(** X23. [service_recv_queue] hands packets out in arrival order.
    With the device up, as many calls in a row as there are packets return
    what is queued, oldest first, and then the packets of the next burst
    in the order of the burst, at most [our_max_queue_depth] of them, and
    leave the queue empty. *)
Theorem service_recv_queue_fifo (d : dpdk) (rq b : list rte_mbuf)
    (bs : list (list rte_mbuf)) :
  device_up d →
  drain d (length rq + length (take (Z.to_nat our_max_queue_depth) b)) (b :: bs) rq
  = (rq ++ take (Z.to_nat our_max_queue_depth) b, []).
Proof.
  intros Hup. rewrite (drain_queue d Hup).
  pose proof Hup as (Hinit & port & Hport & Hvalid).
  destruct (take (Z.to_nat our_max_queue_depth) b) as [| p rest] eqn:Ht;
    cbn [length drain]; [done |].
  unfold service_recv_queue. rewrite Hinit, Hport, Hvalid, Ht. cbn [negb app].
  pose proof (drain_queue d Hup rest 0 bs) as Hd.
  rewrite Nat.add_0_r in Hd. rewrite Hd. cbn [drain]. by rewrite app_nil_r.
Qed.

(** one packet queued, two more in the next burst. *)
Lemma service_recv_queue_fifo_witness :
  ∃ p1 p2,
    Scenario.ping_pkt = Some p1
    ∧ Scenario.datagram Scenario.client_nic Scenario.client_unbound_q
        (Scenario.ping_to Scenario.server_addr) = Some p2
    ∧ drain Scenario.server_nic 3 [[p2; p1]; []] [p1] = ([p1; p2; p1], []).
Proof.
  assert (E : ∃ p1 p2,
    Scenario.ping_pkt = Some p1
    ∧ Scenario.datagram Scenario.client_nic Scenario.client_unbound_q
        (Scenario.ping_to Scenario.server_addr) = Some p2).
  { eexists _, _. split; vm_compute; reflexivity. }
  destruct E as (p1 & p2 & E1 & E2). exists p1, p2.
  split; [exact E1 |]. split; [exact E2 |].
  apply (service_recv_queue_fifo Scenario.server_nic [p1] [p2; p1] [[]]).
  split; [reflexivity | exists 0; split; reflexivity].
Defined.

End PacketMore.
